(** * A shallow embedding of the wacli message store, canonicaliser and
    backfill controller.

    Strings are byte strings ([String.string], one [ascii] per byte);
    SQL values that may be NULL are [option]s; the SQLite tables are lists
    of rows kept in table order; statements that can fail in the engine
    return a [res]. *)

From Stdlib Require Import List String Ascii ZArith Bool Lia Sorting.Permutation
  Sorting.Sorted.
Import ListNotations.
Open Scope string_scope.
Open Scope Z_scope.

(** ** Results of fallible operations (Go's [(T, error)] pairs). *)

Inductive res (A : Type) : Type :=
| Ok (a : A)
| Err (msg : string).
Arguments Ok {A} a.
Arguments Err {A} msg.

(** ** Bytes and UTF-8 (Go's [unicode/utf8]). *)

Definition byte_val (c : ascii) : Z := Z.of_N (N_of_ascii c).
Definition byte_of (z : Z) : ascii := ascii_of_N (Z.to_N z).

(** the string of the given byte values *)
Definition bytes (l : list Z) : string :=
  fold_right (fun z s => String (byte_of z) s) EmptyString l.

Fixpoint forall_bytes (f : ascii -> bool) (s : string) : bool :=
  match s with
  | EmptyString => true
  | String c s' => f c && forall_bytes f s'
  end.

Definition in_range (lo hi x : Z) : bool := (lo <=? x) && (x <=? hi).

(** a continuation byte [10xxxxxx] *)
Definition is_cont (c : ascii) : bool := in_range 128 191 (byte_val c).

(** the [n] integers from [lo] *)
Fixpoint zrange (lo : Z) (n : nat) : list Z :=
  match n with
  | O => []
  | S n' => lo :: zrange (lo + 1) n'
  end.

(** [utf8.RuneError] *)
Definition RuneError : Z := 65533.

(** the [first] table of [utf8]: the length of the sequence a byte starts,
    0 for a byte that starts none ([xx]) *)
Definition utf8_size (b0 : Z) : nat :=
  if b0 <? 128 then 1
  else if b0 <? 194 then 0
  else if b0 <? 224 then 2
  else if b0 <? 240 then 3
  else if b0 <? 245 then 4
  else 0.

(** the [acceptRanges] of the second byte *)
Definition accept_lo (b0 : Z) : Z :=
  if b0 =? 224 then 160 else if b0 =? 240 then 144 else 128.
Definition accept_hi (b0 : Z) : Z :=
  if b0 =? 237 then 159 else if b0 =? 244 then 143 else 191.

(** [s0&mask2<<6 | s1&maskx] and its longer forms (the masked fields do not
    overlap, so [|] is [+]) *)
Definition rune2 (b0 b1 : Z) : Z := (b0 mod 32) * 64 + b1 mod 64.
Definition rune3 (b0 b1 b2 : Z) : Z := (b0 mod 16) * 4096 + (b1 mod 64) * 64 + b2 mod 64.
Definition rune4 (b0 b1 b2 b3 : Z) : Z :=
  (b0 mod 8) * 262144 + (b1 mod 64) * 4096 + (b2 mod 64) * 64 + b3 mod 64.

(** The runes of [for _, r := range s]: [utf8.DecodeRuneInString] from the
    front; an invalid or truncated sequence yields [RuneError] and moves on
    by one byte. *)
Fixpoint decode_runes (s : string) : list Z :=
  match s with
  | EmptyString => []
  | String c0 s1 =>
      let b0 := byte_val c0 in
      match utf8_size b0 with
      | 1%nat => b0 :: decode_runes s1
      | 2%nat =>
          match s1 with
          | String c1 s2 =>
              if in_range (accept_lo b0) (accept_hi b0) (byte_val c1)
              then rune2 b0 (byte_val c1) :: decode_runes s2
              else RuneError :: decode_runes s1
          | EmptyString => RuneError :: decode_runes s1
          end
      | 3%nat =>
          match s1 with
          | String c1 (String c2 s3) =>
              if in_range (accept_lo b0) (accept_hi b0) (byte_val c1)
                 && in_range 128 191 (byte_val c2)
              then rune3 b0 (byte_val c1) (byte_val c2) :: decode_runes s3
              else RuneError :: decode_runes s1
          | _ => RuneError :: decode_runes s1
          end
      | 4%nat =>
          match s1 with
          | String c1 (String c2 (String c3 s4)) =>
              if in_range (accept_lo b0) (accept_hi b0) (byte_val c1)
                 && in_range 128 191 (byte_val c2) && in_range 128 191 (byte_val c3)
              then rune4 b0 (byte_val c1) (byte_val c2) (byte_val c3) :: decode_runes s4
              else RuneError :: decode_runes s1
          | _ => RuneError :: decode_runes s1
          end
      | _ => RuneError :: decode_runes s1
      end
  end.

(** [utf8.AppendRune] ([strings.Builder.WriteRune]); a negative rune, a
    surrogate or a rune past [MaxRune] is written as [RuneError].
    [t2|byte(r>>6)] is [192 + r/64] for [r < 2048], and so on. *)
Definition encode_rune (r : Z) : string :=
  if in_range 0 127 r then bytes [r]
  else if in_range 0 2047 r then bytes [192 + r / 64; 128 + r mod 64]
  else
    let r := if (r <? 0) || (1114111 <? r) || in_range 55296 57343 r then RuneError else r in
    if r <=? 65535 then bytes [224 + r / 4096; 128 + (r / 64) mod 64; 128 + r mod 64]
    else bytes [240 + r / 262144; 128 + (r / 4096) mod 64; 128 + (r / 64) mod 64;
                128 + r mod 64].

Fixpoint encode_runes (rs : list Z) : string :=
  match rs with
  | [] => EmptyString
  | r :: rs' => encode_rune r ++ encode_runes rs'
  end.

(** ** Go's [strings.TrimSpace] over UTF-8 byte strings.

    [strings.TrimSpace] gives the string of [TrimFunc(s, unicode.IsSpace)]
    (its ASCII fast path included): [TrimLeftFunc] drops the runes at the
    front for which [unicode.IsSpace] holds, [TrimRightFunc] those at the
    back. [unicode.IsSpace] holds for the runes of [space_runes], and
    [space_seqs] are their UTF-8 encodings. Decoding from the front
    ([DecodeRuneInString]) or from the back ([DecodeLastRuneInString])
    gives one of these runes exactly when the string starts, or ends, with
    its encoding; an invalid byte decodes to [RuneError], which is not a
    space. So [ltrim] drops encodings of space runes from the front and
    [rtrim] from the back. *)

(** [unicode.IsSpace]: '\t', '\n', '\v', '\f', '\r', ' ', U+0085, U+00A0 and
    the [White_Space] runes U+1680, U+2000-U+200A, U+2028, U+2029, U+202F,
    U+205F, U+3000 *)
Definition space_runes : list Z :=
  [9; 10; 11; 12; 13; 32; 133; 160; 5760; 8192; 8193; 8194; 8195; 8196; 8197;
   8198; 8199; 8200; 8201; 8202; 8232; 8233; 8239; 8287; 12288].

Definition IsSpace (r : Z) : bool := existsb (Z.eqb r) space_runes.

Definition space_seqs : list string := map encode_rune space_runes.

Definition is_space_seq (s : string) : bool := existsb (String.eqb s) space_seqs.

(** a byte that is a space rune on its own *)
Definition is_space (c : ascii) : bool := is_space_seq (String c EmptyString).

(** [TrimLeftFunc(s, unicode.IsSpace)]: a space rune is one, two or three
    bytes long *)
Fixpoint ltrim (s : string) : string :=
  match s with
  | EmptyString => EmptyString
  | String c0 s1 =>
      if is_space_seq (String c0 EmptyString) then ltrim s1 else
      match s1 with
      | EmptyString => s
      | String c1 s2 =>
          if is_space_seq (String c0 (String c1 EmptyString)) then ltrim s2 else
          match s2 with
          | EmptyString => s
          | String c2 s3 =>
              if is_space_seq (String c0 (String c1 (String c2 EmptyString)))
              then ltrim s3 else s
          end
      end
  end.

(** [TrimRightFunc(s, unicode.IsSpace)]: [String c r] with [r] already
    trimmed ends with the encoding of a space rune only if it is one (no
    encoding of a space rune is a proper suffix of another, and [r] does
    not end with one). *)
Fixpoint rtrim (s : string) : string :=
  match s with
  | EmptyString => EmptyString
  | String c s' =>
      let r := rtrim s' in
      if is_space_seq (String c r) then EmptyString else String c r
  end.

Definition TrimSpace (s : string) : string := rtrim (ltrim s).

(** [s] is made of space runes only: [strings.TrimSpace(s) == ""] *)
Definition all_space (s : string) : bool := String.eqb (ltrim s) "".

(** ** Case folding. *)

(** ASCII case folding: SQLite's [LOWER] and [LIKE] (built without ICU)
    fold ASCII letters only, byte by byte. *)
Definition lower_ascii (c : ascii) : ascii :=
  let n := nat_of_ascii c in
  if ((65 <=? n) && (n <=? 90))%nat then ascii_of_nat (n + 32) else c.

Fixpoint ascii_lower (s : string) : string :=
  match s with
  | EmptyString => EmptyString
  | String c s' => String (lower_ascii c) (ascii_lower s')
  end.

(** [unicode.ToLower] above ASCII: Go's [CaseRanges] lower-case deltas,
    written as runs [(lo, hi, stride, delta)]: the runes [lo], [lo+stride],
    ..., [hi] map to [r + delta] (an [UpperLower] range is a run of stride 2
    and delta 1), every other rune to itself. These are the simple
    lower-case mappings of the Unicode Character Database (version 14.0.0). *)
Definition lower_runs : list (Z * Z * Z * Z) := [
  (192, 214, 1, 32); (216, 222, 1, 32); (256, 302, 2, 1);
  (304, 304, 1, -199); (306, 310, 2, 1); (313, 327, 2, 1); (330, 374, 2, 1);
  (376, 376, 1, -121); (377, 381, 2, 1); (385, 385, 1, 210);
  (386, 388, 2, 1); (390, 390, 1, 206); (391, 391, 1, 1); (393, 394, 1, 205);
  (395, 395, 1, 1); (398, 398, 1, 79); (399, 399, 1, 202);
  (400, 400, 1, 203); (401, 401, 1, 1); (403, 403, 1, 205);
  (404, 404, 1, 207); (406, 406, 1, 211); (407, 407, 1, 209);
  (408, 408, 1, 1); (412, 412, 1, 211); (413, 413, 1, 213);
  (415, 415, 1, 214); (416, 420, 2, 1); (422, 422, 1, 218); (423, 423, 1, 1);
  (425, 425, 1, 218); (428, 428, 1, 1); (430, 430, 1, 218); (431, 431, 1, 1);
  (433, 434, 1, 217); (435, 437, 2, 1); (439, 439, 1, 219); (440, 440, 1, 1);
  (444, 444, 1, 1); (452, 452, 1, 2); (453, 453, 1, 1); (455, 455, 1, 2);
  (456, 456, 1, 1); (458, 458, 1, 2); (459, 475, 2, 1); (478, 494, 2, 1);
  (497, 497, 1, 2); (498, 500, 2, 1); (502, 502, 1, -97); (503, 503, 1, -56);
  (504, 542, 2, 1); (544, 544, 1, -130); (546, 562, 2, 1);
  (570, 570, 1, 10795); (571, 571, 1, 1); (573, 573, 1, -163);
  (574, 574, 1, 10792); (577, 577, 1, 1); (579, 579, 1, -195);
  (580, 580, 1, 69); (581, 581, 1, 71); (582, 590, 2, 1); (880, 882, 2, 1);
  (886, 886, 1, 1); (895, 895, 1, 116); (902, 902, 1, 38); (904, 906, 1, 37);
  (908, 908, 1, 64); (910, 911, 1, 63); (913, 929, 1, 32); (931, 939, 1, 32);
  (975, 975, 1, 8); (984, 1006, 2, 1); (1012, 1012, 1, -60);
  (1015, 1015, 1, 1); (1017, 1017, 1, -7); (1018, 1018, 1, 1);
  (1021, 1023, 1, -130); (1024, 1039, 1, 80); (1040, 1071, 1, 32);
  (1120, 1152, 2, 1); (1162, 1214, 2, 1); (1216, 1216, 1, 15);
  (1217, 1229, 2, 1); (1232, 1326, 2, 1); (1329, 1366, 1, 48);
  (4256, 4293, 1, 7264); (4295, 4295, 1, 7264); (4301, 4301, 1, 7264);
  (5024, 5103, 1, 38864); (5104, 5109, 1, 8); (7312, 7354, 1, -3008);
  (7357, 7359, 1, -3008); (7680, 7828, 2, 1); (7838, 7838, 1, -7615);
  (7840, 7934, 2, 1); (7944, 7951, 1, -8); (7960, 7965, 1, -8);
  (7976, 7983, 1, -8); (7992, 7999, 1, -8); (8008, 8013, 1, -8);
  (8025, 8031, 2, -8); (8040, 8047, 1, -8); (8072, 8079, 1, -8);
  (8088, 8095, 1, -8); (8104, 8111, 1, -8); (8120, 8121, 1, -8);
  (8122, 8123, 1, -74); (8124, 8124, 1, -9); (8136, 8139, 1, -86);
  (8140, 8140, 1, -9); (8152, 8153, 1, -8); (8154, 8155, 1, -100);
  (8168, 8169, 1, -8); (8170, 8171, 1, -112); (8172, 8172, 1, -7);
  (8184, 8185, 1, -128); (8186, 8187, 1, -126); (8188, 8188, 1, -9);
  (8486, 8486, 1, -7517); (8490, 8490, 1, -8383); (8491, 8491, 1, -8262);
  (8498, 8498, 1, 28); (8544, 8559, 1, 16); (8579, 8579, 1, 1);
  (9398, 9423, 1, 26); (11264, 11311, 1, 48); (11360, 11360, 1, 1);
  (11362, 11362, 1, -10743); (11363, 11363, 1, -3814);
  (11364, 11364, 1, -10727); (11367, 11371, 2, 1); (11373, 11373, 1, -10780);
  (11374, 11374, 1, -10749); (11375, 11375, 1, -10783);
  (11376, 11376, 1, -10782); (11378, 11378, 1, 1); (11381, 11381, 1, 1);
  (11390, 11391, 1, -10815); (11392, 11490, 2, 1); (11499, 11501, 2, 1);
  (11506, 11506, 1, 1); (42560, 42604, 2, 1); (42624, 42650, 2, 1);
  (42786, 42798, 2, 1); (42802, 42862, 2, 1); (42873, 42875, 2, 1);
  (42877, 42877, 1, -35332); (42878, 42886, 2, 1); (42891, 42891, 1, 1);
  (42893, 42893, 1, -42280); (42896, 42898, 2, 1); (42902, 42920, 2, 1);
  (42922, 42922, 1, -42308); (42923, 42923, 1, -42319);
  (42924, 42924, 1, -42315); (42925, 42925, 1, -42305);
  (42926, 42926, 1, -42308); (42928, 42928, 1, -42258);
  (42929, 42929, 1, -42282); (42930, 42930, 1, -42261);
  (42931, 42931, 1, 928); (42932, 42946, 2, 1); (42948, 42948, 1, -48);
  (42949, 42949, 1, -42307); (42950, 42950, 1, -35384); (42951, 42953, 2, 1);
  (42960, 42960, 1, 1); (42966, 42968, 2, 1); (42997, 42997, 1, 1);
  (65313, 65338, 1, 32); (66560, 66599, 1, 40); (66736, 66771, 1, 40);
  (66928, 66938, 1, 39); (66940, 66954, 1, 39); (66956, 66962, 1, 39);
  (66964, 66965, 1, 39); (68736, 68786, 1, 64); (71840, 71871, 1, 32);
  (93760, 93791, 1, 32); (125184, 125217, 1, 34)
].

Definition in_run (e : Z * Z * Z * Z) (r : Z) : bool :=
  let '(lo, hi, stride, _) := e in in_range lo hi r && ((r - lo) mod stride =? 0).

(** [unicode.ToLower] *)
Definition unicode_ToLower (r : Z) : Z :=
  if r <=? 127 then (if in_range 65 90 r then r + 32 else r)
  else match find (fun e => in_run e r) lower_runs with
       | Some (_, _, _, delta) => r + delta
       | None => r
       end.

(** [strings.ToLower]: an all-ASCII string has its letters folded byte by
    byte (with no upper-case letter that is [s] itself); any other goes
    through [strings.Map(unicode.ToLower, s)], which yields the encodings of
    the mapped runes of [s] (it copies unchanged valid runes, which are the
    encodings of themselves, and writes [RuneError] for an invalid byte). *)
Definition ToLower (s : string) : string :=
  if forall_bytes (fun c => byte_val c <? 128) s then ascii_lower s
  else encode_runes (map unicode_ToLower (decode_runes s)).

(** ** Time.

    A [time.Time] is modelled by its Unix second: its sub-second part is
    not modelled (the store keeps whole seconds, see [unix]). Go's zero
    time is the instant [zero_time] (0001-01-01 UTC). *)

Definition time := Z.
Definition zero_time : time := -62135596800.
Definition IsZero (t : time) : bool := Z.eqb t zero_time.

(** [unix] in store.go *)
Definition unix (t : time) : Z := if IsZero t then 0 else t.

(** [fromUnix] in store.go *)
Definition fromUnix (sec : Z) : time := if sec <=? 0 then zero_time else sec.

(** [boolToInt] in store.go *)
Definition boolToInt (b : bool) : Z := if b then 1 else 0.

(** [int64(p.FileLength)]: a uint64 reinterpreted as int64. *)
Definition int64_of_uint64 (n : Z) : Z :=
  if n <? 2 ^ 63 then n else n - 2 ^ 64.

(** ** SQL helpers over nullable values. *)

(** [nullIfEmpty] in store.go: the trimmed string, or NULL. *)
Definition nullIfEmpty (s : string) : option string :=
  let s := TrimSpace s in
  if String.eqb s "" then None else Some s.

(** SQL [NULLIF(x, '')] *)
Definition NULLIF_empty (x : option string) : option string :=
  match x with
  | Some v => if String.eqb v "" then None else Some v
  | None => None
  end.

(** SQL [COALESCE(a, b)] *)
Definition COALESCE {A} (a b : option A) : option A :=
  match a with Some _ => a | None => b end.

(** A bound Go [[]byte]: [nil] is bound as NULL, anything else as a blob. *)
Definition blob := option (list Z).

(** [CASE WHEN x IS NOT NULL AND length(x)>0 THEN x ELSE old END] *)
Definition keep_blob (excl old : blob) : blob :=
  match excl with
  | Some (_ :: _) => excl
  | _ => old
  end.

(** ** Rows of the [chats] and [messages] tables. *)

Record chat_row := {
  c_jid : string;
  c_kind : string;
  c_name : option string;
  c_last_message_ts : option Z
}.

Record msg_row := {
  m_chat_jid : string;
  m_chat_name : option string;
  m_msg_id : string;
  m_sender_jid : option string;
  m_sender_name : option string;
  m_ts : Z;
  m_from_me : Z;
  m_text : option string;
  m_display_text : option string;
  m_media_type : option string;
  m_media_caption : option string;
  m_filename : option string;
  m_mime_type : option string;
  m_direct_path : option string;
  m_media_key : blob;
  m_file_sha256 : blob;
  m_file_enc_sha256 : blob;
  m_file_length : option Z;
  m_local_path : option string;
  m_downloaded_at : option Z;
  m_reaction_to_id : option string;
  m_reaction_emoji : option string
}.

Record DB := {
  chats : list chat_row;
  messages : list msg_row;
  ftsEnabled : bool
}.

Definition with_chats (d : DB) (cs : list chat_row) : DB :=
  {| chats := cs; messages := messages d; ftsEnabled := ftsEnabled d |}.

Definition with_messages (d : DB) (ms : list msg_row) : DB :=
  {| chats := chats d; messages := ms; ftsEnabled := ftsEnabled d |}.

(** ** [UpsertChat] (store.go) *)

Definition chat_excluded (jid kind name : string) (lastTS : time) : chat_row :=
  let kind := if String.eqb (TrimSpace kind) "" then "unknown" else kind in
  {| c_jid := jid; c_kind := kind; c_name := Some name;
     c_last_message_ts := Some (unix lastTS) |}.

(** the [ON CONFLICT(jid) DO UPDATE SET ...] clause *)
Definition chat_merge (old ex : chat_row) : chat_row :=
  {| c_jid := c_jid old;
     c_kind := c_kind ex;
     c_name :=
       match c_name ex with
       | Some n => if negb (String.eqb n "") then Some n else c_name old
       | None => c_name old
       end;
     c_last_message_ts :=
       match c_last_message_ts ex with
       | Some t =>
           if t >? match c_last_message_ts old with Some o => o | None => 0 end
           then Some t else c_last_message_ts old
       | None => c_last_message_ts old
       end |}.

Definition UpsertChat (d : DB) (jid kind name : string) (lastTS : time) : DB :=
  let ex := chat_excluded jid kind name lastTS in
  if existsb (fun c => String.eqb (c_jid c) jid) (chats d)
  then with_chats d (map (fun c => if String.eqb (c_jid c) jid
                                   then chat_merge c ex else c) (chats d))
  else with_chats d (chats d ++ [ex]).

Definition get_chat (d : DB) (jid : string) : option chat_row :=
  find (fun c => String.eqb (c_jid c) jid) (chats d).

(** ** [UpsertMessage] (internal/store/messages.go) *)

Record UpsertMessageParams := {
  ChatJID : string;
  ChatName : string;
  MsgID : string;
  SenderJID : string;
  SenderName : string;
  Timestamp : time;
  FromMe : bool;
  Text : string;
  DisplayText : string;
  MediaType : string;
  MediaCaption : string;
  Filename : string;
  MimeType : string;
  DirectPath : string;
  MediaKey : blob;
  FileSHA256 : blob;
  FileEncSHA256 : blob;
  FileLength : Z;   (* uint64 *)
  ReactionToID : string;
  ReactionEmoji : string
}.

(** the bound row ([excluded] in the upsert clause) *)
Definition msg_excluded (p : UpsertMessageParams) : msg_row :=
  {| m_chat_jid := ChatJID p;
     m_chat_name := nullIfEmpty (ChatName p);
     m_msg_id := MsgID p;
     m_sender_jid := nullIfEmpty (SenderJID p);
     m_sender_name := nullIfEmpty (SenderName p);
     m_ts := unix (Timestamp p);
     m_from_me := boolToInt (FromMe p);
     m_text := nullIfEmpty (Text p);
     m_display_text := nullIfEmpty (DisplayText p);
     m_media_type := nullIfEmpty (MediaType p);
     m_media_caption := nullIfEmpty (MediaCaption p);
     m_filename := nullIfEmpty (Filename p);
     m_mime_type := nullIfEmpty (MimeType p);
     m_direct_path := nullIfEmpty (DirectPath p);
     m_media_key := MediaKey p;
     m_file_sha256 := FileSHA256 p;
     m_file_enc_sha256 := FileEncSHA256 p;
     m_file_length := Some (int64_of_uint64 (FileLength p));
     m_local_path := None;
     m_downloaded_at := None;
     m_reaction_to_id := nullIfEmpty (ReactionToID p);
     m_reaction_emoji := nullIfEmpty (ReactionEmoji p) |}.

(** [CASE WHEN x IS NOT NULL AND x != '' THEN x ELSE old END] *)
Definition case_nonempty (x old : option string) : option string :=
  match x with
  | Some v => if negb (String.eqb v "") then x else old
  | None => old
  end.

(** [CASE WHEN x>0 THEN x ELSE old END] *)
Definition case_positive (x old : option Z) : option Z :=
  match x with
  | Some v => if v >? 0 then x else old
  | None => old
  end.

(** the [ON CONFLICT(chat_jid, msg_id) DO UPDATE SET ...] clause *)
Definition msg_merge (old ex : msg_row) : msg_row :=
  {| m_chat_jid := m_chat_jid old;
     m_chat_name := COALESCE (NULLIF_empty (m_chat_name ex)) (m_chat_name old);
     m_msg_id := m_msg_id old;
     m_sender_jid := m_sender_jid ex;
     m_sender_name := COALESCE (NULLIF_empty (m_sender_name ex)) (m_sender_name old);
     m_ts := m_ts ex;
     m_from_me := m_from_me ex;
     m_text := m_text ex;
     m_display_text := case_nonempty (m_display_text ex) (m_display_text old);
     m_media_type := m_media_type ex;
     m_media_caption := m_media_caption ex;
     m_filename := COALESCE (NULLIF_empty (m_filename ex)) (m_filename old);
     m_mime_type := COALESCE (NULLIF_empty (m_mime_type ex)) (m_mime_type old);
     m_direct_path := COALESCE (NULLIF_empty (m_direct_path ex)) (m_direct_path old);
     m_media_key := keep_blob (m_media_key ex) (m_media_key old);
     m_file_sha256 := keep_blob (m_file_sha256 ex) (m_file_sha256 old);
     m_file_enc_sha256 := keep_blob (m_file_enc_sha256 ex) (m_file_enc_sha256 old);
     m_file_length := case_positive (m_file_length ex) (m_file_length old);
     m_local_path := m_local_path old;
     m_downloaded_at := m_downloaded_at old;
     m_reaction_to_id := COALESCE (NULLIF_empty (m_reaction_to_id ex)) (m_reaction_to_id old);
     m_reaction_emoji := COALESCE (NULLIF_empty (m_reaction_emoji ex)) (m_reaction_emoji old) |}.

Definition row_key_is (chat id : string) (r : msg_row) : bool :=
  String.eqb (m_chat_jid r) chat && String.eqb (m_msg_id r) id.

Definition chat_exists (d : DB) (jid : string) : bool :=
  existsb (fun c => String.eqb (c_jid c) jid) (chats d).

(** The statement runs with [_foreign_keys=on]: [messages.chat_jid]
    references [chats(jid)]. The [UNIQUE(chat_jid, msg_id)] conflict turns
    the insert into an update of the existing row. *)
Definition upsert_rows (ms : list msg_row) (p : UpsertMessageParams) : list msg_row :=
  let ex := msg_excluded p in
  let k := row_key_is (ChatJID p) (MsgID p) in
  if existsb k ms
  then map (fun r => if k r then msg_merge r ex else r) ms
  else (ms ++ [ex])%list.

Definition UpsertMessage (d : DB) (p : UpsertMessageParams) : res DB :=
  if negb (chat_exists d (ChatJID p)) then Err "FOREIGN KEY constraint failed"
  else Ok (with_messages d (upsert_rows (messages d) p)).

(** [GetMessage]'s row lookup ([WHERE m.chat_jid = ? AND m.msg_id = ?]) *)
Definition get_row (d : DB) (chat id : string) : option msg_row :=
  find (row_key_is chat id) (messages d).

Definition count_key (d : DB) (chat id : string) : nat :=
  List.length (filter (row_key_is chat id) (messages d)).

Definition msg_key (r : msg_row) : string * string := (m_chat_jid r, m_msg_id r).

(** the table invariant [UNIQUE(chat_jid, msg_id)] *)
Definition keys_unique (d : DB) : Prop := NoDup (map msg_key (messages d)).

(** The string parameters whose column keeps its stored value when the
    incoming one is empty ([COALESCE(NULLIF(excluded.x,''), x)] or
    [CASE WHEN excluded.x IS NOT NULL AND excluded.x != '' ...]). *)
Definition keep_string_fields
  : list ((UpsertMessageParams -> string) * (msg_row -> option string)) :=
  [(ChatName, m_chat_name); (SenderName, m_sender_name);
   (DisplayText, m_display_text); (Filename, m_filename);
   (MimeType, m_mime_type); (DirectPath, m_direct_path);
   (ReactionToID, m_reaction_to_id); (ReactionEmoji, m_reaction_emoji)].

(** The string parameters whose column is overwritten ([x=excluded.x]). *)
Definition overwrite_string_fields
  : list ((UpsertMessageParams -> string) * (msg_row -> option string)) :=
  [(SenderJID, m_sender_jid); (Text, m_text);
   (MediaType, m_media_type); (MediaCaption, m_media_caption)].

(** The byte parameters (kept unless the incoming blob is non-empty). *)
Definition keep_blob_fields : list ((UpsertMessageParams -> blob) * (msg_row -> blob)) :=
  [(MediaKey, m_media_key); (FileSHA256, m_file_sha256);
   (FileEncSHA256, m_file_enc_sha256)].

(** The parameters [UpsertMessage] passes through [nullIfEmpty]. *)
Definition nullable_string_params : list (UpsertMessageParams -> string) :=
  map fst (keep_string_fields ++ overwrite_string_fields).

Definition blank (s : string) : string := if all_space s then "" else s.

(** the parameters with every empty-or-blank [nullIfEmpty] string
    replaced by [""] *)
Definition blank_params (p : UpsertMessageParams) : UpsertMessageParams :=
  {| ChatJID := ChatJID p; ChatName := blank (ChatName p); MsgID := MsgID p;
     SenderJID := blank (SenderJID p); SenderName := blank (SenderName p);
     Timestamp := Timestamp p; FromMe := FromMe p; Text := blank (Text p);
     DisplayText := blank (DisplayText p); MediaType := blank (MediaType p);
     MediaCaption := blank (MediaCaption p); Filename := blank (Filename p);
     MimeType := blank (MimeType p); DirectPath := blank (DirectPath p);
     MediaKey := MediaKey p; FileSHA256 := FileSHA256 p;
     FileEncSHA256 := FileEncSHA256 p; FileLength := FileLength p;
     ReactionToID := blank (ReactionToID p); ReactionEmoji := blank (ReactionEmoji p) |}.

(** ** SQL [SELECT ... WHERE pred ORDER BY key LIMIT n].

    SQLite leaves the order of rows with equal sort keys unspecified, so a
    query result is any permutation of the selected rows that is sorted by
    the key, cut at the limit (a negative [LIMIT] means no limit). *)

Definition sql_limit {A} (n : Z) (l : list A) : list A :=
  if n <? 0 then l else firstn (Z.to_nat n) l.

Definition asc_by (key : msg_row -> Z) : list msg_row -> Prop :=
  Sorted (fun a b => key a <= key b).

Definition desc_by (key : msg_row -> Z) : list msg_row -> Prop :=
  Sorted (fun a b => key b <= key a).

Definition select_ordered (rows : list msg_row) (pred : msg_row -> bool)
    (ordered : list msg_row -> Prop) (limit : Z) (out : list msg_row) : Prop :=
  exists l, Permutation l (filter pred rows) /\ ordered l /\ out = sql_limit limit l.

(** An executable instance: a stable insertion sort. *)
Fixpoint insert_by (le : msg_row -> msg_row -> bool) (x : msg_row)
    (l : list msg_row) : list msg_row :=
  match l with
  | [] => [x]
  | y :: l' => if le x y then x :: l else y :: insert_by le x l'
  end.

Fixpoint sort_by (le : msg_row -> msg_row -> bool) (l : list msg_row) : list msg_row :=
  match l with
  | [] => []
  | x :: l' => insert_by le x (sort_by le l')
  end.

Definition run_select_asc (rows : list msg_row) (pred : msg_row -> bool)
    (key : msg_row -> Z) (limit : Z) : list msg_row :=
  sql_limit limit (sort_by (fun a b => key a <=? key b) (filter pred rows)).

Definition run_select_desc (rows : list msg_row) (pred : msg_row -> bool)
    (key : msg_row -> Z) (limit : Z) : list msg_row :=
  sql_limit limit (sort_by (fun a b => key b <=? key a) (filter pred rows)).

(** ** The [Message] struct returned by the store's queries. *)

Module Msg.
Record Message := {
  ChatJID : string;
  ChatName : string;
  MsgID : string;
  SenderJID : string;
  Timestamp : time;
  FromMe : bool;
  Text : string;
  DisplayText : string;
  MediaType : string;
  Snippet : string
}.
End Msg.

Definition opt_or_empty (o : option string) : string :=
  match o with Some s => s | None => "" end.

(** one scanned row of [SELECT m.chat_jid, COALESCE(c.name,''), ...
    FROM messages m LEFT JOIN chats c ON c.jid = m.chat_jid] *)
Definition to_message (d : DB) (snippet : string) (r : msg_row) : Msg.Message :=
  {| Msg.ChatJID := m_chat_jid r;
     Msg.ChatName := match get_chat d (m_chat_jid r) with
                     | Some c => opt_or_empty (c_name c)
                     | None => ""
                     end;
     Msg.MsgID := m_msg_id r;
     Msg.SenderJID := opt_or_empty (m_sender_jid r);
     Msg.Timestamp := fromUnix (m_ts r);
     Msg.FromMe := negb (m_from_me r =? 0);
     Msg.Text := opt_or_empty (m_text r);
     Msg.DisplayText := opt_or_empty (m_display_text r);
     Msg.MediaType := opt_or_empty (m_media_type r);
     Msg.Snippet := snippet |}.

Definition ErrNoRows : string := "sql: no rows in result set".

(** [GetMessage] *)
Definition GetMessage (d : DB) (chatJID msgID : string) : res Msg.Message :=
  match get_row d chatJID msgID with
  | Some r => Ok (to_message d "" r)
  | None => Err ErrNoRows
  end.

(** [MessageContext] (internal/store/messages.go): the target, the rows of
    the chat with [ts < unix(target.Timestamp)] newest first cut at
    [before] and reversed, and the rows with [ts > unix(target.Timestamp)]
    oldest first cut at [after]. *)
Definition ctx_before_pred (chat : string) (t : Z) (x : msg_row) : bool :=
  String.eqb (m_chat_jid x) chat && (m_ts x <? t).

Definition ctx_after_pred (chat : string) (t : Z) (x : msg_row) : bool :=
  String.eqb (m_chat_jid x) chat && (t <? m_ts x).

Inductive MessageContext (d : DB) (chat id : string) (before after : Z)
  : res (list Msg.Message) -> Prop :=
| MessageContext_missing :
    get_row d chat id = None ->
    MessageContext d chat id before after (Err ErrNoRows)
| MessageContext_found : forall r B A,
    get_row d chat id = Some r ->
    select_ordered (messages d) (ctx_before_pred chat (unix (fromUnix (m_ts r))))
      (desc_by m_ts) (Z.max 0 before) B ->
    select_ordered (messages d) (ctx_after_pred chat (unix (fromUnix (m_ts r))))
      (asc_by m_ts) (Z.max 0 after) A ->
    MessageContext d chat id before after
      (Ok (map (to_message d "") (rev B) ++ [to_message d "" r]
           ++ map (to_message d "") A)%list).

(** the same, with the rows ordered by the stable insertion sort *)
Definition run_MessageContext (d : DB) (chat id : string) (before after : Z)
  : res (list Msg.Message) :=
  match get_row d chat id with
  | None => Err ErrNoRows
  | Some r =>
      let t := unix (fromUnix (m_ts r)) in
      let B := run_select_desc (messages d) (ctx_before_pred chat t) m_ts (Z.max 0 before) in
      let A := run_select_asc (messages d) (ctx_after_pred chat t) m_ts (Z.max 0 after) in
      Ok (map (to_message d "") (rev B) ++ [to_message d "" r] ++ map (to_message d "") A)%list
  end.

(** ** [SearchMessages] (store.go) *)

Module SP.
Record SearchMessagesParams := {
  Query : string;
  ChatJID : string;
  From : string;
  Limit : Z;
  Before : option time;
  After : option time;
  Type_ : string   (* [Type] *)
}.
End SP.

(** SQLite's [LIKE] (func.c), built without ICU and with
    [case_sensitive_like] off. [LOWER] folds the ASCII letters of its
    argument byte by byte ([ascii_lower]). [patternCompare] reads pattern
    and text as characters ([sqlite3Utf8Read]) and stops at a NUL byte: a
    byte below 0xC0 is a character of its own; a byte from 0xC0 starts a
    character that takes in every continuation byte after it, from the
    value [sqlite3Utf8Trans1] gives the lead byte, in 32-bit arithmetic; a
    multi-byte value below 0x80, a surrogate or 0xFFFE/0xFFFF is read as
    U+FFFD. *)
Definition utf8_trans1 (b : Z) : Z :=
  if b <? 224 then b - 192
  else if b <? 240 then b - 224
  else if b <? 248 then b - 240
  else if b <? 252 then b - 248
  else if b <? 254 then b - 252
  else 0.

Definition utf8_read_end (c : Z) : Z :=
  if (c <? 128) || (Z.land c 4294965248 =? 55296) || (Z.land c 4294967294 =? 65534)
  then 65533 else c.

(** [acc] is the character being read, if a lead byte has been seen *)
Fixpoint sqlite_read (acc : option Z) (s : string) : list Z :=
  match s with
  | EmptyString =>
      match acc with Some c => [utf8_read_end c] | None => [] end
  | String b s' =>
      let v := byte_val b in
      match acc with
      | Some c =>
          if in_range 128 191 v
          then sqlite_read (Some ((c * 64 + v mod 64) mod 4294967296)) s'
          else utf8_read_end c ::
               (if v =? 0 then []
                else if v <? 192 then v :: sqlite_read None s'
                else sqlite_read (Some (utf8_trans1 v)) s')
      | None =>
          if v =? 0 then []
          else if v <? 192 then v :: sqlite_read None s'
          else sqlite_read (Some (utf8_trans1 v)) s'
      end
  end.

Definition sqlite_chars (s : string) : list Z := sqlite_read None s.

(** [sqlite3Tolower] on a character below 0x80 *)
Definition lower_char (c : Z) : Z := if in_range 65 90 c then c + 32 else c.

(** a pattern character against a text character: equal, or equal up to
    ASCII case when both are below 0x80 *)
Definition char_match (c d : Z) : bool :=
  (c =? d) || ((c <? 128) && (d <? 128) && (lower_char c =? lower_char d)).

Fixpoint suffixes (s : list Z) : list (list Z) :=
  match s with
  | [] => [[]]
  | _ :: s' => s :: suffixes s'
  end.

(** [patternCompare] with no [ESCAPE]: [%] (37) matches any sequence of
    characters (searching the text for the next pattern character, as the
    code does, tries the same suffixes), [_] (95) any one character, and
    the pattern must cover the whole text. *)
Fixpoint like_chars (p s : list Z) : bool :=
  match p with
  | [] => match s with [] => true | _ => false end
  | c :: p' =>
      if c =? 37 then existsb (like_chars p') (suffixes s)
      else match s with
           | [] => false
           | d :: s' => ((c =? 95) || char_match c d) && like_chars p' s'
           end
  end.

(** [LOWER(x) LIKE LOWER(?)] on a pattern within the length limit; a NULL
    column never matches. *)
Definition like_col (needle : string) (x : option string) : bool :=
  match x with
  | Some v => like_chars (sqlite_chars (ascii_lower needle)) (sqlite_chars (ascii_lower v))
  | None => false
  end.

(** [SQLITE_MAX_LIKE_PATTERN_LENGTH]: [like] refuses a longer pattern with
    the error [like_too_complex] *)
Definition like_pattern_limit : Z := 50000.
Definition like_too_complex : string := "LIKE or GLOB pattern too complex".

(** the [WHERE] clause of [searchLIKE] *)
Definition like_hit (d : DB) (q : string) (r : msg_row) : bool :=
  let needle := "%" ++ q ++ "%" in
  like_col needle (m_text r)
  || like_col needle (m_media_caption r)
  || like_col needle (m_filename r)
  || like_col needle (Some (opt_or_empty (m_chat_name r)))
  || like_col needle (Some (opt_or_empty (m_sender_name r)))
  || like_col needle (Some (match get_chat d (m_chat_jid r) with
                            | Some c => opt_or_empty (c_name c)
                            | None => ""
                            end)).

(** [applyMessageFilters] *)
Definition message_filters (p : SP.SearchMessagesParams) (r : msg_row) : bool :=
  (if String.eqb (TrimSpace (SP.ChatJID p)) "" then true
   else String.eqb (m_chat_jid r) (SP.ChatJID p))
  && (if String.eqb (TrimSpace (SP.From p)) "" then true
      else match m_sender_jid r with
           | Some s => String.eqb s (SP.From p)
           | None => false
           end)
  && (match SP.After p with Some a => unix a <? m_ts r | None => true end)
  && (match SP.Before p with Some b => m_ts r <? unix b | None => true end)
  && (if String.eqb (TrimSpace (SP.Type_ p)) "" then true
      else String.eqb (opt_or_empty (m_media_type r)) (SP.Type_ p)).

(** one scanned row of the search queries: [scanMessages] (store.go) reads
    their nine columns into [ChatJID], [ChatName], [MsgID], [SenderJID],
    the time, the from-me flag, [Text], [MediaType] and [Snippet];
    [DisplayText] stays empty *)
Definition to_search_message (d : DB) (snippet : string) (r : msg_row) : Msg.Message :=
  {| Msg.ChatJID := m_chat_jid r;
     Msg.ChatName := match get_chat d (m_chat_jid r) with
                     | Some c => opt_or_empty (c_name c)
                     | None => ""
                     end;
     Msg.MsgID := m_msg_id r;
     Msg.SenderJID := opt_or_empty (m_sender_jid r);
     Msg.Timestamp := fromUnix (m_ts r);
     Msg.FromMe := negb (m_from_me r =? 0);
     Msg.Text := opt_or_empty (m_text r);
     Msg.DisplayText := "";
     Msg.MediaType := opt_or_empty (m_media_type r);
     Msg.Snippet := snippet |}.

Section Search.

(** The full-text engine: the error [messages_fts MATCH ?] raises on a
    query it cannot parse (an FTS5 syntax error), the [MATCH] itself, its
    [bm25] rank (lower is a better match) and its [snippet]. *)
Variable fts_error : string -> option string.
Variable fts_match : string -> msg_row -> bool.
Variable bm25 : string -> msg_row -> Z.
Variable snippet : string -> msg_row -> string.

(** [searchLIKE]: [ORDER BY m.ts DESC LIMIT ?]. A pattern [needle] longer
    than [like_pattern_limit] bytes makes the first [LIKE] the engine
    evaluates fail, and the query with it; the query returns no row when
    no row reaches a [LIKE]. *)
Definition searchLIKE (d : DB) (p : SP.SearchMessagesParams) (out : res (list Msg.Message))
    : Prop :=
  if like_pattern_limit <? Z.of_nat (String.length (SP.Query p)) + 2
  then out = Err like_too_complex \/ out = Ok []
  else exists rows,
    select_ordered (messages d) (fun r => like_hit d (SP.Query p) r && message_filters p r)
      (desc_by m_ts) (SP.Limit p) rows
    /\ out = Ok (map (to_search_message d "") rows).

(** [searchFTS]: [ORDER BY bm25(messages_fts) LIMIT ?] *)
Definition searchFTS (d : DB) (p : SP.SearchMessagesParams) (out : res (list Msg.Message))
    : Prop :=
  match fts_error (SP.Query p) with
  | Some e => out = Err e
  | None =>
      exists rows,
        select_ordered (messages d) (fun r => fts_match (SP.Query p) r && message_filters p r)
          (asc_by (bm25 (SP.Query p))) (SP.Limit p) rows
        /\ out = Ok (map (fun r => to_search_message d (snippet (SP.Query p) r) r) rows)
  end.

Definition with_limit (p : SP.SearchMessagesParams) (n : Z) : SP.SearchMessagesParams :=
  {| SP.Query := SP.Query p; SP.ChatJID := SP.ChatJID p; SP.From := SP.From p; SP.Limit := n;
     SP.Before := SP.Before p; SP.After := SP.After p; SP.Type_ := SP.Type_ p |}.

Definition SearchMessages (d : DB) (p : SP.SearchMessagesParams)
    (out : res (list Msg.Message)) : Prop :=
  if String.eqb (TrimSpace (SP.Query p)) "" then out = Err "query is required"
  else
    let p := if SP.Limit p <=? 0 then with_limit p 50 else p in
    if ftsEnabled d then searchFTS d p out else searchLIKE d p out.

End Search.

(** [HasFTS] *)
Definition HasFTS (d : DB) : bool := ftsEnabled d.

(** ** The canonicalised message (internal/wa/messages.go) *)

Module wa.
Record Media := {
  Type_ : string;   (* [Type] *)
  Caption : string;
  Filename : string;
  MimeType : string;
  DirectPath : string;
  MediaKey : blob;
  FileSHA256 : blob;
  FileEncSHA256 : blob;
  FileLength : Z
}.

(** [Chat] is the chat JID in its string form ([pm.Chat.String()]). *)
Record ParsedMessage := {
  Chat : string;
  ID : string;
  SenderJID : string;
  Timestamp : time;
  FromMe : bool;
  Text : string;
  Media_ : option Media;   (* [Media *Media] *)
  PushName : string;
  ReplyToID : string;
  ReplyToDisplay : string;
  ReactionToID : string;
  ReactionEmoji : string
}.
End wa.

(** ** Display text (app/sync.go) *)

(** [mediaLabel] *)
Definition mediaLabel (mediaType : string) : string :=
  let mt := ToLower (TrimSpace mediaType) in
  if String.eqb mt "gif" then "gif"
  else if String.eqb mt "image" then "image"
  else if String.eqb mt "video" then "video"
  else if String.eqb mt "audio" then "audio"
  else if String.eqb mt "sticker" then "sticker"
  else if String.eqb mt "document" then "document"
  else if String.eqb mt "location" then "location"
  else if String.eqb mt "contact" then "contact"
  else if String.eqb mt "contacts" then "contacts"
  else if String.eqb mt "" then "message"
  else mt.

(** [baseDisplayText] *)
Definition baseDisplayText (pm : wa.ParsedMessage) : string :=
  match wa.Media_ pm with
  | Some m => "Sent " ++ mediaLabel (wa.Type_ m)
  | None =>
      let text := TrimSpace (wa.Text pm) in
      if negb (String.eqb text "") then text else ""
  end.

(** [lookupMessageDisplayText] *)
Definition lookupMessageDisplayText (d : DB) (chatJID msgID : string) : string :=
  if String.eqb (TrimSpace chatJID) "" || String.eqb (TrimSpace msgID) "" then ""
  else
    match GetMessage d chatJID msgID with
    | Err _ => ""
    | Ok msg =>
        let t1 := TrimSpace (Msg.DisplayText msg) in
        if negb (String.eqb t1 "") then t1
        else
          let t2 := TrimSpace (Msg.Text msg) in
          if negb (String.eqb t2 "") then t2
          else if negb (String.eqb (TrimSpace (Msg.MediaType msg)) "")
               then "Sent " ++ mediaLabel (Msg.MediaType msg)
               else ""
    end.

(** [buildDisplayText] *)
Definition buildDisplayText (d : DB) (pm : wa.ParsedMessage) : string :=
  let base := baseDisplayText pm in
  if negb (String.eqb (wa.ReactionToID pm) "")
     || negb (String.eqb (TrimSpace (wa.ReactionEmoji pm)) "") then
    let target := TrimSpace (wa.ReactionToID pm) in
    let display := if negb (String.eqb target "")
                   then lookupMessageDisplayText d (wa.Chat pm) target else "" in
    let display := if String.eqb display "" then "message" else display in
    let emoji := TrimSpace (wa.ReactionEmoji pm) in
    if negb (String.eqb emoji "") then "Reacted " ++ emoji ++ " to " ++ display
    else "Reacted to " ++ display
  else if negb (String.eqb (wa.ReplyToID pm) "") then
    let quoted := TrimSpace (wa.ReplyToDisplay pm) in
    let quoted := if String.eqb quoted ""
                  then lookupMessageDisplayText d (wa.Chat pm) (wa.ReplyToID pm)
                  else quoted in
    let quoted := if String.eqb quoted "" then "message" else quoted in
    let base := if String.eqb base "" then "(message)" else base in
    "> " ++ quoted ++ String "010"%char "" ++ base
  else if String.eqb base "" then "(message)" else base.

(** [storeParsedMessage]: [chatName] is the session's
    [ResolveChatName], [kind] is [chatKind(pm.Chat)] and [senderName] the
    sender name it derives from the push name and the contact store. *)
Definition storeParsedMessage (d : DB) (pm : wa.ParsedMessage)
    (chatName kind senderName : string) : res DB :=
  let d := UpsertChat d (wa.Chat pm) kind chatName (wa.Timestamp pm) in
  let m := wa.Media_ pm in
  let mstr (f : wa.Media -> string) := match m with Some x => f x | None => "" end in
  let mblob (f : wa.Media -> blob) := match m with Some x => f x | None => None end in
  UpsertMessage d
    {| ChatJID := wa.Chat pm;
       ChatName := chatName;
       MsgID := wa.ID pm;
       SenderJID := wa.SenderJID pm;
       SenderName := senderName;
       Timestamp := wa.Timestamp pm;
       FromMe := wa.FromMe pm;
       Text := wa.Text pm;
       DisplayText := buildDisplayText d pm;
       MediaType := mstr wa.Type_;
       MediaCaption := mstr wa.Caption;
       Filename := mstr wa.Filename;
       MimeType := mstr wa.MimeType;
       DirectPath := mstr wa.DirectPath;
       MediaKey := mblob wa.MediaKey;
       FileSHA256 := mblob wa.FileSHA256;
       FileEncSHA256 := mblob wa.FileEncSHA256;
       FileLength := match m with Some x => wa.FileLength x | None => 0 end;
       ReactionToID := "";
       ReactionEmoji := "" |}.

(** ** Schema migrations (internal/store/migrations.go)

    The schema is a list of tables with their columns, the
    [schema_migrations] ledger and the [ftsEnabled] flag. [fails] tells
    which statements the SQLite engine rejects (I/O errors, a full disk, a
    locked database, ...); a statement outside a transaction commits on its
    own. A text holding several statements is run by the driver
    (go-sqlite3) one statement after the other, each committing on its own,
    up to the first that fails. Queries ([SELECT], [PRAGMA]) are statements
    too: they change nothing but can fail. *)

Record Schema := {
  tables : list (string * list string);
  ledger : list (Z * string);
  fts_on : bool
}.

Inductive stmt :=
| CreateLedgerTable
| SelectApplied                     (* [SELECT version FROM schema_migrations] *)
| IterateApplied                    (* reading its rows: [rows.Err()] *)
| CreateTable (table : string) (cols : list string)
| CreateIndex (name : string)
| TableInfo (table : string)        (* [PRAGMA table_info(table)] *)
| LookupTable (table : string)      (* [SELECT 1 FROM sqlite_master WHERE name = ?] *)
| AddColumn (table col : string)
| DropFTS
| CreateFTS
| CreateTriggers
| BackfillFTS
| InsertLedger (version : Z) (name : string).

Definition messages_fts_cols : list string :=
  ["text"; "media_caption"; "filename"; "chat_name"; "sender_name"; "display_text"].

Definition core_tables : list (string * list string) :=
  [("chats", ["jid"; "kind"; "name"; "last_message_ts"]);
   ("contacts", ["jid"; "phone"; "push_name"; "full_name"; "first_name";
                 "business_name"; "updated_at"]);
   ("groups", ["jid"; "name"; "owner_jid"; "created_ts"; "updated_at"]);
   ("group_participants", ["group_jid"; "user_jid"; "role"; "updated_at"]);
   ("contact_aliases", ["jid"; "alias"; "notes"; "updated_at"]);
   ("contact_tags", ["jid"; "tag"; "updated_at"]);
   ("messages", ["rowid"; "chat_jid"; "chat_name"; "msg_id"; "sender_jid";
                 "sender_name"; "ts"; "from_me"; "text"; "display_text";
                 "media_type"; "media_caption"; "filename"; "mime_type";
                 "direct_path"; "media_key"; "file_sha256"; "file_enc_sha256";
                 "file_length"; "local_path"; "downloaded_at"])].

Definition table_cols (s : Schema) (t : string) : option (list string) :=
  match find (fun e => String.eqb (fst e) t) (tables s) with
  | Some (_, cols) => Some cols
  | None => None
  end.

Definition with_tables (s : Schema) (ts : list (string * list string)) : Schema :=
  {| tables := ts; ledger := ledger s; fts_on := fts_on s |}.

Definition with_fts (s : Schema) (b : bool) : Schema :=
  {| tables := tables s; ledger := ledger s; fts_on := b |}.

(** [CREATE TABLE IF NOT EXISTS] *)
Definition create_if_absent (s : Schema) (t : string) (cols : list string) : Schema :=
  match table_cols s t with
  | Some _ => s
  | None => with_tables s ((tables s ++ [(t, cols)])%list)
  end.

Definition apply_stmt (s : Schema) (st : stmt) : res Schema :=
  match st with
  | CreateLedgerTable =>
      Ok (create_if_absent s "schema_migrations" ["version"; "name"; "applied_at"])
  | SelectApplied | IterateApplied | TableInfo _ | LookupTable _ | CreateIndex _ => Ok s
  | CreateTable t cols => Ok (create_if_absent s t cols)
  | AddColumn t c =>
      match table_cols s t with
      | None => Err ("no such table: " ++ t)
      | Some cols =>
          if existsb (String.eqb c) cols then Err ("duplicate column name: " ++ c)
          else Ok (with_tables s (map (fun e => if String.eqb (fst e) t
                                               then (fst e, (snd e ++ [c])%list) else e)
                                      (tables s)))
      end
  | DropFTS =>
      Ok (with_tables s (filter (fun e => negb (String.eqb (fst e) "messages_fts")) (tables s)))
  | CreateFTS => Ok (create_if_absent s "messages_fts" messages_fts_cols)
  | CreateTriggers => Ok s
  | BackfillFTS => Ok s
  | InsertLedger v n =>
      if existsb (fun e => Z.eqb (fst e) v) (ledger s)
      then Err "UNIQUE constraint failed: schema_migrations.version"
      else Ok {| tables := tables s; ledger := (ledger s ++ [(v, n)])%list; fts_on := fts_on s |}
  end.

(** decimal digits of a non-negative integer (20 digits cover [int]) *)
Fixpoint decimal_digits (fuel : nat) (n : Z) (acc : string) : string :=
  match fuel with
  | O => acc
  | S f =>
      let acc := String (ascii_of_nat (48 + Z.to_nat (n mod 10))) acc in
      if n <? 10 then acc else decimal_digits f (n / 10) acc
  end.

Fixpoint zeros (n : nat) : string :=
  match n with O => "" | S n => String "0" (zeros n) end.

(** [fmt]'s [%03d]: at least three characters, the sign included, padded
    with zeros after the sign *)
Definition fmt03d (n : Z) : string :=
  if n <? 0 then
    let d := decimal_digits 20 (- n) "" in "-" ++ zeros (2 - String.length d) ++ d
  else
    let d := decimal_digits 20 n "" in zeros (3 - String.length d) ++ d.

Section Migrations.

Variable fails : stmt -> bool.

(** [d.sql.Exec] *)
Definition Exec (s : Schema) (st : stmt) : res Schema :=
  if fails st then Err "database error" else apply_stmt s st.

(** [tableHasColumn] ([strings.EqualFold] on the PRAGMA's names, folded
    here as ASCII: the code's table and column names are ASCII) *)
Definition tableHasColumn (s : Schema) (t c : string) : bool :=
  match table_cols s t with
  | Some cols => existsb (fun n => String.eqb (ascii_lower n) (ascii_lower c)) cols
  | None => false
  end.

(** [tableExists] *)
Definition tableExists (s : Schema) (t : string) : bool :=
  match table_cols s t with Some _ => true | None => false end.

(** [d.tableHasColumn]: its [PRAGMA] query, the scan of its rows or their
    iteration can fail, and the error is returned as is *)
Definition tableHasColumnQ (s : Schema) (t c : string) : res bool :=
  if fails (TableInfo t) then Err "database error" else Ok (tableHasColumn s t c).

(** [d.tableExists]: [sql.ErrNoRows] is [false]; another error is returned *)
Definition tableExistsQ (s : Schema) (t : string) : res bool :=
  if fails (LookupTable t) then Err "database error" else Ok (tableExists s t).

(** [d.sql.Exec] on a text of several statements *)
Fixpoint Exec_script (s : Schema) (sts : list stmt) : Schema * option string :=
  match sts with
  | [] => (s, None)
  | st :: sts' =>
      match Exec s st with
      | Ok s' => Exec_script s' sts'
      | Err e => (s, Some e)
      end
  end.

(** the statements of [migrateCoreSchema]'s text, in order *)
Definition core_script : list stmt :=
  (map (fun e => CreateTable (fst e) (snd e)) core_tables
   ++ [CreateIndex "idx_messages_chat_ts"; CreateIndex "idx_messages_ts"])%list.

(** A migration step: [up(d) error], with its effect on the store. *)
Record migration := {
  version : Z;
  mname : string;
  up : Schema -> Schema * option string
}.

Definition migrateCoreSchema (s : Schema) : Schema * option string :=
  match Exec_script s core_script with
  | (s', None) => (s', None)
  | (s', Some e) => (s', Some ("create tables: " ++ e))
  end.

Definition migrateMessagesDisplayText (s : Schema) : Schema * option string :=
  match tableHasColumnQ s "messages" "display_text" with
  | Err e => (s, Some e)
  | Ok true => (s, None)
  | Ok false =>
      match Exec s (AddColumn "messages" "display_text") with
      | Ok s' => (s', None)
      | Err e => (s, Some ("add display_text column: " ++ e))
      end
  end.

Definition migrateMessagesFTS (s : Schema) : Schema * option string :=
  let dropped :=
    match tableExistsQ s "messages_fts" with
    | Err e => Err e
    | Ok true =>
      match tableHasColumnQ s "messages_fts" "display_text" with
      | Err e => Err e
      | Ok true => Ok (s, true)
      | Ok false =>
           match Exec s DropFTS with
           | Ok s' => Ok (s', false)
           | Err e => Err ("drop messages_fts: " ++ e)
           end
      end
    | Ok false => Ok (s, false)
    end in
  match dropped with
  | Err e => (s, Some e)
  | Ok (s, ftsExists) =>
      let created :=
        if ftsExists then Some (s, false)
        else match Exec s CreateFTS with
             | Ok s' => Some (s', true)
             | Err _ => None   (* continue without FTS (fallback to LIKE) *)
             end in
      match created with
      | None => (with_fts s false, None)
      | Some (s, created) =>
          match Exec s CreateTriggers with
          | Err _ => (with_fts s false, None)
          | Ok s =>
              if created then
                match Exec s BackfillFTS with
                | Err _ => (with_fts s false, None)
                | Ok s => (with_fts s true, None)
                end
              else (with_fts s true, None)
          end
      end
  end.

(** [migrateMessagesReaction]: [cols] are the keys of its Go map in the
    order the range loop visits them (unspecified in Go). *)
Fixpoint add_columns (s : Schema) (cols : list string) : Schema * option string :=
  match cols with
  | [] => (s, None)
  | c :: cols' =>
      match tableHasColumnQ s "messages" c with
      | Err e => (s, Some e)
      | Ok true => add_columns s cols'
      | Ok false =>
           match Exec s (AddColumn "messages" c) with
           | Ok s' => add_columns s' cols'
           | Err e => (s, Some ("add " ++ c ++ " column: " ++ e))
           end
      end
  end.

Definition migrateMessagesReaction (cols : list string) (s : Schema)
    : Schema * option string :=
  add_columns s cols.

Definition schemaMigrations (reaction_cols : list string) : list migration :=
  [ {| version := 1; mname := "core schema"; up := migrateCoreSchema |};
    {| version := 2; mname := "messages display_text column";
       up := migrateMessagesDisplayText |};
    {| version := 3; mname := "messages fts"; up := migrateMessagesFTS |};
    {| version := 4; mname := "messages reaction columns";
       up := migrateMessagesReaction reaction_cols |} ].

(** the [for _, m := range schemaMigrations] loop *)
Fixpoint run_migrations (applied : list Z) (ms : list migration) (s : Schema)
    : Schema * option string :=
  match ms with
  | [] => (s, None)
  | m :: ms' =>
      if existsb (Z.eqb (version m)) applied then run_migrations applied ms' s
      else
        let (s1, e) := up m s in
        match e with
        | Some e => (s1, Some ("apply migration " ++ fmt03d (version m) ++ " "
                                ++ mname m ++ ": " ++ e))
        | None =>
            match Exec s1 (InsertLedger (version m) (mname m)) with
            | Err e => (s1, Some ("record migration " ++ fmt03d (version m) ++ ": " ++ e))
            | Ok s2 => run_migrations applied ms' s2
            end
        end
  end.

Definition ensureSchemaWith (ms : list migration) (s : Schema) : Schema * option string :=
  match Exec s CreateLedgerTable with
  | Err e => (s, Some ("create schema_migrations table: " ++ e))
  | Ok s =>
      (* the version column is an INTEGER PRIMARY KEY: scanning it into an
         [int] cannot fail *)
      match Exec s SelectApplied with
      | Err e => (s, Some ("load applied migrations: " ++ e))
      | Ok s =>
          match Exec s IterateApplied with
          | Err e => (s, Some ("iterate applied migrations: " ++ e))
          | Ok s => run_migrations (map fst (ledger s)) ms s
          end
      end
  end.

(** [ensureSchema] *)
Definition ensureSchema (reaction_cols : list string) (s : Schema) : Schema * option string :=
  ensureSchemaWith (schemaMigrations reaction_cols) s.

End Migrations.

Definition pending (applied : list Z) (ms : list migration) : list migration :=
  filter (fun m => negb (existsb (Z.eqb (version m)) applied)) ms.

Definition ledger_entry (m : migration) : Z * string := (version m, mname m).

(** [ms] were run one after the other from [s] to [s'], each one's steps
    succeeding and then its ledger row being inserted *)
Fixpoint migrations_applied (fails : stmt -> bool) (ms : list migration) (s s' : Schema)
    : Prop :=
  match ms with
  | [] => s' = s
  | m :: ms' =>
      exists s1 s2, up m s = (s1, None)
        /\ Exec fails s1 (InsertLedger (version m) (mname m)) = Ok s2
        /\ migrations_applied fails ms' s2 s'
  end.

(** the pending migration [m], reached at [sk], failed: its steps returned an
    error, or the insertion of its ledger row did; [r] is what the loop
    returns *)
Definition migration_failed (fails : stmt -> bool) (m : migration) (sk : Schema)
    (r : Schema * option string) : Prop :=
  (exists s' e, up m sk = (s', Some e)
     /\ r = (s', Some ("apply migration " ++ fmt03d (version m) ++ " " ++ mname m ++ ": " ++ e)))
  \/ (exists s' e, up m sk = (s', None)
     /\ Exec fails s' (InsertLedger (version m) (mname m)) = Err e
     /\ r = (s', Some ("record migration " ++ fmt03d (version m) ++ ": " ++ e))).

(** ** [ReplaceGroupParticipants] (store.go) *)

Record GroupParticipant := {
  GP_GroupJID : string;
  GP_UserJID : string;
  GP_Role : string;
  GP_UpdatedAt : time
}.

(** a row of [group_participants] *)
Record part_row := {
  p_group_jid : string;
  p_user_jid : string;
  p_role : option string;
  p_updated_at : Z
}.

(** the tables the statement touches: [groups] (the foreign key target)
    and [group_participants] *)
Record PartDB := {
  group_jids : list string;
  participants : list part_row
}.

(** the statements of the transaction *)
Inductive tx_step :=
| TxBegin
| TxDelete
| TxPrepare
| TxInsert (user : string)
| TxCommit.

Section Participants.

Variable fails : tx_step -> bool.
Variable now : time.

(** [stmt.Exec] of the insert on the transaction's working copy: the
    [PRIMARY KEY (group_jid, user_jid)] and the foreign key to [groups] are
    checked *)
Definition tx_insert (d : PartDB) (groupJID : string) (p : GroupParticipant)
    : res PartDB :=
  let role := TrimSpace (GP_Role p) in
  let role := if String.eqb role "" then "member" else role in
  if fails (TxInsert (GP_UserJID p)) then Err "database error"
  else if existsb (fun r => String.eqb (p_group_jid r) groupJID
                            && String.eqb (p_user_jid r) (GP_UserJID p)) (participants d)
  then Err "UNIQUE constraint failed: group_participants.group_jid, group_participants.user_jid"
  else if negb (existsb (String.eqb groupJID) (group_jids d))
  then Err "FOREIGN KEY constraint failed"
  else Ok {| group_jids := group_jids d;
             participants := (participants d
                              ++ [{| p_group_jid := groupJID; p_user_jid := GP_UserJID p;
                                     p_role := Some role; p_updated_at := unix now |}])%list |}.

Fixpoint tx_insert_all (d : PartDB) (groupJID : string) (ps : list GroupParticipant)
    : res PartDB :=
  match ps with
  | [] => Ok d
  | p :: ps' =>
      match tx_insert d groupJID p with
      | Ok d' => tx_insert_all d' groupJID ps'
      | Err e => Err e
      end
  end.

(** The transaction works on a copy of the tables; every error path runs
    the deferred [tx.Rollback()], which leaves the committed tables as they
    were; a failed [COMMIT] is rolled back by the driver. *)
Definition ReplaceGroupParticipants (d : PartDB) (groupJID : string)
    (ps : list GroupParticipant) : PartDB * option string :=
  if fails TxBegin then (d, Some "database error") else
  if fails TxDelete then (d, Some "database error") else
  let work := {| group_jids := group_jids d;
                 participants := filter (fun r => negb (String.eqb (p_group_jid r) groupJID))
                                        (participants d) |} in
  if fails TxPrepare then (d, Some "database error") else
  match tx_insert_all work groupJID ps with
  | Err e => (d, Some e)
  | Ok work' => if fails TxCommit then (d, Some "database error") else (work', None)
  end.

End Participants.

Definition participant_row (groupJID : string) (now : time) (p : GroupParticipant) : part_row :=
  let role := TrimSpace (GP_Role p) in
  {| p_group_jid := groupJID; p_user_jid := GP_UserJID p;
     p_role := Some (if String.eqb role "" then "member" else role);
     p_updated_at := unix now |}.

(** ** [BackfillHistory] (internal/app/backfill.go)

    One round of the [AfterConnect] loop sees: the oldest local message
    ([GetOldestMessageInfo]), the outcome of [RequestHistorySyncOnDemand],
    what the [select] receives first (the correlated response, the timer or
    the context's cancellation) and the oldest local message afterwards. *)

Record onDemandResponse := {
  conversations : Z;
  resp_messages : Z;
  complete_no_more : bool   (* [endType == COMPLETE_AND_NO_MORE_MESSAGE_REMAIN_ON_PRIMARY] *)
}.

Inductive wait_outcome :=
| GotResponse (r : onDemandResponse)
| TimedOut
| Cancelled.

Record round_env := {
  oldest : res string;        (* the oldest message's id, or the query error *)
  request_err : option string;
  waited : wait_outcome;
  new_oldest : res string
}.

(** what a round ends with, and the two counters *)
Inductive round_result :=
| NextRound (requestsSent responsesSeen : nat)
| Stopped (requestsSent responsesSeen : nat)
| Failed (requestsSent responsesSeen : nat) (err : string).

Definition backfill_round (chatStr : string) (e : round_env)
    (requestsSent responsesSeen : nat) : round_result :=
  match oldest e with
  | Err err =>
      Failed requestsSent responsesSeen
        (if String.eqb err ErrNoRows
         then "no messages for " ++ chatStr ++ " in local DB; run `wacli sync` first"
         else err)
  | Ok oldestID =>
      let requestsSent := S requestsSent in
      match request_err e with
      | Some err => Failed requestsSent responsesSeen err
      | None =>
          match waited e with
          | Cancelled => Failed requestsSent responsesSeen "context canceled"
          | TimedOut =>
              Failed requestsSent responsesSeen
                "timed out waiting for on-demand history sync response"
          | GotResponse resp =>
              let responsesSeen := S responsesSeen in
              match new_oldest e with
              | Ok id => if String.eqb id oldestID
                         then Stopped requestsSent responsesSeen
                         else if resp_messages resp <=? 0 then Stopped requestsSent responsesSeen
                         else if complete_no_more resp then Stopped requestsSent responsesSeen
                         else NextRound requestsSent responsesSeen
              | Err _ => if resp_messages resp <=? 0 then Stopped requestsSent responsesSeen
                         else if complete_no_more resp then Stopped requestsSent responsesSeen
                         else NextRound requestsSent responsesSeen
              end
          end
      end
  end.

(** [for i := 0; i < opts.Requests; i++ { ... }]; [env i] is round [i]'s
    environment. Returns the counters and the callback's error. *)
Fixpoint backfill_loop (chatStr : string) (env : nat -> round_env) (fuel i : nat)
    (requestsSent responsesSeen : nat) : nat * nat * option string :=
  match fuel with
  | O => (requestsSent, responsesSeen, None)
  | S fuel' =>
      match backfill_round chatStr (env i) requestsSent responsesSeen with
      | NextRound r s => backfill_loop chatStr env fuel' (S i) r s
      | Stopped r s => (r, s, None)
      | Failed r s err => (r, s, Some err)
      end
  end.

Record BackfillResult := {
  BR_ChatJID : string;
  RequestsSent : nat;
  ResponsesSeen : nat
}.

Definition empty_result : BackfillResult :=
  {| BR_ChatJID := ""; RequestsSent := 0; ResponsesSeen := 0 |}.

(** the part of [BackfillHistory] after the session is up: [Requests] is
    [opts.Requests] after its default ([<= 0] becomes 1); an error of the
    [AfterConnect] callback is returned by [Sync] and then with an empty
    [BackfillResult{}]. *)
Definition BackfillHistory (chatStr : string) (requests : Z) (env : nat -> round_env)
    : BackfillResult * option string :=
  let requests := if requests <=? 0 then 1 else requests in
  match backfill_loop chatStr env (Z.to_nat requests) 0 0 0 with
  | (_, _, Some err) => (empty_result, Some err)
  | (r, s, None) =>
      ({| BR_ChatJID := chatStr; RequestsSent := r; ResponsesSeen := s |}, None)
  end.

(** ** Substring matches (the property the degraded search is held to) *)

Fixpoint chars_prefix (q s : list Z) : bool :=
  match q, s with
  | [], _ => true
  | c :: q', d :: s' => (c =? d) && chars_prefix q' s'
  | _, _ => false
  end.

(** the characters [q] occur in a row in [s] *)
Definition contains_chars (s q : list Z) : bool := existsb (chars_prefix q) (suffixes s).

(** [q] occurs in [s] ignoring ASCII case, both read as characters the
    way SQLite reads them *)
Definition contains_ci (s q : string) : bool :=
  contains_chars (sqlite_chars (ascii_lower s)) (sqlite_chars (ascii_lower q)).

(** a string without NUL bytes *)
Definition no_nul (s : string) : bool := forall_bytes (fun c => negb (byte_val c =? 0)) s.

(** the columns [searchLIKE] reads *)
Definition searched_fields (d : DB) (r : msg_row) : list (option string) :=
  [m_text r; m_media_caption r; m_filename r; Some (opt_or_empty (m_chat_name r));
   Some (opt_or_empty (m_sender_name r));
   Some (match get_chat d (m_chat_jid r) with Some c => opt_or_empty (c_name c) | None => "" end)].

Definition substring_hit (d : DB) (q : string) (r : msg_row) : bool :=
  existsb (fun o => match o with Some v => contains_ci v q | None => false end)
    (searched_fields d r).

(** [p.Limit] after its default *)
Definition search_limit (n : Z) : Z := if n <=? 0 then 50 else n.

(** ** More of the message store (internal/store/messages.go, store.go) *)

Module LP.
Record ListMessagesParams := {
  ChatJID : string;
  Limit : Z;
  Before : option time;
  After : option time
}.
End LP.

(** the [WHERE] clause [ListMessages] builds *)
Definition list_filters (p : LP.ListMessagesParams) (r : msg_row) : bool :=
  (if String.eqb (TrimSpace (LP.ChatJID p)) "" then true
   else String.eqb (m_chat_jid r) (LP.ChatJID p))
  && (match LP.After p with Some a => unix a <? m_ts r | None => true end)
  && (match LP.Before p with Some b => m_ts r <? unix b | None => true end).

(** [ListMessages]: [ORDER BY m.ts DESC LIMIT ?], [p.Limit] defaulting to 50 *)
Definition ListMessages (d : DB) (p : LP.ListMessagesParams)
    (out : res (list Msg.Message)) : Prop :=
  let limit := if LP.Limit p <=? 0 then 50 else LP.Limit p in
  exists rows,
    select_ordered (messages d) (list_filters p) (desc_by m_ts) limit rows
    /\ out = Ok (map (to_message d "") rows).

(** [CountMessages]: [SELECT COUNT(1) FROM messages] *)
Definition CountMessages (d : DB) : Z := Z.of_nat (List.length (messages d)).

Record MessageInfo := {
  MI_ChatJID : string;
  MI_MsgID : string;
  MI_Timestamp : time;
  MI_FromMe : bool;
  MI_SenderJID : string;
  MI_SenderName : string
}.

Definition to_message_info (r : msg_row) : MessageInfo :=
  {| MI_ChatJID := m_chat_jid r; MI_MsgID := m_msg_id r;
     MI_Timestamp := fromUnix (m_ts r); MI_FromMe := negb (m_from_me r =? 0);
     MI_SenderJID := opt_or_empty (m_sender_jid r);
     MI_SenderName := opt_or_empty (m_sender_name r) |}.

(** [GetOldestMessageInfo]: [ORDER BY m.ts ASC LIMIT 1]; [row.Scan] on no
    row returns [sql.ErrNoRows] *)
Definition GetOldestMessageInfo (d : DB) (chatJID : string) (out : res MessageInfo) : Prop :=
  let chatJID := TrimSpace chatJID in
  if String.eqb chatJID "" then out = Err "chat JID is required"
  else exists rows,
    select_ordered (messages d) (fun r => String.eqb (m_chat_jid r) chatJID) (asc_by m_ts) 1 rows
    /\ out = match rows with
             | [] => Err ErrNoRows
             | r :: _ => Ok (to_message_info r)
             end.

Record MediaDownloadInfo := {
  MD_ChatJID : string;
  MD_ChatName : string;
  MD_MsgID : string;
  MD_MediaType : string;
  MD_Filename : string;
  MD_MimeType : string;
  MD_DirectPath : string;
  MD_MediaKey : blob;
  MD_FileSHA256 : blob;
  MD_FileEncSHA256 : blob;
  MD_FileLength : Z;   (* uint64 *)
  MD_LocalPath : string;
  MD_DownloadedAt : time
}.

(** [GetMediaDownloadInfo] *)
Definition GetMediaDownloadInfo (d : DB) (chatJID msgID : string) : res MediaDownloadInfo :=
  match get_row d chatJID msgID with
  | None => Err ErrNoRows
  | Some r =>
      let fileLen := match m_file_length r with Some n => n | None => 0 end in
      let downloadedAt := match m_downloaded_at r with Some t => t | None => 0 end in
      Ok {| MD_ChatJID := m_chat_jid r;
            MD_ChatName := match get_chat d (m_chat_jid r) with
                           | Some c => opt_or_empty (c_name c)
                           | None => ""
                           end;
            MD_MsgID := m_msg_id r;
            MD_MediaType := opt_or_empty (m_media_type r);
            MD_Filename := opt_or_empty (m_filename r);
            MD_MimeType := opt_or_empty (m_mime_type r);
            MD_DirectPath := opt_or_empty (m_direct_path r);
            MD_MediaKey := m_media_key r;
            MD_FileSHA256 := m_file_sha256 r;
            MD_FileEncSHA256 := m_file_enc_sha256 r;
            MD_FileLength := if fileLen >? 0 then fileLen else 0;
            MD_LocalPath := opt_or_empty (m_local_path r);
            MD_DownloadedAt := fromUnix downloadedAt |}
  end.

(** [SET local_path = ?, downloaded_at = ?] on one row *)
Definition set_downloaded (localPath : string) (downloadedAt : Z) (r : msg_row) : msg_row :=
  {| m_chat_jid := m_chat_jid r; m_chat_name := m_chat_name r; m_msg_id := m_msg_id r;
     m_sender_jid := m_sender_jid r; m_sender_name := m_sender_name r; m_ts := m_ts r;
     m_from_me := m_from_me r; m_text := m_text r; m_display_text := m_display_text r;
     m_media_type := m_media_type r; m_media_caption := m_media_caption r;
     m_filename := m_filename r; m_mime_type := m_mime_type r;
     m_direct_path := m_direct_path r; m_media_key := m_media_key r;
     m_file_sha256 := m_file_sha256 r; m_file_enc_sha256 := m_file_enc_sha256 r;
     m_file_length := m_file_length r; m_local_path := Some localPath;
     m_downloaded_at := Some downloadedAt; m_reaction_to_id := m_reaction_to_id r;
     m_reaction_emoji := m_reaction_emoji r |}.

(** [MarkMediaDownloaded]: an [UPDATE ... WHERE chat_jid = ? AND msg_id = ?]
    that matches no row is not an error *)
Definition MarkMediaDownloaded (d : DB) (chatJID msgID localPath : string)
    (downloadedAt : time) : DB :=
  with_messages d (map (fun r => if row_key_is chatJID msgID r
                                 then set_downloaded localPath (unix downloadedAt) r
                                 else r) (messages d)).

(** ** Selections over any table

    The same reading of [SELECT ... WHERE ... ORDER BY ... LIMIT ?] as
    [select_ordered], for the tables other than [messages]. *)

Definition select_rows {A} (rows : list A) (pred : A -> bool) (R : A -> A -> Prop)
    (limit : Z) (out : list A) : Prop :=
  exists l, Permutation l (filter pred rows) /\ Sorted R l /\ out = sql_limit limit l.

(** SQLite orders NULL below every integer. *)
Definition null_le (a b : option Z) : Prop :=
  match a, b with
  | None, _ => True
  | Some _, None => False
  | Some x, Some y => x <= y
  end.

(** ** [GetChat] and [ListChats] (store.go) *)

Record Chat := {
  CH_JID : string;
  CH_Kind : string;
  CH_Name : string;
  CH_LastMessageTS : time
}.

(** [SELECT jid, kind, COALESCE(name,''), COALESCE(last_message_ts,0)] and
    [c.LastMessageTS = fromUnix(ts)] *)
Definition to_chat (c : chat_row) : Chat :=
  {| CH_JID := c_jid c; CH_Kind := c_kind c; CH_Name := opt_or_empty (c_name c);
     CH_LastMessageTS := fromUnix (match c_last_message_ts c with Some t => t | None => 0 end) |}.


(** [LOWER(name) LIKE LOWER(?) OR LOWER(jid) LIKE LOWER(?)], added when the
    query is not blank *)
Definition chat_filter (query : string) (c : chat_row) : bool :=
  if String.eqb (TrimSpace query) "" then true
  else let needle := "%" ++ query ++ "%" in
       like_col needle (c_name c) || like_col needle (Some (c_jid c)).

(** [ORDER BY last_message_ts DESC LIMIT ?]; a pattern over the [LIKE]
    length limit makes the query fail at the first chat it reads *)
Definition ListChats (d : DB) (query : string) (limit : Z) (out : res (list Chat)) : Prop :=
  let limit := if limit <=? 0 then 50 else limit in
  if negb (String.eqb (TrimSpace query) "")
     && (like_pattern_limit <? Z.of_nat (String.length query) + 2)
  then out = Err like_too_complex \/ out = Ok []
  else exists rows,
    select_rows (chats d) (chat_filter query)
      (fun a b => null_le (c_last_message_ts b) (c_last_message_ts a)) limit rows
    /\ out = Ok (map to_chat rows).

(** ** [UpsertGroup] and [ListGroups] (store.go) *)












(** ** Contacts, aliases and tags (store.go) *)

Record contact_row := {
  ct_jid : string;
  ct_phone : option string;
  ct_push_name : option string;
  ct_full_name : option string;
  ct_first_name : option string;
  ct_business_name : option string;
  ct_updated_at : Z
}.

(** [contact_aliases]: [jid] is the primary key; no foreign key *)
Record alias_row := {
  a_jid : string;
  a_alias : string;
  a_notes : option string;
  a_updated_at : Z
}.

(** [contact_tags]: primary key [(jid, tag)]; no foreign key *)
Record tag_row := {
  t_jid : string;
  t_tag : string;
  t_updated_at : Z
}.

Record ContactDB := {
  contacts : list contact_row;
  aliases : list alias_row;
  tags : list tag_row
}.

Record Contact := {
  CT_JID : string;
  CT_Phone : string;
  CT_Name : string;
  CT_Alias : string;
  CT_Tags : list string;
  CT_UpdatedAt : time
}.

Definition contact_excluded (jid phone pushName fullName firstName businessName : string)
    (now : Z) : contact_row :=
  {| ct_jid := jid; ct_phone := Some phone; ct_push_name := Some pushName;
     ct_full_name := Some fullName; ct_first_name := Some firstName;
     ct_business_name := Some businessName; ct_updated_at := now |}.

Definition contact_merge (old ex : contact_row) : contact_row :=
  {| ct_jid := ct_jid old;
     ct_phone := COALESCE (NULLIF_empty (ct_phone ex)) (ct_phone old);
     ct_push_name := COALESCE (NULLIF_empty (ct_push_name ex)) (ct_push_name old);
     ct_full_name := COALESCE (NULLIF_empty (ct_full_name ex)) (ct_full_name old);
     ct_first_name := COALESCE (NULLIF_empty (ct_first_name ex)) (ct_first_name old);
     ct_business_name := COALESCE (NULLIF_empty (ct_business_name ex)) (ct_business_name old);
     ct_updated_at := ct_updated_at ex |}.

Definition UpsertContact (cdb : ContactDB)
    (jid phone pushName fullName firstName businessName : string) (now : Z) : ContactDB :=
  let ex := contact_excluded jid phone pushName fullName firstName businessName now in
  let k := fun c => String.eqb (ct_jid c) jid in
  {| contacts := if existsb k (contacts cdb)
                 then map (fun c => if k c then contact_merge c ex else c) (contacts cdb)
                 else contacts cdb ++ [ex];
     aliases := aliases cdb; tags := tags cdb |}.

Definition get_contact (cdb : ContactDB) (jid : string) : option contact_row :=
  find (fun c => String.eqb (ct_jid c) jid) (contacts cdb).

(** the [LEFT JOIN contact_aliases a ON a.jid = c.jid]; [jid] is the
    primary key of [contact_aliases], so at most one row joins *)
Definition get_alias (cdb : ContactDB) (jid : string) : option alias_row :=
  find (fun a => String.eqb (a_jid a) jid) (aliases cdb).

(** [COALESCE(NULLIF(c.full_name,''), NULLIF(c.push_name,''),
    NULLIF(c.business_name,''), NULLIF(c.first_name,''), '')] *)
Definition contact_name (c : contact_row) : string :=
  opt_or_empty
    (COALESCE (NULLIF_empty (ct_full_name c))
       (COALESCE (NULLIF_empty (ct_push_name c))
          (COALESCE (NULLIF_empty (ct_business_name c)) (NULLIF_empty (ct_first_name c))))).

(** [COALESCE(NULLIF(a.alias,''), '')] *)
Definition contact_alias (cdb : ContactDB) (jid : string) : string :=
  opt_or_empty (NULLIF_empty (option_map a_alias (get_alias cdb jid))).

(** [SELECT tag FROM contact_tags WHERE jid = ? ORDER BY tag] *)
Definition ListTags (cdb : ContactDB) (jid : string) (out : list string) : Prop :=
  Permutation out (map t_tag (filter (fun t => String.eqb (t_jid t) jid) (tags cdb)))
  /\ Sorted (fun a b => String.leb a b = true) out.

(** the scanned columns, [c.UpdatedAt = fromUnix(updated)] and the tags *)
Definition to_contact (cdb : ContactDB) (c : contact_row) (ts : list string) : Contact :=
  {| CT_JID := ct_jid c; CT_Phone := opt_or_empty (ct_phone c);
     CT_Name := contact_name c; CT_Alias := contact_alias cdb (ct_jid c);
     CT_Tags := ts; CT_UpdatedAt := fromUnix (ct_updated_at c) |}.

(** [GetContact]; the error of [ListTags] is ignored *)
Definition GetContact (cdb : ContactDB) (jid : string) (out : res Contact) : Prop :=
  match get_contact cdb jid with
  | None => out = Err ErrNoRows
  | Some c => exists ts, ListTags cdb jid ts /\ out = Ok (to_contact cdb c ts)
  end.

(** the [WHERE] clause of [SearchContacts] *)
Definition contact_hit (cdb : ContactDB) (needle : string) (c : contact_row) : bool :=
  like_col needle (Some (opt_or_empty (option_map a_alias (get_alias cdb (ct_jid c)))))
  || like_col needle (Some (opt_or_empty (ct_full_name c)))
  || like_col needle (Some (opt_or_empty (ct_push_name c)))
  || like_col needle (Some (opt_or_empty (ct_phone c)))
  || like_col needle (Some (ct_jid c)).

(** [COALESCE(NULLIF(a.alias,''), NULLIF(c.full_name,''), NULLIF(c.push_name,''), c.jid)] *)
Definition contact_sort_key (cdb : ContactDB) (c : contact_row) : string :=
  match COALESCE (NULLIF_empty (option_map a_alias (get_alias cdb (ct_jid c))))
          (COALESCE (NULLIF_empty (ct_full_name c)) (NULLIF_empty (ct_push_name c))) with
  | Some k => k
  | None => ct_jid c
  end.

Definition SearchContacts (cdb : ContactDB) (query : string) (limit : Z)
    (out : res (list Contact)) : Prop :=
  if String.eqb (TrimSpace query) "" then out = Err "query is required" else
  let limit := if limit <=? 0 then 50 else limit in
  let needle := "%" ++ query ++ "%" in
  if like_pattern_limit <? Z.of_nat (String.length query) + 2
  then out = Err like_too_complex \/ out = Ok []
  else exists rows,
    select_rows (contacts cdb) (contact_hit cdb needle)
      (fun a b => String.leb (contact_sort_key cdb a) (contact_sort_key cdb b) = true)
      limit rows
    /\ out = Ok (map (fun c => to_contact cdb c []) rows).

Definition SetAlias (cdb : ContactDB) (jid alias : string) (now : Z) : res ContactDB :=
  let alias := TrimSpace alias in
  if String.eqb alias "" then Err "alias is required" else
  let k := fun a => String.eqb (a_jid a) jid in
  Ok {| contacts := contacts cdb;
        aliases := if existsb k (aliases cdb)
                   then map (fun a => if k a
                                      then {| a_jid := a_jid a; a_alias := alias;
                                              a_notes := a_notes a; a_updated_at := now |}
                                      else a) (aliases cdb)
                   else aliases cdb ++ [{| a_jid := jid; a_alias := alias; a_notes := None;
                                           a_updated_at := now |}];
        tags := tags cdb |}.

Definition RemoveAlias (cdb : ContactDB) (jid : string) : ContactDB :=
  {| contacts := contacts cdb;
     aliases := filter (fun a => negb (String.eqb (a_jid a) jid)) (aliases cdb);
     tags := tags cdb |}.

Definition tag_key_is (jid tag : string) (t : tag_row) : bool :=
  String.eqb (t_jid t) jid && String.eqb (t_tag t) tag.

Definition AddTag (cdb : ContactDB) (jid tag : string) (now : Z) : res ContactDB :=
  let tag := TrimSpace tag in
  if String.eqb tag "" then Err "tag is required" else
  Ok {| contacts := contacts cdb; aliases := aliases cdb;
        tags := if existsb (tag_key_is jid tag) (tags cdb)
                then map (fun t => if tag_key_is jid tag t
                                   then {| t_jid := t_jid t; t_tag := t_tag t; t_updated_at := now |}
                                   else t) (tags cdb)
                else tags cdb ++ [{| t_jid := jid; t_tag := tag; t_updated_at := now |}] |}.

(** the tag is bound as given, without trimming *)
Definition RemoveTag (cdb : ContactDB) (jid tag : string) : ContactDB :=
  {| contacts := contacts cdb; aliases := aliases cdb;
     tags := filter (fun t => negb (tag_key_is jid tag t)) (tags cdb) |}.

(** ** Sample data *)

Definition ex_chat (jid : string) : chat_row :=
  {| c_jid := jid; c_kind := "dm"; c_name := Some "Alice";
     c_last_message_ts := Some 100 |}.

(** a stored text message, as [UpsertMessage] writes it *)
Definition ex_row (chat id : string) (ts : Z) (text : string) : msg_row :=
  {| m_chat_jid := chat; m_chat_name := None; m_msg_id := id;
     m_sender_jid := Some "s"; m_sender_name := None; m_ts := ts; m_from_me := 0;
     m_text := Some text; m_display_text := Some text; m_media_type := None;
     m_media_caption := None; m_filename := None; m_mime_type := None;
     m_direct_path := None; m_media_key := None; m_file_sha256 := None;
     m_file_enc_sha256 := None; m_file_length := Some 0; m_local_path := None;
     m_downloaded_at := None; m_reaction_to_id := None; m_reaction_emoji := None |}.

Definition ex_db (rows : list msg_row) : DB :=
  {| chats := [ex_chat "c"]; messages := rows; ftsEnabled := false |}.

Definition ex_params (chat id : string) (ts : time) (text : string) : UpsertMessageParams :=
  {| ChatJID := chat; ChatName := ""; MsgID := id; SenderJID := "s"; SenderName := "";
     Timestamp := ts; FromMe := false; Text := text; DisplayText := text;
     MediaType := ""; MediaCaption := ""; Filename := ""; MimeType := "";
     DirectPath := ""; MediaKey := None; FileSHA256 := None; FileEncSHA256 := None;
     FileLength := 0; ReactionToID := ""; ReactionEmoji := "" |}.

(** a backfill round whose oldest message is "m1" and whose request is sent *)
Definition ex_round_env (w : wait_outcome) : round_env :=
  {| oldest := Ok "m1"; request_err := None; waited := w; new_oldest := Ok "m0" |}.

Definition ex_response : onDemandResponse :=
  {| conversations := 1; resp_messages := 50; complete_no_more := false |}.

(** a backfill whose round 0 gets a response with older messages and whose
    round 1 times out *)
Definition ex_env_timeout_at1 (i : nat) : round_env :=
  match i with
  | O => ex_round_env (GotResponse ex_response)
  | S _ => ex_round_env TimedOut
  end.

(** a plain text message as [extractWAProto] returns it *)
Definition ex_parsed (id text replyTo quoted reactTo emoji : string) : wa.ParsedMessage :=
  {| wa.Chat := "c"; wa.ID := id; wa.SenderJID := "s"; wa.Timestamp := 200;
     wa.FromMe := false; wa.Text := text; wa.Media_ := None; wa.PushName := "";
     wa.ReplyToID := replyTo; wa.ReplyToDisplay := quoted;
     wa.ReactionToID := reactTo; wa.ReactionEmoji := emoji |}.


(** three messages of chat "c" *)
Definition ex_ctx_db (t1 t2 t3 : Z) : DB :=
  ex_db [ex_row "c" "m1" t1 "a"; ex_row "c" "m2" t2 "b"; ex_row "c" "m3" t3 "c"].

(** 51 messages of chat "c" that all contain "hello" *)
Definition ex_search_db : DB :=
  ex_db (map (fun n => ex_row "c" (String (ascii_of_nat n) "") (Z.of_nat n) "hello")
             (seq 1 51)).

Definition ex_search_params : SP.SearchMessagesParams :=
  {| SP.Query := "hello"; SP.ChatJID := ""; SP.From := ""; SP.Limit := 0;
     SP.Before := None; SP.After := None; SP.Type_ := "" |}.

(** two messages of chat "c" containing "hello", and what the degraded
    search returns for them with the stable sort *)
Definition ex_small_db : DB :=
  ex_db [ex_row "c" "m1" 100 "hello"; ex_row "c" "m2" 200 "Hello world"].

Definition ex_search_out : res (list Msg.Message) :=
  Ok (map (to_search_message ex_small_db "")
        (run_select_desc (messages ex_small_db)
           (fun r => like_hit ex_small_db "hello" r
                     && message_filters (with_limit ex_search_params 50) r) m_ts 50)).

(** the migrations [ensureSchema] will run on [s] *)
Definition pending_migrations (fails : stmt -> bool) (cols : list string) (s : Schema)
    : list migration :=
  pending (map fst (ledger s)) (schemaMigrations fails cols).

(** a fresh database file, and an engine that rejects adding the
    [reaction_emoji] column *)
Definition empty_schema : Schema := {| tables := []; ledger := []; fts_on := false |}.

Definition ex_reaction_cols : list string := ["reaction_to_id"; "reaction_emoji"].

Definition fails_reaction_emoji (st : stmt) : bool :=
  match st with
  | AddColumn t c => String.eqb t "messages" && String.eqb c "reaction_emoji"
  | _ => false
  end.

(** an engine that rejects the last statement of the core schema text *)
Definition fails_ts_index (st : stmt) : bool :=
  match st with
  | CreateIndex n => String.eqb n "idx_messages_ts"
  | _ => false
  end.

(** [ListMessages] of chat "c" with the default limit *)
Definition ex_list_params : LP.ListMessagesParams :=
  {| LP.ChatJID := "c"; LP.Limit := 0; LP.Before := None; LP.After := None |}.

Definition ex_list_out : res (list Msg.Message) :=
  Ok (map (to_message ex_small_db "")
        (run_select_desc (messages ex_small_db) (list_filters ex_list_params) m_ts 50)).

(** a stored contact with a full name, and no alias or tag *)
Definition ex_contact (jid : string) : contact_row :=
  {| ct_jid := jid; ct_phone := Some "15550001"; ct_push_name := Some "Al";
     ct_full_name := Some "Alice Smith"; ct_first_name := Some "Alice";
     ct_business_name := None; ct_updated_at := 100 |}.

Definition ex_contact_db : ContactDB :=
  {| contacts := [ex_contact "a@s"]; aliases := []; tags := [] |}.


(** * Properties *)

(** ** List helpers *)

(** ** Bytes and UTF-8 *)

Lemma byte_val_range (c : ascii) : 0 <= byte_val c < 256.
Proof.
  unfold byte_val. pose proof (N_ascii_bounded c) as H. lia.
Qed.

Lemma byte_of_val (c : ascii) : byte_of (byte_val c) = c.
Proof. unfold byte_of, byte_val. rewrite N2Z.id. apply ascii_N_embedding. Qed.

Lemma byte_val_of (z : Z) : 0 <= z < 256 -> byte_val (byte_of z) = z.
Proof.
  intros H. unfold byte_of, byte_val. rewrite N_ascii_embedding by lia. lia.
Qed.

Lemma in_zrange (lo x : Z) (n : nat) : lo <= x < lo + Z.of_nat n -> In x (zrange lo n).
Proof.
  revert lo. induction n as [|n IH]; intros lo H; simpl; [lia|].
  destruct (Z.eq_dec lo x) as [E|E]; [left; exact E|right; apply IH; lia].
Qed.

Lemma forallb_zrange (f : Z -> bool) (lo x n : Z) :
  forallb f (zrange lo (Z.to_nat n)) = true -> lo <= x < lo + n -> f x = true.
Proof.
  intros H Hx. rewrite forallb_forall in H. apply H, in_zrange. rewrite Z2Nat.id; lia.
Qed.

Lemma in_range_iff (lo hi x : Z) : in_range lo hi x = true <-> lo <= x <= hi.
Proof. unfold in_range. rewrite andb_true_iff, !Z.leb_le. tauto. Qed.

Lemma str_app_assoc (a b c : string) : (a ++ b) ++ c = a ++ (b ++ c).
Proof. induction a as [|x a IH]; simpl; [reflexivity | rewrite IH; reflexivity]. Qed.

Lemma str_app_nil (a : string) : a ++ "" = a.
Proof. induction a as [|x a IH]; simpl; [reflexivity | rewrite IH; reflexivity]. Qed.

Lemma str_length_app (a b : string) : String.length (a ++ b) = (String.length a + String.length b)%nat.
Proof. induction a as [|x a IH]; simpl; [reflexivity | rewrite IH; reflexivity]. Qed.

Lemma app_nonempty (a b : string) : b <> "" -> a ++ b <> "".
Proof. destruct a; simpl; [auto | discriminate]. Qed.

Lemma forall_bytes_app (f : ascii -> bool) (a b : string) :
  forall_bytes f (a ++ b) = forall_bytes f a && forall_bytes f b.
Proof.
  induction a as [|x a IH]; simpl; [reflexivity|]. rewrite IH, andb_assoc. reflexivity.
Qed.

(** ** The encodings of the space runes *)

Lemma is_space_seq_In (s : string) : is_space_seq s = true -> In s space_seqs.
Proof.
  unfold is_space_seq. intros H. apply existsb_exists in H.
  destruct H as [e [He Hs]]. apply String.eqb_eq in Hs. subst. exact He.
Qed.

(** the shape of the encodings: a one-byte encoding is an ASCII byte; a
    longer one has a lead byte in [194, 227] followed by continuation bytes
    only; the encodings are one to three bytes long; and [rtrim] removes
    each of them *)
Definition seq_shape (e : string) : bool :=
  match e with
  | EmptyString => false
  | String c EmptyString => byte_val c <? 128
  | String c t =>
      in_range 194 227 (byte_val c) && forall_bytes is_cont t
      && (String.length t <=? 2)%nat
  end
  && String.eqb (rtrim e) "".

Lemma space_seqs_shape : forallb seq_shape space_seqs = true.
Proof. vm_compute. reflexivity. Qed.

Lemma space_seq_shape (e : string) : is_space_seq e = true -> seq_shape e = true.
Proof.
  intros H. apply is_space_seq_In in H.
  pose proof space_seqs_shape as A. rewrite forallb_forall in A. exact (A e H).
Qed.

Lemma space_seq_rtrim (e : string) : is_space_seq e = true -> rtrim e = "".
Proof.
  intros H. apply space_seq_shape in H. unfold seq_shape in H.
  apply andb_true_iff in H. destruct H as [_ H]. apply String.eqb_eq. exact H.
Qed.

Lemma space_seq_tail (c : ascii) (t : string) :
  is_space_seq (String c t) = true -> forall_bytes is_cont t = true.
Proof.
  intros H. apply space_seq_shape in H. unfold seq_shape in H.
  destruct t as [|d t']; [reflexivity|].
  apply andb_true_iff in H. destruct H as [H _].
  apply andb_true_iff in H. destruct H as [H _].
  apply andb_true_iff in H. destruct H as [_ H]. exact H.
Qed.

Lemma space_seq_head (c : ascii) (t : string) :
  is_space_seq (String c t) = true -> is_cont c = false.
Proof.
  intros H. apply space_seq_shape in H. unfold seq_shape in H. unfold is_cont, in_range.
  destruct t as [|d t'].
  - apply andb_true_iff in H. destruct H as [H _]. apply Z.ltb_lt in H.
    apply andb_false_iff. left. apply Z.leb_gt. lia.
  - apply andb_true_iff in H. destruct H as [H _].
    apply andb_true_iff in H. destruct H as [H _].
    apply andb_true_iff in H. destruct H as [H _]. apply in_range_iff in H.
    apply andb_false_iff. right. apply Z.leb_gt. lia.
Qed.

Lemma space_seq_ascii (c : ascii) (t : string) :
  byte_val c < 128 -> is_space_seq (String c t) = is_space c && String.eqb t "".
Proof.
  intros Hc. destruct t as [|d t']; [rewrite andb_true_r; reflexivity|].
  rewrite andb_false_r. destruct (is_space_seq (String c (String d t'))) eqn:E; [|reflexivity].
  apply space_seq_shape in E. unfold seq_shape in E.
  apply andb_true_iff in E. destruct E as [E _].
  apply andb_true_iff in E. destruct E as [E _].
  apply andb_true_iff in E. destruct E as [E _]. apply in_range_iff in E. lia.
Qed.

Lemma space_seq_lead (c : ascii) (t : string) :
  is_space_seq (String c t) = true -> byte_val c <= 227.
Proof.
  intros H. apply space_seq_shape in H. unfold seq_shape in H.
  destruct t as [|d t'].
  - apply andb_true_iff in H. destruct H as [H _]. apply Z.ltb_lt in H. lia.
  - apply andb_true_iff in H. destruct H as [H _].
    apply andb_true_iff in H. destruct H as [H _].
    apply andb_true_iff in H. destruct H as [H _]. apply in_range_iff in H. lia.
Qed.

(** ** TrimRightFunc *)

Lemma rtrim_cons (c : ascii) (s : string) :
  rtrim (String c s) =
  if is_space_seq (String c (rtrim s)) then EmptyString else String c (rtrim s).
Proof. reflexivity. Qed.

Lemma rtrim_idem (s : string) : rtrim (rtrim s) = rtrim s.
Proof.
  induction s as [|c s IH]; [reflexivity|]. rewrite rtrim_cons.
  destruct (is_space_seq (String c (rtrim s))) eqn:E; [reflexivity|].
  rewrite rtrim_cons, IH, E. reflexivity.
Qed.

Lemma rtrim_TrimSpace (s : string) : rtrim (TrimSpace s) = TrimSpace s.
Proof. apply rtrim_idem. Qed.

(** a string with a byte that is not a continuation byte and no encoding
    of a space rune at its end keeps its end under any prefix *)
Lemma rtrim_app_fix (a b : string) :
  forall_bytes is_cont b = false -> rtrim b = b -> rtrim (a ++ b) = a ++ b.
Proof.
  intros Hb Hr. induction a as [|x a IH]; [exact Hr|]. simpl. rewrite IH.
  destruct (is_space_seq (String x (a ++ b))) eqn:E; [|reflexivity].
  apply space_seq_tail in E. rewrite forall_bytes_app, Hb, andb_false_r in E. discriminate.
Qed.

Lemma rtrim_cont (s : string) : forall_bytes is_cont s = true -> rtrim s = s.
Proof.
  induction s as [|c s IH]; [reflexivity|]. simpl. intros H.
  apply andb_true_iff in H. destruct H as [Hc Hs]. rewrite (IH Hs).
  destruct (is_space_seq (String c s)) eqn:E; [|reflexivity].
  apply space_seq_head in E. rewrite Hc in E. discriminate.
Qed.

Lemma rtrim_app_space (a e : string) : is_space_seq e = true -> rtrim (a ++ e) = rtrim a.
Proof.
  intros He. induction a as [|x a IH]; [apply space_seq_rtrim; exact He|].
  simpl. rewrite IH. reflexivity.
Qed.

Lemma rtrim_length (s : string) : (String.length (rtrim s) <= String.length s)%nat.
Proof.
  induction s as [|c s IH]; [simpl; lia|]. rewrite rtrim_cons.
  destruct (is_space_seq _); simpl; lia.
Qed.

(** ASCII bytes in front of a non-empty string that [rtrim] keeps *)
Lemma rtrim_ascii_app (a s : string) :
  forall_bytes (fun c => byte_val c <? 128) a = true -> s <> "" ->
  rtrim s = s -> rtrim (a ++ s) = a ++ s.
Proof.
  intros Ha Hne Hr. induction a as [|c a IH]; [exact Hr|]. simpl in Ha.
  apply andb_true_iff in Ha. destruct Ha as [Hc Ha]. apply Z.ltb_lt in Hc.
  simpl. rewrite (IH Ha), space_seq_ascii by exact Hc.
  assert (E : String.eqb (a ++ s) "" = false)
    by (apply String.eqb_neq, app_nonempty, Hne).
  rewrite E, andb_false_r. reflexivity.
Qed.

(** ** TrimLeftFunc *)

Lemma ltrim_ascii (c : ascii) (s : string) :
  byte_val c < 128 -> is_space c = false -> ltrim (String c s) = String c s.
Proof.
  intros Hc Hs. simpl. unfold is_space in Hs. rewrite Hs.
  destruct s as [|d s]; [reflexivity|].
  rewrite space_seq_ascii by exact Hc. unfold is_space. rewrite Hs. simpl.
  destruct s as [|e s]; [reflexivity|].
  rewrite space_seq_ascii by exact Hc. unfold is_space. rewrite Hs. reflexivity.
Qed.

Lemma TrimSpace_ascii_head (c : ascii) (s : string) :
  byte_val c < 128 -> is_space c = false -> TrimSpace (String c s) <> "".
Proof.
  intros Hc Hs. unfold TrimSpace. rewrite ltrim_ascii by assumption.
  rewrite rtrim_cons, space_seq_ascii by exact Hc. rewrite Hs. discriminate.
Qed.

Lemma nullIfEmpty_fix (c : ascii) (s : string) :
  byte_val c < 128 -> is_space c = false -> rtrim (String c s) = String c s ->
  nullIfEmpty (String c s) = Some (String c s).
Proof.
  intros Hc Hs Hr. unfold nullIfEmpty, TrimSpace. rewrite ltrim_ascii, Hr by assumption.
  reflexivity.
Qed.

Lemma rtrim_prefix (s : string) : exists z, s = rtrim s ++ z.
Proof.
  induction s as [|c s [z IH]]; [exists ""; reflexivity|]. rewrite rtrim_cons.
  destruct (is_space_seq _); [exists (String c s); reflexivity|].
  exists z. simpl. rewrite <- IH. reflexivity.
Qed.

(** an encoding of a space rune at the front is skipped whole (no encoding
    is a proper prefix of another) *)
Lemma ltrim_app_space (e w : string) : is_space_seq e = true -> ltrim (e ++ w) = ltrim w.
Proof.
  intros He. apply is_space_seq_In in He.
  repeat (destruct He as [He|He]; [subst e; reflexivity|]). destruct He.
Qed.

Lemma ltrim_cases (s : string) :
  ltrim s = s \/
  exists e r, s = e ++ r /\ is_space_seq e = true /\ ltrim s = ltrim r.
Proof.
  destruct s as [|c0 s1]; [left; reflexivity|]. simpl ltrim.
  destruct (is_space_seq (String c0 "")) eqn:E1.
  { right. exists (String c0 ""), s1. auto. }
  destruct s1 as [|c1 s2]; [left; reflexivity|].
  destruct (is_space_seq (String c0 (String c1 ""))) eqn:E2.
  { right. exists (String c0 (String c1 "")), s2. auto. }
  destruct s2 as [|c2 s3]; [left; reflexivity|].
  destruct (is_space_seq (String c0 (String c1 (String c2 "")))) eqn:E3; [|left; reflexivity].
  right. exists (String c0 (String c1 (String c2 ""))), s3. auto.
Qed.

Lemma space_seq_nonempty (e : string) : is_space_seq e = true -> e <> "".
Proof. intros H ->. discriminate. Qed.

Lemma ltrim_length (s : string) : (String.length (ltrim s) <= String.length s)%nat.
Proof.
  remember (String.length s) as n eqn:Hn. revert s Hn.
  induction n as [n IH] using (well_founded_induction lt_wf). intros s Hn.
  destruct (ltrim_cases s) as [E|[e [r [Es [He Er]]]]]; [rewrite E; lia|].
  rewrite Er. subst s. rewrite str_length_app in *.
  destruct e as [|x e]; [discriminate|]. simpl in Hn.
  specialize (IH (String.length r) ltac:(lia) r eq_refl). lia.
Qed.

Lemma ltrim_idem (s : string) : ltrim (ltrim s) = ltrim s.
Proof.
  remember (String.length s) as n eqn:Hn. revert s Hn.
  induction n as [n IH] using (well_founded_induction lt_wf). intros s Hn.
  destruct (ltrim_cases s) as [E|[e [r [Es [He Er]]]]]; [rewrite !E; reflexivity|].
  rewrite Er. subst s. rewrite str_length_app in *.
  destruct e as [|x e]; [discriminate|]. simpl in Hn.
  apply (IH (String.length r)); [lia | reflexivity].
Qed.

Lemma ltrim_rtrim (y : string) : ltrim y = y -> ltrim (rtrim y) = rtrim y.
Proof.
  intros Hy. destruct (ltrim_cases (rtrim y)) as [E|[e [r [Es [He Er]]]]]; [exact E|].
  exfalso. destruct (rtrim_prefix y) as [z Hz].
  rewrite Es, str_app_assoc in Hz.
  assert (Hl : ltrim y = ltrim (r ++ z)) by (rewrite Hz; apply ltrim_app_space; exact He).
  pose proof (ltrim_length (r ++ z)) as L. rewrite <- Hl, Hy in L.
  rewrite Hz, !str_length_app in L. destruct e as [|x e]; [discriminate|]. simpl in L. lia.
Qed.

Lemma TrimSpace_idem (s : string) : TrimSpace (TrimSpace s) = TrimSpace s.
Proof.
  unfold TrimSpace. rewrite (ltrim_rtrim (ltrim s)) by apply ltrim_idem. apply rtrim_idem.
Qed.

Lemma ltrim_all_space (s : string) : all_space s = true -> ltrim s = "".
Proof. unfold all_space. intros H. apply String.eqb_eq. exact H. Qed.

(** ** Encoding runes *)

Ltac zlia := Z.div_mod_to_equations; lia.

Lemma byte_of_cont (z : Z) : 128 <= z <= 191 -> is_cont (byte_of z) = true.
Proof. intros H. unfold is_cont. rewrite byte_val_of by lia. apply in_range_iff. lia. Qed.

Lemma byte_of_lead (z : Z) : 0 <= z < 128 \/ 192 <= z < 256 -> is_cont (byte_of z) = false.
Proof.
  intros H. unfold is_cont. rewrite byte_val_of by lia.
  destruct (in_range 128 191 z) eqn:E; [apply in_range_iff in E; lia | reflexivity].
Qed.

Lemma encode_RuneError :
  encode_rune RuneError = String (byte_of 239) (String (byte_of 191) (String (byte_of 189) "")).
Proof. reflexivity. Qed.

(** an encoding is a lead byte and continuation bytes; outside
    [[0, 16384)] its lead byte is above every lead byte of a space rune *)
Lemma encode_shape (r : Z) :
  exists h t, encode_rune r = String h t /\ is_cont h = false /\ forall_bytes is_cont t = true
    /\ (r < 0 \/ 16384 <= r -> 228 <= byte_val h).
Proof.
  unfold encode_rune. destruct (in_range 0 127 r) eqn:E1.
  { apply in_range_iff in E1. exists (byte_of r), "".
    split; [reflexivity|]. split; [apply byte_of_lead; zlia|]. split; [reflexivity | lia]. }
  destruct (in_range 0 2047 r) eqn:E2.
  { apply in_range_iff in E2. assert (~ (0 <= r <= 127)) by (rewrite <- in_range_iff; congruence).
    exists (byte_of (192 + r / 64)), (String (byte_of (128 + r mod 64)) "").
    split; [reflexivity|]. split; [apply byte_of_lead; zlia|].
    split; [cbn [forall_bytes]; rewrite byte_of_cont by zlia; reflexivity | zlia]. }
  assert (N2 : ~ (0 <= r <= 2047)) by (rewrite <- in_range_iff; congruence).
  destruct ((r <? 0) || (1114111 <? r) || in_range 55296 57343 r) eqn:E3.
  { simpl. exists (byte_of 239), (String (byte_of 191) (String (byte_of 189) "")).
    split; [reflexivity|]. split; [reflexivity|]. split; [reflexivity|].
    intros _. rewrite byte_val_of by lia. lia. }
  apply orb_false_iff in E3. destruct E3 as [E3 _]. apply orb_false_iff in E3.
  destruct E3 as [E3 E4]. apply Z.ltb_ge in E3. apply Z.ltb_ge in E4.
  destruct (r <=? 65535) eqn:E5.
  - apply Z.leb_le in E5.
    exists (byte_of (224 + r / 4096)),
      (String (byte_of (128 + (r / 64) mod 64)) (String (byte_of (128 + r mod 64)) "")).
    split; [reflexivity|]. split; [apply byte_of_lead; zlia|].
    split; [cbn [forall_bytes]; rewrite !byte_of_cont by zlia; reflexivity|].
    intros H. rewrite byte_val_of by zlia. zlia.
  - apply Z.leb_gt in E5.
    exists (byte_of (240 + r / 262144)),
      (String (byte_of (128 + (r / 4096) mod 64))
        (String (byte_of (128 + (r / 64) mod 64)) (String (byte_of (128 + r mod 64)) ""))).
    split; [reflexivity|]. split; [apply byte_of_lead; zlia|].
    split; [cbn [forall_bytes]; rewrite !byte_of_cont by zlia; reflexivity|].
    intros H. rewrite byte_val_of by zlia. zlia.
Qed.

Lemma encode_small_check :
  forallb (fun r => IsSpace r || negb (is_space_seq (encode_rune r))) (zrange 0 (Z.to_nat 16384)) = true.
Proof. vm_compute. reflexivity. Qed.

(** the encoding of a rune that is not a space is not the encoding of a space *)
Lemma encode_not_space (r : Z) : IsSpace r = false -> is_space_seq (encode_rune r) = false.
Proof.
  intros Hr. destruct (Z_lt_le_dec r 0) as [L|L]; [|destruct (Z_lt_le_dec r 16384) as [U|U]].
  2:{ pose proof (forallb_zrange _ 0 r 16384 encode_small_check ltac:(lia)) as H.
      cbv beta in H. rewrite Hr in H. apply negb_true_iff in H. exact H. }
  all: destruct (encode_shape r) as [h [t [E [_ [_ Hh]]]]]; rewrite E;
    destruct (is_space_seq (String h t)) eqn:S; [|reflexivity];
    apply space_seq_lead in S; specialize (Hh ltac:(lia)); lia.
Qed.

Lemma encode_fix (r : Z) : IsSpace r = false -> rtrim (encode_rune r) = encode_rune r.
Proof.
  intros Hr. pose proof (encode_not_space r Hr) as Hs.
  destruct (encode_shape r) as [h [t [E [_ [Ht _]]]]]. rewrite E in *.
  rewrite rtrim_cons, (rtrim_cont t Ht), Hs. reflexivity.
Qed.

Lemma encode_lead (r : Z) : forall_bytes is_cont (encode_rune r) = false.
Proof.
  destruct (encode_shape r) as [h [t [E [Hh _]]]]. rewrite E. simpl. rewrite Hh. reflexivity.
Qed.

Lemma encode_nonempty (r : Z) : (1 <= String.length (encode_rune r))%nat.
Proof. destruct (encode_shape r) as [h [t [E _]]]. rewrite E. simpl. lia. Qed.

Lemma encode_runes_snoc (rs : list Z) (r : Z) :
  encode_runes (rs ++ [r]) = encode_runes rs ++ encode_rune r.
Proof.
  induction rs as [|x rs IH]; simpl; [apply str_app_nil|]. rewrite IH, str_app_assoc. reflexivity.
Qed.

(** ** Decoding runes *)

Lemma IsSpace_bound (r : Z) : IsSpace r = true -> 0 <= r <= 12288.
Proof.
  intros H. unfold IsSpace in H. apply existsb_exists in H. destruct H as [x [Hx E]].
  apply Z.eqb_eq in E. subst x.
  assert (A : forallb (fun x => (0 <=? x) && (x <=? 12288)) space_runes = true)
    by reflexivity.
  rewrite forallb_forall in A. specialize (A r Hx). apply andb_true_iff in A.
  rewrite !Z.leb_le in A. lia.
Qed.

Lemma utf8_size_spec (b0 : Z) :
  (utf8_size b0 = 1%nat -> b0 < 128) /\
  (utf8_size b0 = 2%nat -> 194 <= b0 < 224) /\
  (utf8_size b0 = 3%nat -> 224 <= b0 < 240) /\
  (utf8_size b0 = 4%nat -> 240 <= b0 < 245).
Proof.
  split; [|split; [|split]]; intros Hs; unfold utf8_size in Hs;
    repeat match type of Hs with
           | context [?a <? ?b] => destruct (Z.ltb_spec a b)
           end; try discriminate; lia.
Qed.

Lemma accept_bounds (b0 : Z) : 128 <= accept_lo b0 /\ accept_hi b0 <= 191.
Proof.
  unfold accept_lo, accept_hi.
  destruct (b0 =? 224), (b0 =? 240), (b0 =? 237), (b0 =? 244); lia.
Qed.

Lemma decode_runes_cons (c0 : ascii) (s1 : string) :
  decode_runes (String c0 s1) =
  let b0 := byte_val c0 in
  match utf8_size b0 with
  | 1%nat => b0 :: decode_runes s1
  | 2%nat =>
      match s1 with
      | String c1 s2 =>
          if in_range (accept_lo b0) (accept_hi b0) (byte_val c1)
          then rune2 b0 (byte_val c1) :: decode_runes s2
          else RuneError :: decode_runes s1
      | EmptyString => RuneError :: decode_runes s1
      end
  | 3%nat =>
      match s1 with
      | String c1 (String c2 s3) =>
          if in_range (accept_lo b0) (accept_hi b0) (byte_val c1)
             && in_range 128 191 (byte_val c2)
          then rune3 b0 (byte_val c1) (byte_val c2) :: decode_runes s3
          else RuneError :: decode_runes s1
      | _ => RuneError :: decode_runes s1
      end
  | 4%nat =>
      match s1 with
      | String c1 (String c2 (String c3 s4)) =>
          if in_range (accept_lo b0) (accept_hi b0) (byte_val c1)
             && in_range 128 191 (byte_val c2) && in_range 128 191 (byte_val c3)
          then rune4 b0 (byte_val c1) (byte_val c2) (byte_val c3) :: decode_runes s4
          else RuneError :: decode_runes s1
      | _ => RuneError :: decode_runes s1
      end
  | _ => RuneError :: decode_runes s1
  end.
Proof. reflexivity. Qed.

Lemma decode2_check :
  forallb (fun b0 => forallb (fun b1 =>
    if IsSpace (rune2 b0 b1) then String.eqb (encode_rune (rune2 b0 b1)) (bytes [b0; b1])
    else true) (zrange 128 (Z.to_nat 64))) (zrange 194 (Z.to_nat 30)) = true.
Proof. vm_compute. reflexivity. Qed.

Lemma decode3_check :
  forallb (fun b0 => forallb (fun b1 => forallb (fun b2 =>
    if in_range (accept_lo b0) (accept_hi b0) b1 && IsSpace (rune3 b0 b1 b2)
    then String.eqb (encode_rune (rune3 b0 b1 b2)) (bytes [b0; b1; b2])
    else true) (zrange 128 (Z.to_nat 64))) (zrange 128 (Z.to_nat 64))) (zrange 224 (Z.to_nat 16)) = true.
Proof. vm_compute. reflexivity. Qed.

Lemma bytes_vals (c0 : ascii) (s : string) :
  bytes (byte_val c0 :: map byte_val (list_ascii_of_string s)) = String c0 s.
Proof.
  revert c0. induction s as [|c s IH]; intros c0; simpl; rewrite byte_of_val;
    [reflexivity|]. specialize (IH c). simpl in IH. rewrite IH. reflexivity.
Qed.

(** one step of [for range]: the rune at the front of the string and the
    bytes it is decoded from; a space rune is decoded from its encoding *)
Lemma decode_step (c0 : ascii) (s1 : string) :
  exists chunk rest r0, String c0 s1 = chunk ++ rest
    /\ (String.length rest < S (String.length s1))%nat
    /\ decode_runes (String c0 s1) = r0 :: decode_runes rest
    /\ (IsSpace r0 = true -> chunk = encode_rune r0).
Proof.
  rewrite decode_runes_cons. cbv zeta.
  pose proof (byte_val_range c0) as R0.
  destruct (utf8_size_spec (byte_val c0)) as [S1 [S2 [S3 S4]]].
  assert (Dflt : exists chunk rest r0, String c0 s1 = chunk ++ rest
    /\ (String.length rest < S (String.length s1))%nat
    /\ RuneError :: decode_runes s1 = r0 :: decode_runes rest
    /\ (IsSpace r0 = true -> chunk = encode_rune r0)).
  { exists (String c0 ""), s1, RuneError. repeat split; [simpl; lia | discriminate]. }
  destruct (utf8_size (byte_val c0)) as [|[|[|[|[|n]]]]] eqn:Hs; try exact Dflt.
  - exists (String c0 ""), s1, (byte_val c0). repeat split; [simpl; lia|].
    intros _. specialize (S1 eq_refl). unfold encode_rune.
    assert (E : in_range 0 127 (byte_val c0) = true) by (apply in_range_iff; lia).
    rewrite E. simpl. rewrite byte_of_val. reflexivity.
  - destruct s1 as [|c1 s2]; [exact Dflt|].
    destruct (in_range (accept_lo (byte_val c0)) (accept_hi (byte_val c0)) (byte_val c1))
      eqn:A; [|exact Dflt].
    apply in_range_iff in A. pose proof (accept_bounds (byte_val c0)) as B.
    specialize (S2 eq_refl).
    exists (String c0 (String c1 "")), s2, (rune2 (byte_val c0) (byte_val c1)).
    repeat split; [simpl; lia|]. intros Hsp.
    pose proof (forallb_zrange _ 194 (byte_val c0) 30 decode2_check ltac:(lia)) as H.
    cbv beta in H. pose proof (forallb_zrange _ 128 (byte_val c1) 64 H ltac:(lia)) as H'.
    cbv beta in H'. rewrite Hsp in H'. apply String.eqb_eq in H'. rewrite H'.
    symmetry. exact (bytes_vals c0 (String c1 "")).
  - destruct s1 as [|c1 [|c2 s3]]; try exact Dflt.
    destruct (in_range (accept_lo (byte_val c0)) (accept_hi (byte_val c0)) (byte_val c1)
              && in_range 128 191 (byte_val c2)) eqn:A; [|exact Dflt].
    apply andb_true_iff in A. destruct A as [A A2]. apply in_range_iff in A, A2.
    pose proof (accept_bounds (byte_val c0)) as B. specialize (S3 eq_refl).
    exists (String c0 (String c1 (String c2 ""))), s3,
      (rune3 (byte_val c0) (byte_val c1) (byte_val c2)).
    repeat split; [simpl; lia|]. intros Hsp.
    pose proof (forallb_zrange _ 224 (byte_val c0) 16 decode3_check ltac:(lia)) as H.
    cbv beta in H. pose proof (forallb_zrange _ 128 (byte_val c1) 64 H ltac:(lia)) as H'.
    cbv beta in H'. pose proof (forallb_zrange _ 128 (byte_val c2) 64 H' ltac:(lia)) as H''.
    cbv beta in H''. apply in_range_iff in A. rewrite A, Hsp in H''. apply String.eqb_eq in H''. rewrite H''.
    symmetry. exact (bytes_vals c0 (String c1 (String c2 ""))).
  - destruct s1 as [|c1 [|c2 [|c3 s4]]]; try exact Dflt.
    destruct (in_range (accept_lo (byte_val c0)) (accept_hi (byte_val c0)) (byte_val c1)
              && in_range 128 191 (byte_val c2) && in_range 128 191 (byte_val c3)) eqn:A;
      [|exact Dflt].
    apply andb_true_iff in A. destruct A as [A _]. apply andb_true_iff in A.
    destruct A as [A _]. apply in_range_iff in A.
    pose proof (accept_bounds (byte_val c0)) as B. specialize (S4 eq_refl).
    pose proof (byte_val_range c2). pose proof (byte_val_range c3).
    exists (String c0 (String c1 (String c2 (String c3 "")))), s4,
      (rune4 (byte_val c0) (byte_val c1) (byte_val c2) (byte_val c3)).
    repeat split; [simpl; lia|]. intros Hsp. apply IsSpace_bound in Hsp. exfalso.
    assert (L : byte_val c0 = 240 -> 144 <= byte_val c1)
      by (intros E; unfold accept_lo in A; rewrite E in A; simpl in A; lia).
    unfold rune4 in Hsp. zlia.
Qed.

Lemma decode_nil (y : string) : decode_runes y = [] -> y = "".
Proof.
  destruct y as [|c s]; [reflexivity|].
  destruct (decode_step c s) as [ch [rest [r0 [_ [_ [E _]]]]]]. rewrite E. discriminate.
Qed.

(** a string whose last decoded rune is a space ends with its encoding *)
Lemma decode_last_space (n : nat) : forall y rs r, (String.length y <= n)%nat ->
  decode_runes y = (rs ++ [r])%list -> IsSpace r = true -> exists p, y = p ++ encode_rune r.
Proof.
  induction n as [|n IH]; intros y rs r Hl Hd Hr.
  - destruct y; [destruct rs; discriminate | simpl in Hl; lia].
  - destruct y as [|c s]; [destruct rs; discriminate|].
    destruct (decode_step c s) as [ch [rest [r0 [Ey [Hlen [Ed Hch]]]]]].
    rewrite Ed in Hd. destruct rs as [|x rs].
    + simpl in Hd. injection Hd as <- Hrest. apply decode_nil in Hrest. subst rest.
      exists "". rewrite Ey, str_app_nil. apply Hch. exact Hr.
    + simpl in Hd. injection Hd as _ Hrest. simpl in Hl.
      destruct (IH rest rs r ltac:(lia) Hrest Hr) as [p Ep].
      exists (ch ++ p). rewrite Ey, Ep, str_app_assoc. reflexivity.
Qed.

(** ** Case folding and trimming *)

Lemma lower_runs_check :
  forallb (fun e => let '(_, _, _, delta) := e in
            forallb (fun s => negb (in_run e (s - delta))) space_runes) lower_runs = true.
Proof. vm_compute. reflexivity. Qed.

(** [unicode.ToLower] maps no rune that is not a space to a space *)
Lemma IsSpace_lower (r : Z) : IsSpace r = false -> IsSpace (unicode_ToLower r) = false.
Proof.
  intros Hr. unfold unicode_ToLower. destruct (r <=? 127) eqn:E.
  - destruct (in_range 65 90 r) eqn:A; [|exact Hr]. apply in_range_iff in A.
    assert (C : forallb (fun x => negb (IsSpace x)) (zrange 97 (Z.to_nat 26)) = true)
      by reflexivity.
    pose proof (forallb_zrange _ 97 (r + 32) 26 C ltac:(lia)) as H. cbv beta in H.
    apply negb_true_iff in H. exact H.
  - destruct (find (fun e => in_run e r) lower_runs) as [[[[lo hi] st] delta]|] eqn:F;
      [|exact Hr].
    apply find_some in F. destruct F as [Fin Fr].
    destruct (IsSpace (r + delta)) eqn:S; [|reflexivity]. exfalso.
    unfold IsSpace in S. apply existsb_exists in S. destruct S as [s [Hs Es]].
    apply Z.eqb_eq in Es.
    pose proof lower_runs_check as C. rewrite forallb_forall in C.
    specialize (C _ Fin). cbv beta iota in C. rewrite forallb_forall in C.
    specialize (C s Hs). replace (s - delta) with r in C by lia.
    rewrite Fr in C. discriminate.
Qed.

Lemma lower_ascii_ascii (c : ascii) : byte_val c < 128 -> byte_val (lower_ascii c) < 128.
Proof.
  destruct c as [b0 b1 b2 b3 b4 b5 b6 b7].
  destruct b0, b1, b2, b3, b4, b5, b6, b7; vm_compute; congruence.
Qed.

Lemma is_space_lower (c : ascii) : is_space (lower_ascii c) = is_space c.
Proof.
  destruct c as [b0 b1 b2 b3 b4 b5 b6 b7].
  destruct b0, b1, b2, b3, b4, b5, b6, b7; vm_compute; reflexivity.
Qed.

Lemma ascii_lower_empty (s : string) : String.eqb (ascii_lower s) "" = String.eqb s "".
Proof. destruct s; reflexivity. Qed.

Lemma rtrim_ascii_lower (s : string) :
  forall_bytes (fun c => byte_val c <? 128) s = true ->
  rtrim (ascii_lower s) = ascii_lower (rtrim s).
Proof.
  induction s as [|c s IH]; [reflexivity|]. simpl. intros H.
  apply andb_true_iff in H. destruct H as [Hc Hs]. apply Z.ltb_lt in Hc.
  rewrite (IH Hs), (space_seq_ascii (lower_ascii c)) by (apply lower_ascii_ascii; exact Hc).
  rewrite (space_seq_ascii c) by exact Hc. rewrite is_space_lower, ascii_lower_empty.
  destruct (is_space c && String.eqb (rtrim s) ""); reflexivity.
Qed.

(** [strings.ToLower] keeps a string that [TrimRightFunc] keeps so *)
Lemma rtrim_ToLower_fix (y : string) : rtrim y = y -> rtrim (ToLower y) = ToLower y.
Proof.
  intros Hy. unfold ToLower.
  destruct (forall_bytes (fun c => byte_val c <? 128) y) eqn:A.
  { rewrite rtrim_ascii_lower, Hy by exact A. reflexivity. }
  destruct (decode_runes y) as [|r0 rs0] eqn:D; [reflexivity|].
  destruct (exists_last (l := r0 :: rs0) ltac:(discriminate)) as [rs [r E]].
  rewrite E, map_app. change (map unicode_ToLower [r]) with [unicode_ToLower r].
  rewrite encode_runes_snoc.
  destruct (IsSpace r) eqn:S.
  - exfalso. rewrite E in D.
    destruct (decode_last_space (String.length y) y rs r (Nat.le_refl _) D S) as [p Ep].
    rewrite Ep, rtrim_app_space in Hy by
      (unfold is_space_seq, space_seqs; apply existsb_exists; exists (encode_rune r);
       split; [apply in_map; unfold IsSpace in S; apply existsb_exists in S;
               destruct S as [x [Hx Ex]]; apply Z.eqb_eq in Ex; subst x; exact Hx
              | apply String.eqb_refl]).
    pose proof (rtrim_length p) as L. rewrite Hy, str_length_app in L.
    pose proof (encode_nonempty r). lia.
  - apply rtrim_app_fix; [apply encode_lead|]. apply encode_fix, IsSpace_lower, S.
Qed.

Lemma find_map_update {A} (p : A -> bool) (f : A -> A) (l : list A) :
  (forall x, p x = true -> p (f x) = true) ->
  find p (map (fun x => if p x then f x else x) l) = option_map f (find p l).
Proof.
  intros Hf. induction l as [|a l IH]; simpl; [reflexivity|].
  destruct (p a) eqn:Ha; simpl.
  - rewrite (Hf a Ha). reflexivity.
  - rewrite Ha. exact IH.
Qed.

Lemma find_some_existsb {A} (p : A -> bool) (l : list A) x :
  find p l = Some x -> existsb p l = true.
Proof.
  intros H. apply existsb_exists. apply find_some in H. destruct H. eauto.
Qed.

(** ** UpsertChat *)

(** C2: an upsert of a stored chat never replaces its non-empty name by an
    empty one, and never lowers its last-activity timestamp; an older
    timestamp leaves it unchanged. *)
Theorem UpsertChat_monotone (d : DB) (jid kind name : string) (lastTS : time)
    (c : chat_row) :
  get_chat d jid = Some c ->
  exists c',
    get_chat (UpsertChat d jid kind name lastTS) jid = Some c'
    /\ (name = "" -> c_name c' = c_name c)
    /\ (forall t, c_last_message_ts c = Some t ->
          exists t', c_last_message_ts c' = Some t' /\ t <= t'
                     /\ (unix lastTS <= t -> t' = t)).
Proof.
  intros Hc. unfold UpsertChat, get_chat in *.
  rewrite (find_some_existsb _ _ _ Hc). unfold with_chats. simpl.
  rewrite find_map_update by (intros x Hx; exact Hx).
  rewrite Hc. simpl. eexists; split; [reflexivity|]. split.
  - intros ->. reflexivity.
  - intros t Ht. simpl. rewrite Ht.
    destruct (unix lastTS >? t) eqn:Hgt.
    + apply Z.gtb_lt in Hgt. exists (unix lastTS). repeat split; lia.
    + rewrite Z.gtb_ltb, Z.ltb_ge in Hgt. exists t. repeat split; lia.
Qed.

(** C2, witness: an upsert of chat "c" with an empty name. *)
Lemma UpsertChat_monotone_witness :
  get_chat (ex_db []) "c" = Some (ex_chat "c") /\
  exists c', get_chat (UpsertChat (ex_db []) "c" "dm" "" 50) "c" = Some c'
             /\ c_name c' = Some "Alice".
Proof.
  split; [reflexivity|].
  destruct (UpsertChat_monotone (ex_db []) "c" "dm" "" 50 (ex_chat "c") eq_refl)
    as [c' [H1 [H2 _]]].
  exists c'. split; [exact H1 | apply H2; reflexivity].
Defined.

(** ** ReplaceGroupParticipants *)

Lemma tx_insert_all_ok (fails : tx_step -> bool) (now : time) (g : string) :
  forall ps w w',
    tx_insert_all fails now w g ps = Ok w' ->
    group_jids w' = group_jids w
    /\ participants w' = (participants w ++ map (participant_row g now) ps)%list.
Proof.
  induction ps as [|p ps IH]; intros w w' H; simpl in H.
  - inversion H; subst. rewrite app_nil_r. split; reflexivity.
  - destruct (tx_insert fails now w g p) as [w1|e] eqn:H1; [|discriminate].
    destruct (IH _ _ H) as [Hg Hp]. unfold tx_insert in H1.
    destruct (fails (TxInsert (GP_UserJID p))); [discriminate|].
    destruct (existsb _ (participants w)); [discriminate|].
    destruct (negb (existsb (String.eqb g) (group_jids w))); [discriminate|].
    inversion H1; subst w1. simpl in *. split; [exact Hg|].
    rewrite Hp, <- app_assoc. reflexivity.
Qed.

(** C8: the participant set of the group is replaced as a whole (the
    other groups' rows kept, the group's old rows deleted, one row per new
    participant inserted), or, when any step fails, the error is returned
    and both tables are exactly as before. *)
Theorem ReplaceGroupParticipants_atomic (fails : tx_step -> bool) (now : time)
    (d : PartDB) (g : string) (ps : list GroupParticipant) :
  let (d', e) := ReplaceGroupParticipants fails now d g ps in
  (e = None ->
     group_jids d' = group_jids d
     /\ participants d' =
        (filter (fun r => negb (String.eqb (p_group_jid r) g)) (participants d)
         ++ map (participant_row g now) ps)%list)
  /\ (e <> None -> d' = d).
Proof.
  unfold ReplaceGroupParticipants.
  destruct (fails TxBegin); [split; [discriminate | reflexivity]|].
  destruct (fails TxDelete); [split; [discriminate | reflexivity]|].
  destruct (fails TxPrepare); [split; [discriminate | reflexivity]|].
  destruct (tx_insert_all fails now _ g ps) as [w'|e] eqn:H.
  - destruct (fails TxCommit); [split; [discriminate | reflexivity]|].
    apply tx_insert_all_ok in H. simpl in H. destruct H as [Hg Hp].
    split; [intros _; split; assumption | intros Hc; congruence].
  - split; [discriminate | reflexivity].
Qed.

(** ** BackfillHistory *)

Lemma backfill_round_continue (chatStr : string) (e : round_env) (r s r' s' : nat) :
  backfill_round chatStr e r s = NextRound r' s' \/ backfill_round chatStr e r s = Stopped r' s' ->
  r' = S r /\ s' = S s.
Proof.
  unfold backfill_round. cbv zeta.
  destruct (oldest e) as [oid|err]; [|intros [H|H]; discriminate H].
  destruct (request_err e) as [err|]; [intros [H|H]; discriminate H|].
  destruct (waited e) as [resp| |]; [|intros [H|H]; discriminate H|intros [H|H]; discriminate H].
  destruct (new_oldest e) as [id|err];
    repeat match goal with |- context [if ?b then _ else _] => destruct b end;
    intros [H|H]; try discriminate H; injection H as <- <-; split; reflexivity.
Qed.

(** rounds [i .. i + j - 1] go on to the next round and round [i + j] fails
    with [err] after counting its request *)
Lemma backfill_loop_fail_at (chatStr : string) (env : nat -> round_env) (e : round_env)
    (err : string) (j : nat) :
  (forall r s, backfill_round chatStr e r s = Failed (S r) s err) ->
  forall fuel i r s,
    (j < fuel)%nat ->
    (forall i' r s, (i <= i' < i + j)%nat ->
       exists r' s', backfill_round chatStr (env i') r s = NextRound r' s') ->
    env (i + j)%nat = e ->
    backfill_loop chatStr env fuel i r s = (S (r + j), (s + j)%nat, Some err).
Proof.
  intros Hround. induction j as [|j IH]; intros fuel i r s Hj Hnext He;
    (destruct fuel as [|fuel]; [lia|]); simpl.
  - rewrite Nat.add_0_r in He. rewrite He, Hround. rewrite !Nat.add_0_r. reflexivity.
  - destruct (Hnext i r s ltac:(lia)) as [r' [s' E]]. rewrite E.
    destruct (backfill_round_continue chatStr (env i) r s r' s' (or_introl E)) as [-> ->].
    rewrite (IH fuel (S i) (S r) (S s)); [f_equal; f_equal; lia | lia | |].
    + intros i' r1 s1 Hi. apply Hnext. lia.
    + rewrite <- He. f_equal. lia.
Qed.

(** C9 (as amended): a round that gets its correlated response adds one to
    both counters; a round whose wait times out has already counted its
    request, adds nothing to the response counter and fails; a backfill
    whose rounds [0 .. j - 1] each go on to the next round and whose round
    [j] (within the [Requests] rounds) times out ends its loop with [j + 1]
    requests sent and [j] responses seen, and returns the error and an
    empty result. *)
Theorem backfill_round_counters (chatStr : string) (e : round_env)
    (reqs resps : nat) (oldestID : string) :
  oldest e = Ok oldestID -> request_err e = None ->
  (forall resp, waited e = GotResponse resp ->
     match backfill_round chatStr e reqs resps with
     | NextRound r s | Stopped r s => r = S reqs /\ s = S resps
     | Failed _ _ _ => False
     end)
  /\ (waited e = TimedOut ->
        backfill_round chatStr e reqs resps
        = Failed (S reqs) resps "timed out waiting for on-demand history sync response"
        /\ forall (requests : Z) (env : nat -> round_env) (j : nat),
             Nat.lt j (Z.to_nat (if requests <=? 0 then 1 else requests)) ->
             (forall i r s, (i < j)%nat ->
                exists r' s', backfill_round chatStr (env i) r s = NextRound r' s') ->
             env j = e ->
             backfill_loop chatStr env (Z.to_nat (if requests <=? 0 then 1 else requests)) 0 0 0
             = (S j, j, Some "timed out waiting for on-demand history sync response")
             /\ BackfillHistory chatStr requests env
                = (empty_result, Some "timed out waiting for on-demand history sync response")).
Proof.
  intros Ho Hr. split.
  - intros resp Hw. unfold backfill_round. rewrite Ho, Hr, Hw.
    destruct (new_oldest e) as [id|err].
    + destruct (String.eqb id oldestID); [split; reflexivity|].
      destruct (resp_messages resp <=? 0); [split; reflexivity|].
      destruct (complete_no_more resp); split; reflexivity.
    + destruct (resp_messages resp <=? 0); [split; reflexivity|].
      destruct (complete_no_more resp); split; reflexivity.
  - intros Hw.
    assert (Hround : forall r s, backfill_round chatStr e r s
              = Failed (S r) s "timed out waiting for on-demand history sync response")
      by (intros r s; unfold backfill_round; rewrite Ho, Hr, Hw; reflexivity).
    split; [apply Hround|].
    intros requests env j Hj Hnext Henv.
    assert (L : backfill_loop chatStr env (Z.to_nat (if requests <=? 0 then 1 else requests)) 0 0 0
                = (S j, j, Some "timed out waiting for on-demand history sync response")).
    { apply (backfill_loop_fail_at chatStr env e _ j Hround _ 0 0 0 Hj).
      - intros i' r s Hi. apply Hnext. lia.
      - exact Henv. }
    split; [exact L|]. unfold BackfillHistory. cbv zeta. rewrite L. reflexivity.
Qed.

(** C9, witness: a round at counters (0, 0) that times out, and a backfill
    of three requests whose round 0 goes on and whose round 1 times out. *)
Lemma backfill_round_counters_witness :
  oldest (ex_round_env TimedOut) = Ok "m1" /\ request_err (ex_round_env TimedOut) = None /\
  backfill_round "c" (ex_round_env TimedOut) 0 0
  = Failed 1 0 "timed out waiting for on-demand history sync response"
  /\ backfill_loop "c" ex_env_timeout_at1 3 0 0 0
     = (2%nat, 1%nat, Some "timed out waiting for on-demand history sync response")
  /\ BackfillHistory "c" 3 ex_env_timeout_at1
     = (empty_result, Some "timed out waiting for on-demand history sync response").
Proof.
  split; [reflexivity|]. split; [reflexivity|].
  destruct (backfill_round_counters "c" (ex_round_env TimedOut) 0 0 "m1" eq_refl eq_refl)
    as [_ H]. destruct (H eq_refl) as [H1 H2].
  split; [exact H1|].
  assert (Hnext : forall i r s, (i < 1)%nat ->
            exists r' s', backfill_round "c" (ex_env_timeout_at1 i) r s = NextRound r' s').
  { intros i r s Hi. destruct i as [|i]; [|lia]. exists (S r), (S s). reflexivity. }
  exact (H2 3 ex_env_timeout_at1 1%nat ltac:(simpl; lia) Hnext eq_refl).
Defined.

(** C9, counterexample: a round that times out has already counted its
    request: the request counter goes from 0 to 1. *)
Lemma backfill_round_timeout_counts_request :
  backfill_round "c" (ex_round_env TimedOut) 0 0
  = Failed 1 0 "timed out waiting for on-demand history sync response".
Proof. reflexivity. Qed.

(** ** nullIfEmpty and the SQL helpers *)

Lemma nullIfEmpty_all_space (s : string) : all_space s = true -> nullIfEmpty s = None.
Proof.
  intros H. unfold nullIfEmpty, TrimSpace. rewrite (ltrim_all_space s H). reflexivity.
Qed.

Lemma nullIfEmpty_blank (s : string) : nullIfEmpty (blank s) = nullIfEmpty s.
Proof.
  unfold blank. destruct (all_space s) eqn:H; [|reflexivity].
  rewrite (nullIfEmpty_all_space s H). reflexivity.
Qed.

Lemma nullIfEmpty_not_empty (s v : string) : nullIfEmpty s = Some v -> v <> "".
Proof.
  unfold nullIfEmpty. destruct (String.eqb (TrimSpace s) "") eqn:E; [discriminate|].
  intros H. inversion H; subst. intros Hv. rewrite Hv in E. discriminate.
Qed.

Lemma NULLIF_nullIfEmpty (s : string) : NULLIF_empty (nullIfEmpty s) = nullIfEmpty s.
Proof.
  destruct (nullIfEmpty s) as [v|] eqn:E; [|reflexivity]. simpl.
  apply nullIfEmpty_not_empty in E. apply String.eqb_neq in E. rewrite E. reflexivity.
Qed.

Lemma case_nonempty_nullIfEmpty (s : string) (o : option string) :
  case_nonempty (nullIfEmpty s) o = COALESCE (nullIfEmpty s) o.
Proof.
  destruct (nullIfEmpty s) as [v|] eqn:E; [|reflexivity]. simpl.
  apply nullIfEmpty_not_empty in E. apply String.eqb_neq in E. rewrite E. reflexivity.
Qed.

Lemma COALESCE_idem {A} (a b : option A) : COALESCE a (COALESCE a b) = COALESCE a b.
Proof. destruct a; reflexivity. Qed.

Lemma COALESCE_same {A} (a : option A) : COALESCE a a = a.
Proof. destruct a; reflexivity. Qed.

Lemma case_nonempty_idem (a b : option string) :
  case_nonempty a (case_nonempty a b) = case_nonempty a b.
Proof. destruct a as [v|]; simpl; [destruct (negb (String.eqb v "")); reflexivity | reflexivity]. Qed.

Lemma keep_blob_idem (a b : blob) : keep_blob a (keep_blob a b) = keep_blob a b.
Proof. destruct a as [[|x l]|]; reflexivity. Qed.

Lemma keep_blob_same (a : blob) : keep_blob a a = a.
Proof. destruct a as [[|x l]|]; reflexivity. Qed.

Lemma case_positive_idem (a b : option Z) : case_positive a (case_positive a b) = case_positive a b.
Proof. destruct a as [v|]; simpl; [destruct (v >? 0); reflexivity | reflexivity]. Qed.

Lemma case_positive_same (a : option Z) : case_positive a a = a.
Proof. destruct a as [v|]; simpl; [destruct (v >? 0); reflexivity | reflexivity]. Qed.

(** ** The merge of the upsert clause *)

Lemma msg_merge_idem (r ex : msg_row) : msg_merge (msg_merge r ex) ex = msg_merge r ex.
Proof.
  unfold msg_merge at 1 3. simpl.
  rewrite !COALESCE_idem, case_nonempty_idem, !keep_blob_idem, case_positive_idem.
  reflexivity.
Qed.

Lemma msg_merge_excluded_self (p : UpsertMessageParams) :
  msg_merge (msg_excluded p) (msg_excluded p) = msg_excluded p.
Proof.
  unfold msg_merge. simpl.
  rewrite !NULLIF_nullIfEmpty, case_nonempty_nullIfEmpty, !COALESCE_same,
    !keep_blob_same.
  destruct (int64_of_uint64 (FileLength p) >? 0); reflexivity.
Qed.

Lemma row_key_is_merge (c i : string) (r ex : msg_row) :
  row_key_is c i (msg_merge r ex) = row_key_is c i r.
Proof. reflexivity. Qed.

Lemma row_key_is_spec (c i : string) (r : msg_row) :
  row_key_is c i r = true <-> msg_key r = (c, i).
Proof.
  unfold row_key_is, msg_key. rewrite andb_true_iff, !String.eqb_eq. split.
  - intros [-> ->]. reflexivity.
  - intros H. inversion H. split; reflexivity.
Qed.

Lemma row_key_is_excluded (p : UpsertMessageParams) :
  row_key_is (ChatJID p) (MsgID p) (msg_excluded p) = true.
Proof. apply row_key_is_spec. reflexivity. Qed.

Lemma existsb_false_forall {A} (f : A -> bool) (l : list A) :
  existsb f l = false -> forall x, In x l -> f x = false.
Proof.
  intros H x Hx. destruct (f x) eqn:E; [|reflexivity].
  assert (existsb f l = true) by (apply existsb_exists; eauto). congruence.
Qed.

Lemma filter_none {A} (f : A -> bool) (l : list A) :
  (forall x, In x l -> f x = false) -> filter f l = [].
Proof.
  induction l as [|a l IH]; simpl; intros H; [reflexivity|].
  rewrite (H a (or_introl eq_refl)). apply IH. intros x Hx. apply H. right. exact Hx.
Qed.

Lemma find_map_same {A} (q : A -> bool) (f : A -> A) (l : list A) :
  (forall x, q (f x) = q x) -> (forall x, q x = true -> f x = x) ->
  find q (map f l) = find q l.
Proof.
  intros H1 H2. induction l as [|a l IH]; simpl; [reflexivity|].
  rewrite H1. destruct (q a) eqn:E; [rewrite (H2 a E); reflexivity | exact IH].
Qed.

Lemma find_app_none {A} (q : A -> bool) (l1 l2 : list A) :
  find q l1 = None -> find q (l1 ++ l2) = find q l2.
Proof.
  induction l1 as [|a l1 IH]; simpl; [reflexivity|].
  destruct (q a); [discriminate | exact IH].
Qed.

Lemma find_none_existsb {A} (q : A -> bool) (l : list A) :
  existsb q l = false -> find q l = None.
Proof.
  induction l as [|a l IH]; simpl; [reflexivity|].
  destruct (q a); [discriminate | exact IH].
Qed.

Lemma unique_key_filter_le (c i : string) (ms : list msg_row) :
  NoDup (map msg_key ms) -> (List.length (filter (row_key_is c i) ms) <= 1)%nat.
Proof.
  induction ms as [|a ms IH]; simpl; [lia|].
  intros H. inversion H as [|? ? Hnot Hnd]; subst.
  destruct (row_key_is c i a) eqn:Ea; simpl.
  - rewrite filter_none; [simpl; lia|].
    intros x Hx. destruct (row_key_is c i x) eqn:Ex; [|reflexivity].
    exfalso. apply Hnot. apply row_key_is_spec in Ea, Ex.
    rewrite Ea, <- Ex. apply in_map. exact Hx.
  - apply IH. exact Hnd.
Qed.

(** ** The rows after an upsert *)

Lemma find_map_option {A} (q : A -> bool) (f : A -> A) (l : list A) :
  (forall x, q (f x) = q x) -> find q (map f l) = option_map f (find q l).
Proof.
  intros H. induction l as [|a l IH]; simpl; [reflexivity|].
  rewrite H. destruct (q a); [reflexivity | exact IH].
Qed.

Lemma find_app_single_false {A} (q : A -> bool) (l : list A) (x : A) :
  q x = false -> find q (l ++ [x]) = find q l.
Proof.
  intros Hx. induction l as [|a l IH]; simpl; [rewrite Hx; reflexivity|].
  destruct (q a); [reflexivity | exact IH].
Qed.

Lemma find_some_filter_length {A} (q : A -> bool) (l : list A) (x : A) :
  find q l = Some x -> (1 <= List.length (filter q l))%nat.
Proof.
  induction l as [|a l IH]; simpl; [discriminate|].
  destruct (q a); simpl; [lia | exact IH].
Qed.

Definition upd_fun (p : UpsertMessageParams) (r : msg_row) : msg_row :=
  if row_key_is (ChatJID p) (MsgID p) r then msg_merge r (msg_excluded p) else r.

Lemma row_key_is_upd (p : UpsertMessageParams) (c i : string) (r : msg_row) :
  row_key_is c i (upd_fun p r) = row_key_is c i r.
Proof. unfold upd_fun. destruct (row_key_is _ _ r); reflexivity. Qed.

Lemma msg_key_upd (p : UpsertMessageParams) (r : msg_row) :
  msg_key (upd_fun p r) = msg_key r.
Proof. unfold upd_fun. destruct (row_key_is _ _ r); reflexivity. Qed.

Lemma upsert_rows_eq (ms : list msg_row) (p : UpsertMessageParams) :
  upsert_rows ms p =
  if existsb (row_key_is (ChatJID p) (MsgID p)) ms then map (upd_fun p) ms
  else (ms ++ [msg_excluded p])%list.
Proof. reflexivity. Qed.

Lemma upsert_rows_new (ms : list msg_row) (p : UpsertMessageParams) :
  find (row_key_is (ChatJID p) (MsgID p)) ms = None ->
  find (row_key_is (ChatJID p) (MsgID p)) (upsert_rows ms p) = Some (msg_excluded p).
Proof.
  intros H. rewrite upsert_rows_eq.
  destruct (existsb _ ms) eqn:E.
  - apply existsb_exists in E. destruct E as [x [Hx Hk]].
    pose proof (find_none _ _ H x Hx). congruence.
  - rewrite find_app_none by exact H. simpl. rewrite row_key_is_excluded. reflexivity.
Qed.

Lemma upsert_rows_existing (ms : list msg_row) (p : UpsertMessageParams) (r : msg_row) :
  find (row_key_is (ChatJID p) (MsgID p)) ms = Some r ->
  find (row_key_is (ChatJID p) (MsgID p)) (upsert_rows ms p) = Some (msg_merge r (msg_excluded p)).
Proof.
  intros H. rewrite upsert_rows_eq.
  assert (E : existsb (row_key_is (ChatJID p) (MsgID p)) ms = true)
    by (eapply find_some_existsb; exact H).
  rewrite E, find_map_option by apply row_key_is_upd. rewrite H. simpl.
  unfold upd_fun. apply find_some in H. destruct H as [_ Hk]. rewrite Hk. reflexivity.
Qed.

Lemma upsert_rows_other (ms : list msg_row) (p : UpsertMessageParams) (c i : string) :
  (c, i) <> (ChatJID p, MsgID p) ->
  find (row_key_is c i) (upsert_rows ms p) = find (row_key_is c i) ms.
Proof.
  intros Hne. rewrite upsert_rows_eq.
  destruct (existsb _ ms).
  - rewrite find_map_option by apply row_key_is_upd.
    destruct (find (row_key_is c i) ms) as [x|] eqn:F; [|reflexivity]. simpl.
    apply find_some in F. destruct F as [_ Hx]. unfold upd_fun.
    destruct (row_key_is (ChatJID p) (MsgID p) x) eqn:Hk; [|reflexivity].
    apply row_key_is_spec in Hx, Hk. congruence.
  - apply find_app_single_false.
    destruct (row_key_is c i (msg_excluded p)) eqn:Hk; [|reflexivity].
    apply row_key_is_spec in Hk. unfold msg_key in Hk. simpl in Hk. congruence.
Qed.

Lemma upsert_rows_keys (ms : list msg_row) (p : UpsertMessageParams) :
  NoDup (map msg_key ms) -> NoDup (map msg_key (upsert_rows ms p)).
Proof.
  intros H. rewrite upsert_rows_eq.
  destruct (existsb _ ms) eqn:E.
  - rewrite map_map. erewrite map_ext by apply msg_key_upd. exact H.
  - rewrite map_app. simpl.
    apply (Permutation_NoDup (Permutation_cons_append _ _)).
    constructor; [|exact H].
    intros Hin. apply in_map_iff in Hin. destruct Hin as [x [Hx Hin]].
    pose proof (existsb_false_forall _ _ E x Hin) as Hf.
    assert (row_key_is (ChatJID p) (MsgID p) x = true)
      by (apply row_key_is_spec; rewrite Hx; reflexivity).
    congruence.
Qed.

Lemma existsb_map_same {A} (q : A -> bool) (f : A -> A) (l : list A) :
  (forall x, q (f x) = q x) -> existsb q (map f l) = existsb q l.
Proof.
  intros H. induction l as [|a l IH]; simpl; [reflexivity|]. rewrite H, IH. reflexivity.
Qed.

Lemma upsert_rows_idem (ms : list msg_row) (p : UpsertMessageParams) :
  upsert_rows (upsert_rows ms p) p = upsert_rows ms p.
Proof.
  rewrite (upsert_rows_eq ms p).
  destruct (existsb (row_key_is (ChatJID p) (MsgID p)) ms) eqn:E.
  - rewrite upsert_rows_eq, existsb_map_same by apply row_key_is_upd. rewrite E.
    rewrite map_map. apply map_ext. intros r. unfold upd_fun.
    destruct (row_key_is (ChatJID p) (MsgID p) r) eqn:Hk; [|rewrite Hk; reflexivity].
    rewrite row_key_is_merge, Hk. apply msg_merge_idem.
  - rewrite upsert_rows_eq, existsb_app. simpl. rewrite row_key_is_excluded, orb_true_r.
    rewrite map_app. simpl. unfold upd_fun at 2. rewrite row_key_is_excluded, msg_merge_excluded_self.
    f_equal. rewrite <- (map_id ms) at 2. apply map_ext_in. intros r Hr.
    unfold upd_fun. rewrite (existsb_false_forall _ _ E r Hr). reflexivity.
Qed.

Lemma UpsertMessage_ok (d d' : DB) (p : UpsertMessageParams) :
  UpsertMessage d p = Ok d' -> d' = with_messages d (upsert_rows (messages d) p).
Proof.
  unfold UpsertMessage. destruct (negb _); [discriminate|]. intros H. inversion H. reflexivity.
Qed.

Lemma UpsertMessage_get_row_new (d d' : DB) (p : UpsertMessageParams) :
  UpsertMessage d p = Ok d' -> get_row d (ChatJID p) (MsgID p) = None ->
  get_row d' (ChatJID p) (MsgID p) = Some (msg_excluded p).
Proof.
  intros H. apply UpsertMessage_ok in H. subst. apply upsert_rows_new.
Qed.

Lemma UpsertMessage_get_row_existing (d d' : DB) (p : UpsertMessageParams) (r : msg_row) :
  UpsertMessage d p = Ok d' -> get_row d (ChatJID p) (MsgID p) = Some r ->
  get_row d' (ChatJID p) (MsgID p) = Some (msg_merge r (msg_excluded p)).
Proof.
  intros H. apply UpsertMessage_ok in H. subst. apply upsert_rows_existing.
Qed.

Lemma UpsertMessage_get_row (d d' : DB) (p : UpsertMessageParams) :
  UpsertMessage d p = Ok d' ->
  get_row d' (ChatJID p) (MsgID p) =
  Some (match get_row d (ChatJID p) (MsgID p) with
        | Some r => msg_merge r (msg_excluded p)
        | None => msg_excluded p
        end).
Proof.
  intros H. destruct (get_row d (ChatJID p) (MsgID p)) eqn:G.
  - eapply UpsertMessage_get_row_existing; eauto.
  - eapply UpsertMessage_get_row_new; eauto.
Qed.

Lemma UpsertMessage_chats (d d' : DB) (p : UpsertMessageParams) :
  UpsertMessage d p = Ok d' -> chats d' = chats d /\ ftsEnabled d' = ftsEnabled d.
Proof. intros H. apply UpsertMessage_ok in H. subst. split; reflexivity. Qed.

(** ** C1 *)

(** C1 (as the code has it). Under the table invariant [UNIQUE(chat_jid,
    msg_id)], a successful upsert keeps the keys unique and leaves exactly
    one row for its key; rows of other keys are untouched; a new key gets
    the bound row. On an existing row, chat_name, sender_name, display_text,
    filename, mime_type, direct_path, reaction_to_id and reaction_emoji keep
    the stored value when the incoming one is empty; the three byte fields
    keep it when the incoming blob is empty; file_length keeps it unless the
    incoming one is positive; ts and from_me are overwritten; sender_jid,
    text, media_type and media_caption are overwritten as well, with NULL
    when the incoming value is empty; local_path and downloaded_at are kept.
    Re-applying the same upsert changes nothing. *)
Theorem UpsertMessage_merge_rules (d d' : DB) (p : UpsertMessageParams) :
  keys_unique d -> UpsertMessage d p = Ok d' ->
  keys_unique d' /\
  count_key d' (ChatJID p) (MsgID p) = 1%nat /\
  (forall c i, (c, i) <> (ChatJID p, MsgID p) -> get_row d' c i = get_row d c i) /\
  (get_row d (ChatJID p) (MsgID p) = None ->
   get_row d' (ChatJID p) (MsgID p) = Some (msg_excluded p)) /\
  (forall r, get_row d (ChatJID p) (MsgID p) = Some r ->
   exists r', get_row d' (ChatJID p) (MsgID p) = Some r' /\
     (forall fp fr, In (fp, fr) keep_string_fields ->
        fr r' = COALESCE (nullIfEmpty (fp p)) (fr r)) /\
     (forall fp fr, In (fp, fr) keep_blob_fields -> fr r' = keep_blob (fp p) (fr r)) /\
     m_file_length r' = (if int64_of_uint64 (FileLength p) >? 0
                         then Some (int64_of_uint64 (FileLength p))
                         else m_file_length r) /\
     m_ts r' = unix (Timestamp p) /\
     m_from_me r' = boolToInt (FromMe p) /\
     (forall fp fr, In (fp, fr) overwrite_string_fields -> fr r' = nullIfEmpty (fp p)) /\
     m_local_path r' = m_local_path r /\
     m_downloaded_at r' = m_downloaded_at r) /\
  UpsertMessage d' p = Ok d'.
Proof.
  intros Hu Hok.
  assert (Hce : chat_exists d (ChatJID p) = true).
  { unfold UpsertMessage in Hok.
    destruct (chat_exists d (ChatJID p)); [reflexivity | discriminate]. }
  pose proof (UpsertMessage_get_row d d' p Hok) as Hg.
  apply UpsertMessage_ok in Hok. subst d'.
  assert (Hu' : keys_unique (with_messages d (upsert_rows (messages d) p)))
    by (apply upsert_rows_keys; exact Hu).
  split; [exact Hu'|]. split.
  { unfold count_key.
    pose proof (unique_key_filter_le (ChatJID p) (MsgID p) _ Hu').
    pose proof (find_some_filter_length _ _ _ Hg). lia. }
  split; [intros c i Hne; apply upsert_rows_other; exact Hne|].
  split; [intros Hn; apply upsert_rows_new; exact Hn|].
  split.
  - intros r Hr. exists (msg_merge r (msg_excluded p)).
    split; [apply upsert_rows_existing; exact Hr|].
    split.
    { intros fp fr Hin. simpl in Hin.
      repeat (destruct Hin as [Hin|Hin];
              [inversion Hin; subst; simpl;
               rewrite ?NULLIF_nullIfEmpty, ?case_nonempty_nullIfEmpty; reflexivity|]).
      destruct Hin. }
    split.
    { intros fp fr Hin. simpl in Hin.
      repeat (destruct Hin as [Hin|Hin]; [inversion Hin; subst; reflexivity|]).
      destruct Hin. }
    split; [reflexivity|]. split; [reflexivity|]. split; [reflexivity|].
    split.
    { intros fp fr Hin. simpl in Hin.
      repeat (destruct Hin as [Hin|Hin]; [inversion Hin; subst; reflexivity|]).
      destruct Hin. }
    split; reflexivity.
  - unfold UpsertMessage.
    change (chat_exists (with_messages d (upsert_rows (messages d) p)) (ChatJID p))
      with (chat_exists d (ChatJID p)).
    rewrite Hce. simpl. unfold with_messages. simpl. rewrite upsert_rows_idem. reflexivity.
Qed.

(** C1, witness: a repeated upsert of a stored message. *)
Lemma UpsertMessage_merge_rules_witness :
  keys_unique (ex_db [ex_row "c" "m1" 100 "hello"]) /\
  UpsertMessage (ex_db [ex_row "c" "m1" 100 "hello"]) (ex_params "c" "m1" 100 "hello")
    = Ok (ex_db [ex_row "c" "m1" 100 "hello"]) /\
  count_key (ex_db [ex_row "c" "m1" 100 "hello"]) "c" "m1" = 1%nat.
Proof.
  assert (Hk : keys_unique (ex_db [ex_row "c" "m1" 100 "hello"])).
  { constructor; [intros Hin; inversion Hin | constructor]. }
  assert (Ho : UpsertMessage (ex_db [ex_row "c" "m1" 100 "hello"])
                 (ex_params "c" "m1" 100 "hello") = Ok (ex_db [ex_row "c" "m1" 100 "hello"]))
    by reflexivity.
  split; [exact Hk|]. split; [exact Ho|].
  destruct (UpsertMessage_merge_rules _ _ _ Hk Ho) as [_ [Hc _]]. exact Hc.
Defined.

(** C1, counterexample: upserting a stored message again with an empty
    text does not keep the stored text "hello": the text column is
    overwritten with NULL. *)
Lemma UpsertMessage_empty_text_overwrites :
  Text (ex_params "c" "m1" 100 "") = "" /\
  option_map m_text (get_row (ex_db [ex_row "c" "m1" 100 "hello"]) "c" "m1")
    = Some (Some "hello") /\
  match UpsertMessage (ex_db [ex_row "c" "m1" 100 "hello"]) (ex_params "c" "m1" 100 "") with
  | Ok d' => option_map m_text (get_row d' "c" "m1") = Some None
  | Err _ => False
  end.
Proof. vm_compute. repeat split. Qed.

(** ** C10 *)

Lemma msg_excluded_blank (p : UpsertMessageParams) :
  msg_excluded (blank_params p) = msg_excluded p.
Proof. unfold msg_excluded. simpl. rewrite !nullIfEmpty_blank. reflexivity. Qed.

(** C10. Each of the twelve string parameters that is empty or only
    whitespace is bound as NULL; so an upsert with such values is the same
    operation as one with empty strings in their place, and on an existing
    row such a value never replaces the stored value of a keep-non-empty
    column. *)
Theorem UpsertMessage_blank_is_null (d : DB) (p : UpsertMessageParams) :
  (forall fp fr, In (fp, fr) (keep_string_fields ++ overwrite_string_fields) ->
     all_space (fp p) = true -> fr (msg_excluded p) = None) /\
  UpsertMessage d (blank_params p) = UpsertMessage d p /\
  (forall d' r fp fr, In (fp, fr) keep_string_fields -> all_space (fp p) = true ->
     UpsertMessage d p = Ok d' -> get_row d (ChatJID p) (MsgID p) = Some r ->
     exists r', get_row d' (ChatJID p) (MsgID p) = Some r' /\ fr r' = fr r).
Proof.
  split; [|split].
  - intros fp fr Hin Hsp. simpl in Hin.
    repeat (destruct Hin as [Hin|Hin];
            [inversion Hin; subst; simpl; apply nullIfEmpty_all_space; exact Hsp|]).
    destruct Hin.
  - unfold UpsertMessage, upsert_rows.
    change (ChatJID (blank_params p)) with (ChatJID p).
    change (MsgID (blank_params p)) with (MsgID p).
    rewrite msg_excluded_blank. reflexivity.
  - intros d' r fp fr Hin Hsp Hok Hr.
    exists (msg_merge r (msg_excluded p)).
    split; [eapply UpsertMessage_get_row_existing; eauto|].
    simpl in Hin.
    repeat (destruct Hin as [Hin|Hin];
            [inversion Hin; subst; simpl; rewrite (nullIfEmpty_all_space _ Hsp); reflexivity|]).
    destruct Hin.
Qed.

(** ** Trimmed display texts *)

Lemma mediaLabel_trimmed (t : string) : rtrim (mediaLabel t) = mediaLabel t /\ mediaLabel t <> "".
Proof.
  unfold mediaLabel. cbv zeta.
  repeat match goal with
         | |- context [if String.eqb ?a ?b then _ else _] => destruct (String.eqb a b) eqn:?
         end; try (split; [reflexivity | discriminate]).
  split.
  - apply rtrim_ToLower_fix, rtrim_TrimSpace.
  - apply String.eqb_neq. assumption.
Qed.

Lemma sent_label_trimmed (t : string) :
  rtrim ("Sent " ++ mediaLabel t) = "Sent " ++ mediaLabel t /\ "Sent " ++ mediaLabel t <> "".
Proof.
  destruct (mediaLabel_trimmed t) as [H1 H2].
  split; [apply (rtrim_ascii_app "Sent "); [reflexivity | exact H2 | exact H1] | discriminate].
Qed.

Lemma nonempty_or_trimmed (x dflt : string) :
  rtrim x = x -> rtrim dflt = dflt -> dflt <> "" ->
  rtrim (if String.eqb x "" then dflt else x) = (if String.eqb x "" then dflt else x) /\
  (if String.eqb x "" then dflt else x) <> "".
Proof.
  intros Hx Hd Hne. destruct (String.eqb x "") eqn:E; [split; assumption|].
  split; [exact Hx | apply String.eqb_neq; exact E].
Qed.

Lemma lookup_trimmed (d : DB) (c i : string) :
  rtrim (lookupMessageDisplayText d c i) = lookupMessageDisplayText d c i.
Proof.
  unfold lookupMessageDisplayText.
  destruct (String.eqb (TrimSpace c) "" || String.eqb (TrimSpace i) ""); [reflexivity|].
  destruct (GetMessage d c i) as [m|]; [|reflexivity]. cbv zeta.
  destruct (negb (String.eqb (TrimSpace (Msg.DisplayText m)) "")); [apply rtrim_TrimSpace|].
  destruct (negb (String.eqb (TrimSpace (Msg.Text m)) "")); [apply rtrim_TrimSpace|].
  destruct (negb (String.eqb (TrimSpace (Msg.MediaType m)) "")); [apply sent_label_trimmed|].
  reflexivity.
Qed.

Lemma base_trimmed (pm : wa.ParsedMessage) :
  rtrim (baseDisplayText pm) = baseDisplayText pm.
Proof.
  unfold baseDisplayText. destruct (wa.Media_ pm); [apply sent_label_trimmed|].
  cbv zeta. destruct (negb _); [apply rtrim_TrimSpace | reflexivity].
Qed.

(** ** Ingestion *)

Lemma lookup_messages (d1 d2 : DB) (c i : string) :
  messages d1 = messages d2 ->
  lookupMessageDisplayText d1 c i = lookupMessageDisplayText d2 c i.
Proof.
  intros H. unfold lookupMessageDisplayText, GetMessage, get_row. rewrite H.
  destruct (String.eqb (TrimSpace c) "" || String.eqb (TrimSpace i) ""); [reflexivity|].
  destruct (find (row_key_is c i) (messages d2)); reflexivity.
Qed.

Lemma buildDisplayText_messages (d1 d2 : DB) (pm : wa.ParsedMessage) :
  messages d1 = messages d2 -> buildDisplayText d1 pm = buildDisplayText d2 pm.
Proof.
  intros H. unfold buildDisplayText. cbv zeta.
  rewrite !(lookup_messages d1 d2 _ _ H). reflexivity.
Qed.

Lemma UpsertChat_messages (d : DB) (jid kind name : string) (lastTS : time) :
  messages (UpsertChat d jid kind name lastTS) = messages d.
Proof. unfold UpsertChat. destruct (existsb _ _); reflexivity. Qed.

Lemma UpsertChat_exists (d : DB) (jid kind name : string) (lastTS : time) :
  chat_exists (UpsertChat d jid kind name lastTS) jid = true.
Proof.
  unfold chat_exists, UpsertChat.
  destruct (existsb (fun c => String.eqb (c_jid c) jid) (chats d)) eqn:E; simpl.
  - rewrite existsb_map_same; [exact E|].
    intros x. destruct (String.eqb (c_jid x) jid) eqn:Ex; [simpl; exact Ex | exact Ex].
  - rewrite existsb_app. simpl. rewrite String.eqb_refl. apply orb_true_r.
Qed.

(** a non-empty trimmed display text reaches the stored row *)
Lemma storeParsedMessage_display (d : DB) (pm : wa.ParsedMessage)
    (chatName kind senderName v : string) :
  nullIfEmpty (buildDisplayText d pm) = Some v ->
  exists d', storeParsedMessage d pm chatName kind senderName = Ok d' /\
    option_map m_display_text (get_row d' (wa.Chat pm) (wa.ID pm)) = Some (Some v).
Proof.
  intros Hv. unfold storeParsedMessage. cbv zeta.
  set (d1 := UpsertChat d (wa.Chat pm) kind chatName (wa.Timestamp pm)).
  rewrite (buildDisplayText_messages d1 d pm) by apply UpsertChat_messages.
  match goal with |- exists d', UpsertMessage d1 ?p = Ok d' /\ _ => set (q := p) end.
  assert (Hok : UpsertMessage d1 q = Ok (with_messages d1 (upsert_rows (messages d1) q))).
  { unfold UpsertMessage. change (ChatJID q) with (wa.Chat pm).
    unfold d1. rewrite UpsertChat_exists. reflexivity. }
  exists (with_messages d1 (upsert_rows (messages d1) q)). split; [exact Hok|].
  pose proof (UpsertMessage_get_row _ _ _ Hok) as Hg.
  change (ChatJID q) with (wa.Chat pm) in Hg. change (MsgID q) with (wa.ID pm) in Hg.
  rewrite Hg. simpl.
  assert (Hd : m_display_text (msg_excluded q) = Some v) by exact Hv.
  destruct (get_row d1 (wa.Chat pm) (wa.ID pm)) as [r|]; [|rewrite Hd; reflexivity].
  change (m_display_text (msg_merge r (msg_excluded q)))
    with (case_nonempty (m_display_text (msg_excluded q)) (m_display_text r)).
  rewrite Hd. simpl. apply nullIfEmpty_not_empty in Hv.
  apply String.eqb_neq in Hv. rewrite Hv. reflexivity.
Qed.

Lemma quoted_trimmed (d : DB) (c i inline : string) :
  let q := if String.eqb (TrimSpace inline) "" then lookupMessageDisplayText d c i
           else TrimSpace inline in
  rtrim (if String.eqb q "" then "message" else q) = (if String.eqb q "" then "message" else q)
  /\ (if String.eqb q "" then "message" else q) <> "".
Proof.
  intros q. apply nonempty_or_trimmed; [|reflexivity|discriminate].
  unfold q. destruct (String.eqb (TrimSpace inline) "");
    [apply lookup_trimmed | apply rtrim_TrimSpace].
Qed.


(** ** C5 *)

(** C5. For an ingested message that replies to [ReplyToID] and is not a
    reaction, the stored display text is "> ", the quoted text (the inline
    quoted text trimmed, else the stored target's display text, else its
    text, else its media label, else "message"), a newline, and the
    message's own base text, or "(message)" when that is empty. *)
Theorem storeParsedMessage_reply_display (d : DB) (pm : wa.ParsedMessage)
    (chatName kind senderName : string) :
  wa.ReplyToID pm <> "" -> wa.ReactionToID pm = "" -> TrimSpace (wa.ReactionEmoji pm) = "" ->
  exists d', storeParsedMessage d pm chatName kind senderName = Ok d' /\
    option_map m_display_text (get_row d' (wa.Chat pm) (wa.ID pm)) =
    Some (Some ("> " ++
                (let quoted := TrimSpace (wa.ReplyToDisplay pm) in
                 let quoted := if String.eqb quoted ""
                               then lookupMessageDisplayText d (wa.Chat pm) (wa.ReplyToID pm)
                               else quoted in
                 if String.eqb quoted "" then "message" else quoted)
                ++ String "010"%char "" ++
                (let base := baseDisplayText pm in
                 if String.eqb base "" then "(message)" else base))).
Proof.
  intros H1 H2 H3. apply storeParsedMessage_display.
  unfold buildDisplayText. cbv zeta.
  assert (Hc : (negb (String.eqb (wa.ReactionToID pm) "")
                || negb (String.eqb (TrimSpace (wa.ReactionEmoji pm)) "")) = false)
    by (rewrite H2, H3; reflexivity).
  assert (Hr : negb (String.eqb (wa.ReplyToID pm) "") = true)
    by (apply negb_true_iff, String.eqb_neq; exact H1).
  rewrite Hc, Hr. cbv beta iota.
  destruct (quoted_trimmed d (wa.Chat pm) (wa.ReplyToID pm) (wa.ReplyToDisplay pm)) as [HQ1 HQ2].
  destruct (nonempty_or_trimmed (baseDisplayText pm) "(message)" (base_trimmed pm) eq_refl
              ltac:(discriminate)) as [HB1 HB2].
  cbv zeta in HQ1, HQ2.
  revert HQ1 HQ2 HB1 HB2.
  generalize (if String.eqb (baseDisplayText pm) "" then "(message)" else baseDisplayText pm).
  generalize (if String.eqb (if String.eqb (TrimSpace (wa.ReplyToDisplay pm)) ""
                             then lookupMessageDisplayText d (wa.Chat pm) (wa.ReplyToID pm)
                             else TrimSpace (wa.ReplyToDisplay pm)) ""
              then "message"
              else if String.eqb (TrimSpace (wa.ReplyToDisplay pm)) ""
                   then lookupMessageDisplayText d (wa.Chat pm) (wa.ReplyToID pm)
                   else TrimSpace (wa.ReplyToDisplay pm)).
  intros Q B HQ1 HQ2 HB1 HB2.
  assert (Hn : rtrim (String "010"%char "" ++ B) = String "010"%char "" ++ B)
    by (apply (rtrim_ascii_app (String "010"%char "")); [reflexivity | exact HB2 | exact HB1]).
  assert (Hq : rtrim (Q ++ String "010"%char "" ++ B) = Q ++ String "010"%char "" ++ B)
    by (apply rtrim_app_fix; [reflexivity | exact Hn]).
  apply nullIfEmpty_fix; [reflexivity | reflexivity |].
  apply (rtrim_ascii_app "> "); [reflexivity | | exact Hq].
  apply app_nonempty, app_nonempty, HB2.
Qed.

(** C5, witness: the reply "reply text" quoting "quoted text". *)
Lemma storeParsedMessage_reply_display_witness :
  wa.ReplyToID (ex_parsed "r1" "reply text" "m1" "quoted text" "" "") <> "" /\
  exists d', storeParsedMessage (ex_db [ex_row "c" "m1" 100 "hello"])
               (ex_parsed "r1" "reply text" "m1" "quoted text" "" "") "Alice" "dm" "" = Ok d' /\
    option_map m_display_text (get_row d' "c" "r1")
    = Some (Some ("> quoted text" ++ String "010"%char "" ++ "reply text")).
Proof.
  split; [discriminate|].
  destruct (storeParsedMessage_reply_display (ex_db [ex_row "c" "m1" 100 "hello"])
              (ex_parsed "r1" "reply text" "m1" "quoted text" "" "") "Alice" "dm" ""
              ltac:(discriminate) eq_refl eq_refl) as [d' [Hs Hd]].
  exists d'. split; [exact Hs|]. etransitivity; [exact Hd | reflexivity].
Defined.

(** ** C6 *)




(** ** Sorted selections *)

Lemma StronglySorted_app_inv {A} (R : A -> A -> Prop) (l1 l2 : list A) :
  StronglySorted R (l1 ++ l2) ->
  StronglySorted R l1 /\ StronglySorted R l2 /\ (forall a b, In a l1 -> In b l2 -> R a b).
Proof.
  induction l1 as [|a l1 IH]; simpl; intros H.
  - split; [constructor | split; [exact H | intros a b []]].
  - apply StronglySorted_inv in H. destruct H as [H1 H2].
    destruct (IH H1) as [S1 [S2 Hx]].
    apply Forall_app in H2. destruct H2 as [F1 F2].
    split; [constructor; assumption|]. split; [exact S2|].
    intros x y [<-|Hx1] Hy; [|apply Hx; assumption].
    rewrite Forall_forall in F2. apply F2. exact Hy.
Qed.

Lemma StronglySorted_app {A} (R : A -> A -> Prop) (l1 l2 : list A) :
  StronglySorted R l1 -> StronglySorted R l2 ->
  (forall a b, In a l1 -> In b l2 -> R a b) -> StronglySorted R (l1 ++ l2).
Proof.
  induction l1 as [|a l1 IH]; simpl; intros H1 H2 Hx; [exact H2|].
  apply StronglySorted_inv in H1. destruct H1 as [S1 F1].
  constructor.
  - apply IH; [exact S1 | exact H2 | intros x y Hx1 Hy; apply Hx; [right|]; assumption].
  - apply Forall_app. split; [exact F1|].
    apply Forall_forall. intros y Hy. apply Hx; [left; reflexivity | exact Hy].
Qed.

Lemma StronglySorted_rev {A} (R : A -> A -> Prop) (l : list A) :
  StronglySorted R l -> StronglySorted (fun a b => R b a) (rev l).
Proof.
  induction l as [|a l IH]; simpl; intros H; [constructor|].
  apply StronglySorted_inv in H. destruct H as [S F].
  apply StronglySorted_app; [apply IH; exact S | repeat constructor |].
  intros x y Hx [<-|[]]. apply in_rev in Hx.
  rewrite Forall_forall in F. apply F. exact Hx.
Qed.

Lemma in_firstn {A} (n : nat) (l : list A) (x : A) : In x (firstn n l) -> In x l.
Proof.
  intros H. rewrite <- (firstn_skipn n l). apply in_or_app. left. exact H.
Qed.

Lemma sql_limit_firstn {A} (n : Z) (l : list A) :
  0 <= n -> sql_limit n l = firstn (Z.to_nat n) l.
Proof.
  intros H. unfold sql_limit. destruct (n <? 0) eqn:E; [apply Z.ltb_lt in E; lia | reflexivity].
Qed.

Lemma select_ordered_in (rows : list msg_row) (pred : msg_row -> bool)
    (ord : list msg_row -> Prop) (lim : Z) (out : list msg_row) (x : msg_row) :
  select_ordered rows pred ord lim out -> In x out -> In x rows /\ pred x = true.
Proof.
  intros [l [Hp [_ ->]]] Hx. apply filter_In.
  apply (Permutation_in _ Hp).
  unfold sql_limit in Hx. destruct (lim <? 0); [exact Hx | eapply in_firstn; exact Hx].
Qed.

Lemma select_ordered_length (rows : list msg_row) (pred : msg_row -> bool)
    (ord : list msg_row -> Prop) (lim : Z) (out : list msg_row) :
  0 <= lim -> select_ordered rows pred ord lim out -> (List.length out <= Z.to_nat lim)%nat.
Proof.
  intros Hl [l [_ [_ ->]]]. rewrite sql_limit_firstn by exact Hl.
  rewrite length_firstn. lia.
Qed.

Lemma select_ordered_sorted (rows : list msg_row) (pred : msg_row -> bool)
    (R : msg_row -> msg_row -> Prop) (lim : Z) (out : list msg_row) :
  (forall a b c, R a b -> R b c -> R a c) ->
  select_ordered rows pred (Sorted R) lim out -> StronglySorted R out.
Proof.
  intros Ht [l [_ [Hs ->]]]. apply Sorted_StronglySorted in Hs; [|exact Ht].
  unfold sql_limit. destruct (lim <? 0); [exact Hs|].
  rewrite <- (firstn_skipn (Z.to_nat lim) l) in Hs.
  apply StronglySorted_app_inv in Hs. apply Hs.
Qed.

(** a row the query selects and the result does not hold is preceded, in
    the order of the query, by a full [LIMIT] of rows *)
Lemma select_ordered_complete (rows : list msg_row) (pred : msg_row -> bool)
    (R : msg_row -> msg_row -> Prop) (lim : Z) (out : list msg_row) (x : msg_row) :
  (forall a b c, R a b -> R b c -> R a c) -> 0 <= lim ->
  select_ordered rows pred (Sorted R) lim out ->
  In x rows -> pred x = true ->
  In x out \/ (List.length out = Z.to_nat lim /\ forall y, In y out -> R y x).
Proof.
  intros Ht Hl [l [Hp [Hs ->]]] Hx Hpx.
  rewrite sql_limit_firstn by exact Hl.
  assert (Hxl : In x l)
    by (apply (Permutation_in _ (Permutation_sym Hp)); apply filter_In; split; assumption).
  apply Sorted_StronglySorted in Hs; [|exact Ht].
  rewrite <- (firstn_skipn (Z.to_nat lim) l) in Hxl, Hs.
  apply in_app_or in Hxl. destruct Hxl as [Hin|Hin]; [left; exact Hin|].
  right. split.
  - rewrite length_firstn. assert (Hlen : (0 < List.length (skipn (Z.to_nat lim) l))%nat)
      by (destruct (skipn (Z.to_nat lim) l); [destruct Hin | simpl; lia]).
    rewrite length_skipn in Hlen. lia.
  - intros y Hy. apply StronglySorted_app_inv in Hs. destruct Hs as [_ [_ Hc]].
    apply Hc; assumption.
Qed.

(** ** The executable selection *)

Lemma insert_by_perm (le : msg_row -> msg_row -> bool) (x : msg_row) (l : list msg_row) :
  Permutation (insert_by le x l) (x :: l).
Proof.
  induction l as [|y l IH]; simpl; [reflexivity|].
  destruct (le x y); [reflexivity|].
  transitivity (y :: x :: l); [constructor; exact IH | constructor].
Qed.

Lemma sort_by_perm (le : msg_row -> msg_row -> bool) (l : list msg_row) :
  Permutation (sort_by le l) l.
Proof.
  induction l as [|x l IH]; simpl; [reflexivity|].
  rewrite insert_by_perm. constructor. exact IH.
Qed.

Section InsertSort.
Variable le : msg_row -> msg_row -> bool.
Hypothesis le_total : forall a b, le a b = false -> le b a = true.

Lemma insert_by_hd (y x : msg_row) (l : list msg_row) :
  HdRel (fun a b => le a b = true) y l -> le y x = true ->
  HdRel (fun a b => le a b = true) y (insert_by le x l).
Proof.
  intros H Hyx. destruct l as [|z l]; simpl; [constructor; exact Hyx|].
  destruct (le x z); constructor; [exact Hyx|]. inversion H. assumption.
Qed.

Lemma insert_by_sorted (x : msg_row) (l : list msg_row) :
  Sorted (fun a b => le a b = true) l -> Sorted (fun a b => le a b = true) (insert_by le x l).
Proof.
  induction l as [|y l IH]; simpl; intros H; [repeat constructor|].
  destruct (le x y) eqn:E.
  - constructor; [exact H | constructor; exact E].
  - apply Sorted_inv in H. destruct H as [Hs Hh].
    constructor; [apply IH; exact Hs|].
    apply insert_by_hd; [exact Hh | apply le_total; exact E].
Qed.

Lemma sort_by_sorted (l : list msg_row) : Sorted (fun a b => le a b = true) (sort_by le l).
Proof.
  induction l as [|x l IH]; simpl; [constructor|]. apply insert_by_sorted. exact IH.
Qed.
End InsertSort.

Lemma Sorted_impl' {A} (R R' : A -> A -> Prop) (l : list A) :
  (forall a b, R a b -> R' a b) -> Sorted R l -> Sorted R' l.
Proof.
  intros Himp H. induction H as [|a l Hs IH Hh]; constructor; [exact IH|].
  destruct Hh; constructor. apply Himp. assumption.
Qed.

Lemma run_select_asc_ok (rows : list msg_row) (pred : msg_row -> bool)
    (key : msg_row -> Z) (lim : Z) :
  select_ordered rows pred (asc_by key) lim (run_select_asc rows pred key lim).
Proof.
  exists (sort_by (fun a b => key a <=? key b) (filter pred rows)).
  split; [apply sort_by_perm|]. split; [|reflexivity].
  apply (Sorted_impl' (fun a b => (key a <=? key b) = true)); [intros a b; apply Z.leb_le|].
  apply sort_by_sorted. intros a b E. apply Z.leb_gt in E. apply Z.leb_le. lia.
Qed.

Lemma run_select_desc_ok (rows : list msg_row) (pred : msg_row -> bool)
    (key : msg_row -> Z) (lim : Z) :
  select_ordered rows pred (desc_by key) lim (run_select_desc rows pred key lim).
Proof.
  exists (sort_by (fun a b => key b <=? key a) (filter pred rows)).
  split; [apply sort_by_perm|]. split; [|reflexivity].
  apply (Sorted_impl' (fun a b => (key b <=? key a) = true)); [intros a b; apply Z.leb_le|].
  apply sort_by_sorted. intros a b E. apply Z.leb_gt in E. apply Z.leb_le. lia.
Qed.

Lemma run_MessageContext_ok (d : DB) (chat id : string) (before after : Z) :
  MessageContext d chat id before after (run_MessageContext d chat id before after).
Proof.
  unfold run_MessageContext. destruct (get_row d chat id) as [r|] eqn:G.
  - apply MessageContext_found; [exact G | apply run_select_desc_ok | apply run_select_asc_ok].
  - apply MessageContext_missing. exact G.
Qed.

(** two sorted permutations of each other are equal when the order is
    antisymmetric on their elements *)
Lemma sorted_perm_unique {A} (R : A -> A -> Prop) (l1 l2 : list A) :
  (forall a b c, R a b -> R b c -> R a c) ->
  (forall a b, In a l1 -> In b l1 -> R a b -> R b a -> a = b) ->
  Sorted R l1 -> Sorted R l2 -> Permutation l1 l2 -> l1 = l2.
Proof.
  intros Ht. revert l2.
  induction l1 as [|a l1 IH]; intros l2 Hanti H1 H2 Hp.
  - symmetry. apply Permutation_nil. exact Hp.
  - destruct l2 as [|b l2]; [apply Permutation_sym, Permutation_nil in Hp; discriminate|].
    apply Sorted_StronglySorted in H1; [|exact Ht].
    apply Sorted_StronglySorted in H2; [|exact Ht].
    apply StronglySorted_inv in H1. destruct H1 as [S1 F1].
    apply StronglySorted_inv in H2. destruct H2 as [S2 F2].
    rewrite Forall_forall in F1, F2.
    assert (Hab : a = b).
    { assert (Ha : In a (b :: l2)) by (apply (Permutation_in _ Hp); left; reflexivity).
      assert (Hb : In b (a :: l1))
        by (apply (Permutation_in _ (Permutation_sym Hp)); left; reflexivity).
      destruct Ha as [Ha|Ha]; [symmetry; exact Ha|].
      destruct Hb as [Hb|Hb]; [exact Hb|].
      apply Hanti; [left; reflexivity | right; exact Hb | apply F1; exact Hb | apply F2; exact Ha]. }
    subst b. f_equal. apply IH.
    + intros x y Hx Hy. apply Hanti; right; assumption.
    + apply StronglySorted_Sorted. exact S1.
    + apply StronglySorted_Sorted. exact S2.
    + apply Permutation_cons_inv in Hp. exact Hp.
Qed.

(** ** C3 *)

Lemma unix_fromUnix (t : Z) : 0 <= t -> unix (fromUnix t) = t.
Proof.
  intros H. unfold fromUnix. destruct (t <=? 0) eqn:E.
  - apply Z.leb_le in E. replace t with 0 by lia. reflexivity.
  - apply Z.leb_gt in E. unfold unix, IsZero.
    destruct (Z.eqb t zero_time) eqn:Ez; [apply Z.eqb_eq in Ez; unfold zero_time in Ez; lia|].
    reflexivity.
Qed.

Lemma ctx_before_pred_true (chat : string) (t : Z) (x : msg_row) :
  ctx_before_pred chat t x = true -> m_chat_jid x = chat /\ m_ts x < t.
Proof.
  unfold ctx_before_pred. rewrite andb_true_iff, String.eqb_eq, Z.ltb_lt. auto.
Qed.

Lemma ctx_after_pred_true (chat : string) (t : Z) (x : msg_row) :
  ctx_after_pred chat t x = true -> m_chat_jid x = chat /\ t < m_ts x.
Proof.
  unfold ctx_after_pred. rewrite andb_true_iff, String.eqb_eq, Z.ltb_lt. auto.
Qed.

(** C3 (for targets stored with a non-negative timestamp). The context of a
    stored message is its chat's messages [B], the target, then [A]: [B]
    holds at most [before] rows of the chat strictly older than the target,
    the newest such ones (any older row left out is preceded by a full
    [before] of rows at least as new), [A] at most [after] rows strictly
    newer, the oldest such ones; the whole list is ordered oldest to
    newest. *)
Theorem MessageContext_window (d : DB) (chat id : string) (before after : Z)
    (r : msg_row) (out : res (list Msg.Message)) :
  get_row d chat id = Some r -> 0 <= m_ts r ->
  MessageContext d chat id before after out ->
  exists B A,
    out = Ok (map (to_message d "") (B ++ r :: A)) /\
    (List.length B <= Z.to_nat (Z.max 0 before))%nat /\
    (List.length A <= Z.to_nat (Z.max 0 after))%nat /\
    (forall x, In x B -> In x (messages d) /\ m_chat_jid x = chat /\ m_ts x < m_ts r) /\
    (forall x, In x A -> In x (messages d) /\ m_chat_jid x = chat /\ m_ts r < m_ts x) /\
    (forall x, In x (messages d) -> m_chat_jid x = chat -> m_ts x < m_ts r ->
       In x B \/ (List.length B = Z.to_nat (Z.max 0 before)
                  /\ forall y, In y B -> m_ts x <= m_ts y)) /\
    (forall x, In x (messages d) -> m_chat_jid x = chat -> m_ts r < m_ts x ->
       In x A \/ (List.length A = Z.to_nat (Z.max 0 after)
                  /\ forall y, In y A -> m_ts y <= m_ts x)) /\
    asc_by m_ts (B ++ r :: A).
Proof.
  intros Hg Hts Hc.
  destruct Hc as [Hm | r' B0 A0 Hg' HB HA]; [congruence|].
  rewrite Hg in Hg'. injection Hg' as <-.
  rewrite (unix_fromUnix _ Hts) in HB, HA.
  assert (Hdesc : forall a b c : msg_row, m_ts b <= m_ts a -> m_ts c <= m_ts b -> m_ts c <= m_ts a)
    by (intros; lia).
  assert (Hasc : forall a b c : msg_row, m_ts a <= m_ts b -> m_ts b <= m_ts c -> m_ts a <= m_ts c)
    by (intros; lia).
  assert (HBin : forall x, In x (rev B0) -> In x (messages d) /\ m_chat_jid x = chat /\ m_ts x < m_ts r).
  { intros x Hx. apply in_rev in Hx. destruct (select_ordered_in _ _ _ _ _ x HB Hx) as [H1 H2].
    apply ctx_before_pred_true in H2. tauto. }
  assert (HAin : forall x, In x A0 -> In x (messages d) /\ m_chat_jid x = chat /\ m_ts r < m_ts x).
  { intros x Hx. destruct (select_ordered_in _ _ _ _ _ x HA Hx) as [H1 H2].
    apply ctx_after_pred_true in H2. tauto. }
  exists (rev B0), A0.
  split; [rewrite map_app; reflexivity|].
  split; [rewrite length_rev; apply (select_ordered_length _ _ _ _ _ (Z.le_max_l 0 before) HB)|].
  split; [apply (select_ordered_length _ _ _ _ _ (Z.le_max_l 0 after) HA)|].
  split; [exact HBin|]. split; [exact HAin|].
  split.
  { intros x Hx Hc Hlt.
    assert (Hp : ctx_before_pred chat (m_ts r) x = true)
      by (unfold ctx_before_pred; rewrite Hc, String.eqb_refl, (proj2 (Z.ltb_lt _ _) Hlt); reflexivity).
    destruct (select_ordered_complete _ _ (fun a b => m_ts b <= m_ts a) _ _ x Hdesc
                (Z.le_max_l 0 before) HB Hx Hp) as [Hin|[Hl Hy]].
    - left. apply in_rev in Hin. exact Hin.
    - right. rewrite length_rev. split; [exact Hl|].
      intros y Hy'. apply Hy. apply in_rev. exact Hy'. }
  split.
  { intros x Hx Hc Hlt.
    assert (Hp : ctx_after_pred chat (m_ts r) x = true)
      by (unfold ctx_after_pred; rewrite Hc, String.eqb_refl, (proj2 (Z.ltb_lt _ _) Hlt); reflexivity).
    exact (select_ordered_complete _ _ (fun a b => m_ts a <= m_ts b) _ _ x Hasc
             (Z.le_max_l 0 after) HA Hx Hp). }
  apply StronglySorted_Sorted. apply StronglySorted_app.
  - apply (StronglySorted_rev (fun a b => m_ts b <= m_ts a)).
    exact (select_ordered_sorted _ _ _ _ _ Hdesc HB).
  - constructor; [exact (select_ordered_sorted _ _ _ _ _ Hasc HA)|].
    apply Forall_forall. intros x Hx. apply HAin in Hx. lia.
  - intros a b Ha Hb. apply HBin in Ha. destruct Hb as [<-|Hb]; [lia|].
    apply HAin in Hb. lia.
Qed.

(** C3, witness: three messages at 100, 200 and 300; the context of the
    middle one with bounds (1, 1) is all three in order. *)
Lemma MessageContext_window_witness :
  get_row (ex_ctx_db 100 200 300) "c" "m2" = Some (ex_row "c" "m2" 200 "b") /\
  run_MessageContext (ex_ctx_db 100 200 300) "c" "m2" 1 1
  = Ok (map (to_message (ex_ctx_db 100 200 300) "")
          [ex_row "c" "m1" 100 "a"; ex_row "c" "m2" 200 "b"; ex_row "c" "m3" 300 "c"]) /\
  exists B A, run_MessageContext (ex_ctx_db 100 200 300) "c" "m2" 1 1
              = Ok (map (to_message (ex_ctx_db 100 200 300) "")
                      (B ++ ex_row "c" "m2" 200 "b" :: A))
              /\ (List.length B <= 1)%nat /\ (List.length A <= 1)%nat.
Proof.
  split; [reflexivity|]. split; [reflexivity|].
  destruct (MessageContext_window (ex_ctx_db 100 200 300) "c" "m2" 1 1
              (ex_row "c" "m2" 200 "b") _ eq_refl ltac:(simpl; lia)
              (run_MessageContext_ok (ex_ctx_db 100 200 300) "c" "m2" 1 1))
    as [B [A [Ho [HB [HA _]]]]].
  exists B, A. split; [exact Ho|]. split; [exact HB | exact HA].
Defined.

(** C3, counterexample: with the timestamps -3 < -2 < -1, the context of
    the middle message with bounds (1, 1) is [m3; m2], not [m1; m2; m3]:
    the target's timestamp is read back as the zero time, and the query
    compares against its Unix second 0. *)
Lemma MessageContext_negative_ts :
  MessageContext (ex_ctx_db (-3) (-2) (-1)) "c" "m2" 1 1
    (Ok (map (to_message (ex_ctx_db (-3) (-2) (-1)) "")
           [ex_row "c" "m3" (-1) "c"; ex_row "c" "m2" (-2) "b"])) /\
  (forall out, MessageContext (ex_ctx_db (-3) (-2) (-1)) "c" "m2" 1 1 out ->
     out = Ok (map (to_message (ex_ctx_db (-3) (-2) (-1)) "")
                 [ex_row "c" "m3" (-1) "c"; ex_row "c" "m2" (-2) "b"])).
Proof.
  split.
  - replace (Ok (map (to_message (ex_ctx_db (-3) (-2) (-1)) "")
                   [ex_row "c" "m3" (-1) "c"; ex_row "c" "m2" (-2) "b"]))
      with (run_MessageContext (ex_ctx_db (-3) (-2) (-1)) "c" "m2" 1 1) by reflexivity.
    apply run_MessageContext_ok.
  - intros out Hc. destruct Hc as [Hm | r B A Hg HB HA]; [discriminate Hm|].
    injection Hg as <-.
    destruct HB as [lB [HpB [HsB ->]]]. destruct HA as [lA [HpA [_ ->]]].
    simpl filter in HpB, HpA.
    apply Permutation_sym, Permutation_nil in HpA. subst lA.
    assert (HlB : [ex_row "c" "m3" (-1) "c"; ex_row "c" "m2" (-2) "b"; ex_row "c" "m1" (-3) "a"]
                  = lB).
    { apply (sorted_perm_unique (fun a b => m_ts b <= m_ts a)).
      - intros; lia.
      - intros a b Ha Hb H1 H2.
        destruct Ha as [<-|[<-|[<-|[]]]]; destruct Hb as [<-|[<-|[<-|[]]]];
          simpl in H1, H2; (reflexivity || lia).
      - repeat constructor; simpl; lia.
      - exact HsB.
      - eapply perm_trans; [|apply Permutation_sym; exact HpB].
        apply Permutation_sym, (Permutation_rev [_; _; _]). }
    subst lB. reflexivity.
Qed.

(** ** C4 *)

Lemma ascii_lower_app (a b : string) : ascii_lower (a ++ b) = ascii_lower a ++ ascii_lower b.
Proof. induction a as [|c a IH]; simpl; [reflexivity | rewrite IH; reflexivity]. Qed.

Lemma lower_ascii_nul (c : ascii) : (byte_val (lower_ascii c) =? 0) = (byte_val c =? 0).
Proof.
  destruct c as [b0 b1 b2 b3 b4 b5 b6 b7].
  destruct b0, b1, b2, b3, b4, b5, b6, b7; vm_compute; reflexivity.
Qed.

Lemma no_nul_lower (s : string) : no_nul (ascii_lower s) = no_nul s.
Proof.
  unfold no_nul. induction s as [|c s IH]; [reflexivity|]. simpl. rewrite lower_ascii_nul, IH.
  reflexivity.
Qed.

(** the closing [%] of the pattern is read as a character of its own *)
Lemma sqlite_read_pct (acc : option Z) (x : string) :
  no_nul x = true -> sqlite_read acc (x ++ "%") = (sqlite_read acc x ++ [37])%list.
Proof.
  revert acc. induction x as [|b x IH]; intros acc Hx.
  - destruct acc; reflexivity.
  - unfold no_nul in Hx. simpl in Hx. apply andb_true_iff in Hx. destruct Hx as [Hb Hx].
    apply negb_true_iff in Hb. simpl. rewrite Hb.
    destruct acc as [c|].
    + destruct (in_range 128 191 (byte_val b)); [apply IH; exact Hx|].
      destruct (byte_val b <? 192); simpl; rewrite IH by exact Hx; reflexivity.
    + destruct (byte_val b <? 192); simpl; rewrite IH by exact Hx; reflexivity.
Qed.

Lemma sqlite_chars_needle (q : string) :
  no_nul q = true ->
  sqlite_chars (ascii_lower ("%" ++ q ++ "%")) = (37 :: sqlite_chars (ascii_lower q) ++ [37])%list.
Proof.
  intros Hq. rewrite ascii_lower_app, ascii_lower_app. unfold sqlite_chars.
  change (ascii_lower "%") with "%". change ("%" ++ ascii_lower q ++ "%")
    with (String "%" (ascii_lower q ++ "%")).
  simpl sqlite_read at 1. rewrite sqlite_read_pct by (rewrite no_nul_lower; exact Hq).
  reflexivity.
Qed.

Lemma suffixes_self (s : list Z) : In s (suffixes s).
Proof. destruct s; simpl; left; reflexivity. Qed.

Lemma like_chars_pct_end (s : list Z) : like_chars [37] s = true.
Proof.
  simpl. apply existsb_exists. exists []. split; [|reflexivity].
  induction s as [|x s IH]; simpl; [left; reflexivity | right; exact IH].
Qed.

Lemma like_chars_prefix (q b : list Z) : like_chars (q ++ [37]) (q ++ b) = true.
Proof.
  induction q as [|c q IH]; [apply like_chars_pct_end|]. simpl.
  destruct (c =? 37) eqn:E.
  - apply orb_true_iff. right. apply existsb_exists. exists (q ++ b)%list.
    split; [apply suffixes_self | exact IH].
  - rewrite IH, andb_true_r. unfold char_match. rewrite Z.eqb_refl.
    rewrite orb_true_r. reflexivity.
Qed.

Lemma chars_prefix_app (q s : list Z) : chars_prefix q s = true -> exists b, s = (q ++ b)%list.
Proof.
  revert s. induction q as [|c q IH]; intros s H; [exists s; reflexivity|].
  destruct s as [|d s]; [discriminate|]. simpl in H. apply andb_true_iff in H.
  destruct H as [E H]. apply Z.eqb_eq in E. subst d. destruct (IH s H) as [b ->].
  exists b. reflexivity.
Qed.

Lemma like_chars_contains (s q : list Z) :
  contains_chars s q = true -> like_chars (37 :: q ++ [37]) s = true.
Proof.
  unfold contains_chars. intros H. apply existsb_exists in H. destruct H as [t [Ht Hp]].
  simpl. apply existsb_exists. exists t. split; [exact Ht|].
  destruct (chars_prefix_app q t Hp) as [b ->]. apply like_chars_prefix.
Qed.

(** a pattern [%q%] matches every text that contains [q] *)
Lemma like_col_contains (q v : string) :
  no_nul q = true -> contains_ci v q = true -> like_col ("%" ++ q ++ "%") (Some v) = true.
Proof.
  intros Hq H. unfold like_col. rewrite sqlite_chars_needle by exact Hq.
  apply like_chars_contains. exact H.
Qed.

Lemma opt_hit_like (q : string) (o : option string) :
  no_nul q = true ->
  match o with Some v => contains_ci v q | None => false end = true ->
  like_col ("%" ++ q ++ "%") o = true.
Proof. intros Hq. destruct o; [apply like_col_contains, Hq | discriminate]. Qed.

Lemma substring_hit_like (d : DB) (q : string) (r : msg_row) :
  no_nul q = true -> substring_hit d q r = true -> like_hit d q r = true.
Proof.
  intros Hq. unfold substring_hit, searched_fields, like_hit. cbv zeta. simpl existsb.
  rewrite orb_false_r. intros H.
  repeat (apply orb_prop in H; destruct H as [H|H]);
    first [apply (opt_hit_like q) in H; [|exact Hq] | apply (like_col_contains q) in H;
           [|exact Hq]];
    rewrite H; rewrite ?orb_true_l, ?orb_true_r; reflexivity.
Qed.

Lemma search_limit_pos (n : Z) : 0 < search_limit n.
Proof.
  unfold search_limit. destruct (n <=? 0) eqn:E; [lia | apply Z.leb_gt in E; exact E].
Qed.

(** the query's branches, with [p.Limit] defaulted *)
Lemma SearchMessages_shape (fts_error : string -> option string)
    (fts_match : string -> msg_row -> bool)
    (bm25 : string -> msg_row -> Z) (snippet : string -> msg_row -> string)
    (d : DB) (p : SP.SearchMessagesParams) (out : res (list Msg.Message)) :
  TrimSpace (SP.Query p) <> "" ->
  SearchMessages fts_error fts_match bm25 snippet d p out ->
  if ftsEnabled d
  then searchFTS fts_error fts_match bm25 snippet d (with_limit p (search_limit (SP.Limit p))) out
  else searchLIKE d (with_limit p (search_limit (SP.Limit p))) out.
Proof.
  intros Hq H. unfold SearchMessages in H.
  apply String.eqb_neq in Hq. rewrite Hq in H. cbv zeta in H.
  unfold search_limit. destruct (SP.Limit p <=? 0); exact H.
Qed.

(** C4 (amended). Take a non-blank query. When the full-text engine is off
    ([HasFTS] is false) and the pattern [%query%] is within SQLite's
    50000-byte limit on [LIKE] patterns, the result is a list of stored
    messages passing the filters (with an empty display text), ordered by
    timestamp descending, at most [p.Limit] long (50 when [p.Limit <= 0]);
    every stored message passing the filters in one of whose searched
    columns the query occurs, ignoring ASCII case and with both read as
    characters the way SQLite reads UTF-8, is in it unless the result is
    full of messages at least as recent (when the query has no NUL byte).
    With a longer pattern the search fails with "LIKE or GLOB pattern too
    complex" or returns nothing. When the engine is on, a query it cannot
    parse makes the search fail with the engine's error; any other is
    answered with stored messages passing the same filters and limit,
    ordered by [bm25] ascending (best match first). *)
Theorem SearchMessages_degraded_recall (fts_error : string -> option string)
    (fts_match : string -> msg_row -> bool)
    (bm25 : string -> msg_row -> Z) (snippet : string -> msg_row -> string)
    (d : DB) (p : SP.SearchMessagesParams) (out : res (list Msg.Message)) :
  TrimSpace (SP.Query p) <> "" ->
  SearchMessages fts_error fts_match bm25 snippet d p out ->
  (HasFTS d = false -> Z.of_nat (String.length (SP.Query p)) + 2 <= like_pattern_limit ->
   exists rows,
     out = Ok (map (to_search_message d "") rows)
     /\ StronglySorted (fun a b => m_ts b <= m_ts a) rows
     /\ (List.length rows <= Z.to_nat (search_limit (SP.Limit p)))%nat
     /\ (forall r, In r rows ->
           In r (messages d) /\ like_hit d (SP.Query p) r = true
           /\ message_filters p r = true)
     /\ (no_nul (SP.Query p) = true ->
         forall r, In r (messages d) -> substring_hit d (SP.Query p) r = true ->
           message_filters p r = true ->
           In r rows
           \/ (List.length rows = Z.to_nat (search_limit (SP.Limit p))
               /\ forall y, In y rows -> m_ts r <= m_ts y)))
  /\ (HasFTS d = false -> like_pattern_limit < Z.of_nat (String.length (SP.Query p)) + 2 ->
      out = Err like_too_complex \/ out = Ok [])
  /\ (HasFTS d = true -> forall e, fts_error (SP.Query p) = Some e -> out = Err e)
  /\ (HasFTS d = true -> fts_error (SP.Query p) = None ->
   exists rows,
     out = Ok (map (fun r => to_search_message d (snippet (SP.Query p) r) r) rows)
     /\ StronglySorted (fun a b => bm25 (SP.Query p) a <= bm25 (SP.Query p) b) rows
     /\ (List.length rows <= Z.to_nat (search_limit (SP.Limit p)))%nat
     /\ (forall r, In r rows ->
           In r (messages d) /\ fts_match (SP.Query p) r = true
           /\ message_filters p r = true)).
Proof.
  intros Hq H.
  pose proof (SearchMessages_shape _ _ _ _ _ _ _ Hq H) as Hl.
  pose proof (search_limit_pos (SP.Limit p)) as Hpos.
  unfold HasFTS. destruct (ftsEnabled d).
  - unfold searchFTS in Hl. simpl SP.Query in Hl.
    split; [intros Hf; discriminate|]. split; [intros Hf; discriminate|].
    split; [intros _ e He; rewrite He in Hl; exact Hl|].
    intros _ He. rewrite He in Hl.
    destruct Hl as [rows [Hsel ->]]. exists rows. split; [reflexivity|].
    split; [eapply select_ordered_sorted; [|exact Hsel]; intros; lia|].
    split; [eapply select_ordered_length; [lia|exact Hsel]|].
    intros r Hr. destruct (select_ordered_in _ _ _ _ _ r Hsel Hr) as [Hin Hp].
    apply andb_prop in Hp. destruct Hp as [Hm Hfl].
    split; [exact Hin|]. split; [exact Hm | exact Hfl].
  - unfold searchLIKE in Hl. simpl SP.Query in Hl.
    split; [|split; [|split; intros Hf; discriminate]].
    2:{ intros _ Hlen. apply Z.ltb_lt in Hlen. rewrite Hlen in Hl. exact Hl. }
    intros _ Hlen. apply Z.ltb_ge in Hlen. rewrite Hlen in Hl.
    destruct Hl as [rows [Hsel ->]]. exists rows. split; [reflexivity|].
    split; [eapply select_ordered_sorted; [|exact Hsel]; intros; lia|].
    split; [eapply select_ordered_length; [lia|exact Hsel]|].
    split.
    + intros r Hr. destruct (select_ordered_in _ _ _ _ _ r Hsel Hr) as [Hin Hp].
      apply andb_prop in Hp. destruct Hp as [Hm Hfl].
      split; [exact Hin|]. split; [exact Hm | exact Hfl].
    + intros Hnul r Hr Hs Hfl.
      assert (Htr : forall a b c : msg_row,
                 m_ts b <= m_ts a -> m_ts c <= m_ts b -> m_ts c <= m_ts a) by (intros; lia).
      destruct (select_ordered_complete _ _ _ _ _ r Htr (Z.lt_le_incl _ _ Hpos) Hsel Hr)
        as [I|[Hlen' Hall]].
      * change (like_hit d (SP.Query p) r && message_filters p r = true).
        rewrite (substring_hit_like _ _ _ Hnul Hs), Hfl. reflexivity.
      * left. exact I.
      * right. split; [exact Hlen'|]. intros y Hy. exact (Hall y Hy).
Qed.

Lemma SearchMessages_degraded_recall_witness :
  exists rows,
    ex_search_out = Ok (map (to_search_message ex_small_db "") rows)
    /\ StronglySorted (fun a b => m_ts b <= m_ts a) rows
    /\ (List.length rows <= 50)%nat.
Proof.
  assert (Hs : SearchMessages (fun _ => None) (fun _ _ => false) (fun _ _ => 0) (fun _ _ => "")
                 ex_small_db ex_search_params ex_search_out).
  { unfold SearchMessages.
    change (String.eqb (TrimSpace (SP.Query ex_search_params)) "") with false.
    change (SP.Limit ex_search_params <=? 0) with true.
    change (ftsEnabled ex_small_db) with false. cbv beta iota zeta.
    unfold searchLIKE.
    change (like_pattern_limit <? Z.of_nat (String.length (SP.Query (with_limit ex_search_params 50))) + 2)
      with false. cbv iota.
    eexists. split; [apply run_select_desc_ok | reflexivity]. }
  destruct (proj1 (SearchMessages_degraded_recall (fun _ => None) (fun _ _ => false)
                     (fun _ _ => 0) (fun _ _ => "") ex_small_db ex_search_params ex_search_out
                     ltac:(vm_compute; congruence) Hs) eq_refl ltac:(vm_compute; congruence))
    as [rows [Ho [Hso [Hl _]]]].
  exists rows. split; [exact Ho|]. split; [exact Hso | exact Hl].
Defined.

(** C4 counterexample: without the full-text engine and with the default
    limit, 51 stored messages contain the query and pass the filters, but
    every result has at most 50 of them. *)
Lemma SearchMessages_degraded_limit :
  HasFTS ex_search_db = false
  /\ List.length (messages ex_search_db) = 51%nat
  /\ forallb (fun r => substring_hit ex_search_db (SP.Query ex_search_params) r
                       && message_filters ex_search_params r)
       (messages ex_search_db) = true
  /\ (forall fe fm bm sn out,
        SearchMessages fe fm bm sn ex_search_db ex_search_params out ->
        exists l, out = Ok l /\ (List.length l <= 50)%nat).
Proof.
  split; [reflexivity|]. split; [reflexivity|]. split; [vm_compute; reflexivity|].
  intros fe fm bm sn out H.
  pose proof (SearchMessages_shape fe fm bm sn ex_search_db ex_search_params out
                ltac:(vm_compute; congruence) H) as Hl.
  change (ftsEnabled ex_search_db) with false in Hl.
  unfold searchLIKE in Hl.
  change (like_pattern_limit <? Z.of_nat (String.length (SP.Query (with_limit ex_search_params
            (search_limit (SP.Limit ex_search_params))))) + 2) with false in Hl.
  destruct Hl as [rows [Hsel ->]].
  exists (map (to_search_message ex_search_db "") rows). split; [reflexivity|].
  rewrite length_map. apply (select_ordered_length _ _ _ 50 _ ltac:(lia) Hsel).
Qed.

(** ** C7 *)

Definition is_insert_ledger (st : stmt) : bool :=
  match st with InsertLedger _ _ => true | _ => false end.

Lemma create_if_absent_ledger (s : Schema) (t : string) (cols : list string) :
  ledger (create_if_absent s t cols) = ledger s.
Proof. unfold create_if_absent. destruct (table_cols s t); reflexivity. Qed.

Lemma Exec_ledger (fails : stmt -> bool) (s s' : Schema) (st : stmt) :
  is_insert_ledger st = false -> Exec fails s st = Ok s' -> ledger s' = ledger s.
Proof.
  intros Hi. unfold Exec. destruct (fails st); [discriminate|].
  destruct st; simpl in Hi |- *; try discriminate; intros H;
    try (injection H as <-; try apply create_if_absent_ledger; reflexivity).
  destruct (table_cols s table); [|discriminate].
  destruct (existsb (String.eqb col) l); [discriminate|]. injection H as <-. reflexivity.
Qed.

Lemma Exec_insert_ledger (fails : stmt -> bool) (s s' : Schema) (v : Z) (n : string) :
  Exec fails s (InsertLedger v n) = Ok s' -> ledger s' = (ledger s ++ [(v, n)])%list.
Proof.
  unfold Exec. destruct (fails (InsertLedger v n)); [discriminate|]. simpl.
  destruct (existsb (fun e => Z.eqb (fst e) v) (ledger s)); [discriminate|].
  intros H. injection H as <-. reflexivity.
Qed.

Lemma Exec_script_ledger (fails : stmt -> bool) (sts : list stmt) (s : Schema) :
  forallb (fun st => negb (is_insert_ledger st)) sts = true ->
  ledger (fst (Exec_script fails s sts)) = ledger s.
Proof.
  revert s. induction sts as [|st sts IH]; intros s H; [reflexivity|].
  simpl in H. apply andb_true_iff in H. destruct H as [H1 H2].
  simpl. destruct (Exec fails s st) as [s'|e] eqn:E; [|reflexivity].
  apply Exec_ledger in E; [|apply negb_true_iff; exact H1]. rewrite IH by exact H2. exact E.
Qed.

Ltac exec_ledger :=
  repeat (cbv beta iota zeta;
          match goal with
          | |- context [match Exec ?f ?s ?st with _ => _ end] =>
              let E := fresh "E" in
              destruct (Exec f s st) eqn:E;
              [apply Exec_ledger in E; [|reflexivity] |]
          | |- context [if ?b then _ else _] => destruct b
          end).

Lemma migrateCoreSchema_ledger (fails : stmt -> bool) (s : Schema) :
  ledger (fst (migrateCoreSchema fails s)) = ledger s.
Proof.
  unfold migrateCoreSchema.
  pose proof (Exec_script_ledger fails core_script s eq_refl) as H.
  destruct (Exec_script fails s core_script) as [s' [e|]]; exact H.
Qed.

Lemma migrateMessagesDisplayText_ledger (fails : stmt -> bool) (s : Schema) :
  ledger (fst (migrateMessagesDisplayText fails s)) = ledger s.
Proof.
  unfold migrateMessagesDisplayText, tableHasColumnQ. exec_ledger; simpl; congruence.
Qed.

Lemma migrateMessagesFTS_ledger (fails : stmt -> bool) (s : Schema) :
  ledger (fst (migrateMessagesFTS fails s)) = ledger s.
Proof.
  unfold migrateMessagesFTS, tableHasColumnQ, tableExistsQ. exec_ledger; simpl; congruence.
Qed.

Lemma add_columns_ledger (fails : stmt -> bool) (cols : list string) (s : Schema) :
  ledger (fst (add_columns fails s cols)) = ledger s.
Proof.
  revert s. induction cols as [|c cols IH]; intros s; [reflexivity|].
  simpl. unfold tableHasColumnQ.
  destruct (fails (TableInfo "messages")); [reflexivity|].
  destruct (tableHasColumn s "messages" c); [apply IH|].
  destruct (Exec fails s (AddColumn "messages" c)) as [s'|e] eqn:E; [|reflexivity].
  apply Exec_ledger in E; [|reflexivity]. rewrite IH. exact E.
Qed.

Lemma schemaMigrations_ledger (fails : stmt -> bool) (cols : list string)
    (m : migration) (s : Schema) :
  In m (schemaMigrations fails cols) -> ledger (fst (up m s)) = ledger s.
Proof.
  simpl. intros [<-|[<-|[<-|[<-|[]]]]]; simpl.
  - apply migrateCoreSchema_ledger.
  - apply migrateMessagesDisplayText_ledger.
  - apply migrateMessagesFTS_ledger.
  - apply add_columns_ledger.
Qed.

Lemma pending_cons (applied : list Z) (m : migration) (ms : list migration) :
  pending applied (m :: ms) =
  if existsb (Z.eqb (version m)) applied then pending applied ms
  else m :: pending applied ms.
Proof. unfold pending. simpl. destruct (existsb (Z.eqb (version m)) applied); reflexivity. Qed.

(** the loop records a prefix of the pending migrations, all of them when it
    returns no error *)
Lemma run_migrations_ledger (fails : stmt -> bool) (applied : list Z)
    (ms : list migration) (s : Schema) :
  (forall m s, In m ms -> ledger (fst (up m s)) = ledger s) ->
  exists k,
    (k <= List.length (pending applied ms))%nat
    /\ ledger (fst (run_migrations fails applied ms s))
       = (ledger s ++ map ledger_entry (firstn k (pending applied ms)))%list
    /\ (snd (run_migrations fails applied ms s) = None -> k = List.length (pending applied ms))
    /\ (snd (run_migrations fails applied ms s) = None
        \/ (k < List.length (pending applied ms))%nat).
Proof.
  revert s. induction ms as [|m ms IH]; intros s Hup.
  - exists 0%nat. simpl. rewrite app_nil_r.
    split; [lia|]. split; [reflexivity|]. split; [reflexivity|left; reflexivity].
  - rewrite pending_cons. simpl run_migrations.
    destruct (existsb (Z.eqb (version m)) applied).
    + apply IH. intros m' s' H. apply Hup. right. exact H.
    + pose proof (Hup m s (or_introl eq_refl)) as Hl1.
      destruct (up m s) as [s1 e1]. simpl in Hl1.
      assert (Hstop : forall e : string, exists k,
                 (k <= List.length (m :: pending applied ms))%nat
                 /\ ledger s1 = (ledger s ++ map ledger_entry (firstn k (m :: pending applied ms)))%list
                 /\ (@Some string e = None -> k = List.length (m :: pending applied ms))
                 /\ (@Some string e = None \/ (k < List.length (m :: pending applied ms))%nat)).
      { intros e. exists 0%nat. simpl. rewrite app_nil_r.
        split; [lia|]. split; [exact Hl1|]. split; [discriminate|right; lia]. }
      destruct e1 as [e1|]; [apply Hstop|].
      destruct (Exec fails s1 (InsertLedger (version m) (mname m))) as [s2|e2] eqn:Ex;
        [|apply Hstop].
      apply Exec_insert_ledger in Ex.
      destruct (IH s2) as [k [Hk [Hl [Hn Ho]]]].
      { intros m' s' H. apply Hup. right. exact H. }
      exists (S k). simpl List.length. simpl firstn. rewrite Hl, Ex, Hl1, <- app_assoc.
      split; [lia|]. split; [reflexivity|].
      split; [intros H; rewrite (Hn H); reflexivity|].
      destruct Ho as [Ho|Ho]; [left; exact Ho | right; lia].
Qed.

(** the loop, step by step: a prefix of the pending migrations was applied
    and recorded, then either the loop ended or the next pending migration
    failed *)
Lemma run_migrations_trace (fails : stmt -> bool) (applied : list Z)
    (ms : list migration) (s : Schema) :
  exists k sk,
    migrations_applied fails (firstn k (pending applied ms)) s sk
    /\ ((k = List.length (pending applied ms)
         /\ run_migrations fails applied ms s = (sk, None))
        \/ exists m, nth_error (pending applied ms) k = Some m
             /\ migration_failed fails m sk (run_migrations fails applied ms s)).
Proof.
  revert s. induction ms as [|m ms IH]; intros s.
  - exists 0%nat, s. split; [reflexivity|]. left. split; reflexivity.
  - rewrite pending_cons. simpl run_migrations.
    destruct (existsb (Z.eqb (version m)) applied); [apply IH|].
    destruct (up m s) as [s1 [e|]] eqn:U.
    + exists 0%nat, s. split; [reflexivity|]. right. exists m. split; [reflexivity|].
      left. exists s1, e. split; [exact U | reflexivity].
    + destruct (Exec fails s1 (InsertLedger (version m) (mname m))) as [s2|e] eqn:X.
      * destruct (IH s2) as [k [sk [Ha Hr]]]. exists (S k), sk. split.
        { simpl firstn. exists s1, s2. split; [exact U|]. split; [exact X | exact Ha]. }
        destruct Hr as [[Hk Hr]|[m' [Hn Hf]]].
        { left. simpl. rewrite Hk. split; [reflexivity | exact Hr]. }
        { right. exists m'. split; [exact Hn | exact Hf]. }
      * exists 0%nat, s. split; [reflexivity|]. right. exists m. split; [reflexivity|].
        right. exists s1, e. split; [exact U|]. split; [exact X | reflexivity].
Qed.

Lemma migrations_applied_ledger (fails : stmt -> bool) (l : list migration) (s s' : Schema) :
  (forall m s, In m l -> ledger (fst (up m s)) = ledger s) ->
  migrations_applied fails l s s' -> ledger s' = (ledger s ++ map ledger_entry l)%list.
Proof.
  revert s. induction l as [|m l IH]; intros s Hup H.
  - simpl in H. subst s'. rewrite app_nil_r. reflexivity.
  - destruct H as [s1 [s2 [U [X Ha]]]].
    pose proof (Hup m s (or_introl eq_refl)) as L1. rewrite U in L1. simpl in L1.
    apply Exec_insert_ledger in X.
    rewrite (IH s2 (fun m' s0 H => Hup m' s0 (or_intror H)) Ha), X, L1, <- app_assoc.
    reflexivity.
Qed.

Lemma pending_app (a b : list Z) (ms : list migration) :
  pending (a ++ b) ms = pending b (pending a ms).
Proof.
  induction ms as [|m ms IH]; [reflexivity|].
  rewrite !pending_cons, existsb_app.
  destruct (existsb (Z.eqb (version m)) a); cbn [orb]; [exact IH|].
  rewrite pending_cons. destruct (existsb (Z.eqb (version m)) b); [exact IH|].
  f_equal. exact IH.
Qed.

Lemma pending_nil (ms : list migration) : pending [] ms = ms.
Proof.
  induction ms as [|m ms IH]; [reflexivity|]. rewrite pending_cons. simpl. f_equal. exact IH.
Qed.

Lemma pending_drop_head (a : Z) (l : list Z) (ms : list migration) :
  (forall m, In m ms -> version m <> a) -> pending (a :: l) ms = pending l ms.
Proof.
  induction ms as [|m ms IH]; intros H; [reflexivity|].
  rewrite !pending_cons. simpl.
  assert (E : (version m =? a) = false) by (apply Z.eqb_neq, H; left; reflexivity).
  rewrite E. simpl. rewrite IH by (intros m' Hm'; apply H; right; exact Hm'). reflexivity.
Qed.

(** once the versions of its first [k] migrations are recorded, a strictly
    ascending list has only its remaining migrations pending *)
Lemma pending_firstn (P : list migration) (k : nat) :
  StronglySorted Z.lt (map version P) ->
  pending (map version (firstn k P)) P = skipn k P.
Proof.
  revert k. induction P as [|m P IH]; intros k Hs; [destruct k; reflexivity|].
  destruct k as [|k]; [apply pending_nil|].
  simpl in Hs. apply StronglySorted_inv in Hs. destruct Hs as [Hs Hf].
  rewrite Forall_forall in Hf.
  simpl firstn. simpl map. rewrite pending_cons. simpl. rewrite Z.eqb_refl. simpl.
  rewrite pending_drop_head; [apply IH; exact Hs|].
  intros m' Hm' E. assert (Hlt : version m < version m') by (apply Hf, in_map, Hm'). lia.
Qed.

Lemma pending_not_in (applied : list Z) (ms : list migration) (m : migration) :
  In m (pending applied ms) -> ~ In (version m) applied.
Proof.
  unfold pending. intros Hm I. apply filter_In in Hm. destruct Hm as [_ Hm].
  apply negb_true_iff in Hm.
  pose proof (existsb_false_forall _ _ Hm (version m) I) as F.
  rewrite Z.eqb_refl in F. discriminate F.
Qed.

Lemma pending_incl (applied : list Z) (ms : list migration) (m : migration) :
  In m (pending applied ms) -> In m ms.
Proof. unfold pending. intros H. apply filter_In in H. apply H. Qed.

Lemma nth_error_skipn_cons {A} (l : list A) (k : nat) (x : A) :
  nth_error l k = Some x -> exists t, skipn k l = x :: t.
Proof.
  revert k. induction l as [|a l IH]; intros k H; [destruct k; discriminate|].
  destruct k as [|k]; simpl in H |- *.
  - injection H as <-. exists l. reflexivity.
  - exact (IH k H).
Qed.

Lemma map_fst_ledger_entries (e : list (Z * string)) (l : list migration) :
  map fst (e ++ map ledger_entry l)%list = (map fst e ++ map version l)%list.
Proof. rewrite map_app, map_map. reflexivity. Qed.

Lemma StronglySorted_map_filter {A} (R : Z -> Z -> Prop) (f : A -> Z) (p : A -> bool)
    (l : list A) :
  StronglySorted R (map f l) -> StronglySorted R (map f (filter p l)).
Proof.
  induction l as [|a l IH]; simpl; intros H; [exact H|].
  apply StronglySorted_inv in H. destruct H as [Hs Hf].
  destruct (p a); simpl; [|apply IH; exact Hs].
  constructor; [apply IH; exact Hs|].
  rewrite Forall_forall in Hf |- *. intros y Hy.
  apply in_map_iff in Hy. destruct Hy as [x [<- Hx]]. apply filter_In in Hx.
  apply Hf. apply in_map. apply Hx.
Qed.

Lemma pending_migrations_sorted (fails : stmt -> bool) (cols : list string) (s : Schema) :
  StronglySorted Z.lt (map version (pending_migrations fails cols s)).
Proof.
  apply StronglySorted_map_filter. simpl. repeat first [lia | constructor].
Qed.

Lemma fmt03d_examples :
  map fmt03d [1; 2; 3; 4; 0; 42; 1000; -5]
  = ["001"; "002"; "003"; "004"; "000"; "042"; "1000"; "-05"].
Proof. vm_compute. reflexivity. Qed.

(** C7 (amended). [ensureSchema] first creates the ledger table and reads
    the recorded versions; when one of these fails it returns that error
    and no migration runs. Otherwise the pending migrations (those whose
    version is not in the ledger, in ascending version order) are run one
    after the other: a prefix of them had their steps succeed and were then
    recorded, one entry each, and either that prefix is all of them and
    there is no error, or the next pending migration failed: its steps
    returned an error ("apply migration %03d <name>: ...") or its ledger
    row could not be inserted ("record migration %03d: ..."). The failed
    migration is not in the ledger, the schema is the one its steps left
    (no transaction undoes the steps that succeeded), and the migrations
    pending on the next run are exactly the failed one and those after
    it. *)
Theorem ensureSchema_ledger (fails : stmt -> bool) (cols : list string) (s : Schema) :
  let P := pending_migrations fails cols s in
  let r := ensureSchema fails cols s in
  StronglySorted Z.lt (map version P)
  /\ ((fails CreateLedgerTable = true
       /\ r = (s, Some "create schema_migrations table: database error"))
      \/ exists s0, Exec fails s CreateLedgerTable = Ok s0 /\ ledger s0 = ledger s
         /\ ((fails SelectApplied = true
              /\ r = (s0, Some "load applied migrations: database error"))
             \/ (fails SelectApplied = false /\ fails IterateApplied = true
                 /\ r = (s0, Some "iterate applied migrations: database error"))
             \/ (fails SelectApplied = false /\ fails IterateApplied = false
                 /\ exists k sk,
                      migrations_applied fails (firstn k P) s0 sk
                      /\ ledger (fst r) = (ledger s ++ map ledger_entry (firstn k P))%list
                      /\ pending_migrations fails cols (fst r) = skipn k P
                      /\ ((k = List.length P /\ r = (sk, None))
                          \/ exists m, nth_error P k = Some m
                               /\ ~ In (version m) (map fst (ledger (fst r)))
                               /\ migration_failed fails m sk r)))).
Proof.
  cbv zeta. split; [apply pending_migrations_sorted|].
  pose proof (pending_migrations_sorted fails cols s) as Hs.
  unfold ensureSchema, ensureSchemaWith.
  destruct (Exec fails s CreateLedgerTable) as [s0|e] eqn:E0.
  2:{ left. unfold Exec in E0. destruct (fails CreateLedgerTable); [|discriminate].
      injection E0 as <-. split; reflexivity. }
  right. exists s0. split; [reflexivity|].
  assert (L0 : ledger s0 = ledger s) by exact (Exec_ledger _ _ _ CreateLedgerTable eq_refl E0).
  split; [exact L0|].
  change (Exec fails s0 SelectApplied)
    with (if fails SelectApplied then @Err Schema "database error" else Ok s0).
  destruct (fails SelectApplied) eqn:F1.
  { left. split; reflexivity. }
  cbv beta iota.
  change (Exec fails s0 IterateApplied)
    with (if fails IterateApplied then @Err Schema "database error" else Ok s0).
  destruct (fails IterateApplied) eqn:F2.
  { right. left. split; [reflexivity|]. split; reflexivity. }
  right. right. split; [reflexivity|]. split; [reflexivity|]. cbv beta iota.
  rewrite L0. fold (pending_migrations fails cols s).
  set (P := pending_migrations fails cols s) in *.
  assert (Hup : forall m s', In m P -> ledger (fst (up m s')) = ledger s').
  { intros m s' Hm. apply (schemaMigrations_ledger fails cols).
    exact (pending_incl _ _ _ Hm). }
  destruct (run_migrations_trace fails (map fst (ledger s)) (schemaMigrations fails cols) s0)
    as [k [sk [Ha Hr]]].
  change (pending (map fst (ledger s)) (schemaMigrations fails cols)) with P in Ha, Hr.
  assert (Lk : ledger sk = (ledger s ++ map ledger_entry (firstn k P))%list).
  { rewrite (migrations_applied_ledger fails _ s0 sk
               (fun m s' H => Hup m s' (in_firstn _ _ _ H)) Ha), L0. reflexivity. }
  assert (Hnext : forall x, ledger x = ledger sk -> pending_migrations fails cols x = skipn k P).
  { intros x Lx. unfold pending_migrations. rewrite Lx, Lk, map_fst_ledger_entries, pending_app.
    fold (pending_migrations fails cols s). fold P. apply pending_firstn. exact Hs. }
  exists k, sk. split; [exact Ha|].
  destruct Hr as [[Hk Hr]|[m [Hm Hf]]].
  - rewrite Hr. simpl fst. split; [exact Lk|]. split; [exact (Hnext sk eq_refl)|].
    left. split; [exact Hk | reflexivity].
  - assert (Lr : ledger (fst (run_migrations fails (map fst (ledger s))
                                (schemaMigrations fails cols) s0)) = ledger sk).
    { destruct Hf as [[s' [e [U ->]]]|[s' [e [U [_ ->]]]]]; simpl fst;
        pose proof (Hup m sk (nth_error_In _ _ Hm)) as L; rewrite U in L; exact L. }
    rewrite Lr. split; [exact Lk|].
    pose proof (Hnext _ Lr) as Hn. split; [exact Hn|].
    right. exists m. split; [exact Hm|]. split; [|exact Hf].
    destruct (nth_error_skipn_cons P k m Hm) as [t Ht].
    assert (Hin : In m (pending_migrations fails cols
                          (fst (run_migrations fails (map fst (ledger s))
                                  (schemaMigrations fails cols) s0))))
      by (rewrite Hn, Ht; left; reflexivity).
    rewrite <- Lr. exact (pending_not_in _ _ _ Hin).
Qed.

(** C7 counterexample: on a fresh database, with the engine rejecting the
    second column of migration 4, [ensureSchema] returns an error and
    records versions 1 to 3 only, but the [reaction_to_id] column added by
    the failed migration stays in the schema: no transaction undid it.
    Likewise, with the engine rejecting the last index of migration 1's
    text, nothing is recorded but the tables that text created before
    stay. *)
Lemma ensureSchema_partial_migration :
  map fst (ledger (fst (ensureSchema fails_reaction_emoji ex_reaction_cols empty_schema)))
    = [1; 2; 3]
  /\ snd (ensureSchema fails_reaction_emoji ex_reaction_cols empty_schema)
     = Some "apply migration 004 messages reaction columns: add reaction_emoji column: database error"
  /\ tableHasColumn (fst (ensureSchema fails_reaction_emoji ex_reaction_cols empty_schema))
       "messages" "reaction_to_id" = true
  /\ tableHasColumn empty_schema "messages" "reaction_to_id" = false
  /\ ensureSchema fails_ts_index ex_reaction_cols empty_schema
     = (fst (ensureSchema fails_ts_index ex_reaction_cols empty_schema),
        Some "apply migration 001 core schema: create tables: database error")
  /\ ledger (fst (ensureSchema fails_ts_index ex_reaction_cols empty_schema)) = []
  /\ tableExists (fst (ensureSchema fails_ts_index ex_reaction_cols empty_schema))
       "messages" = true.
Proof. repeat split; vm_compute; reflexivity. Qed.

(** * Beyond the claims *)

(** ** Helpers *)

Lemma opt_or_empty_nullIfEmpty (s : string) : opt_or_empty (nullIfEmpty s) = TrimSpace s.
Proof.
  unfold nullIfEmpty. destruct (String.eqb (TrimSpace s) "") eqn:E; [|reflexivity].
  apply String.eqb_eq in E. simpl. rewrite E. reflexivity.
Qed.

Lemma nullIfEmpty_some (s : string) : TrimSpace s <> "" -> nullIfEmpty s = Some (TrimSpace s).
Proof.
  intros H. unfold nullIfEmpty. apply String.eqb_neq in H. rewrite H. reflexivity.
Qed.

Lemma boolToInt_not_zero (b : bool) : negb (boolToInt b =? 0) = b.
Proof. destruct b; reflexivity. Qed.

Lemma row_key_is_true (c i : string) (r : msg_row) :
  row_key_is c i r = true -> m_chat_jid r = c /\ m_msg_id r = i.
Proof.
  unfold row_key_is. intros H. apply andb_prop in H. destruct H as [H1 H2].
  apply String.eqb_eq in H1, H2. split; assumption.
Qed.

Lemma get_row_key (d : DB) (c i : string) (r : msg_row) :
  get_row d c i = Some r -> In r (messages d) /\ m_chat_jid r = c /\ m_msg_id r = i.
Proof.
  unfold get_row. intros H. apply find_some in H. destruct H as [Hin Hk].
  apply row_key_is_true in Hk. tauto.
Qed.

(** ** ListMessages *)

(** [ListMessages] returns the messages passing its chat and time filters,
    newest first, at most [p.Limit] of them (50 when [p.Limit <= 0]), and
    leaves out a matching message only when the result is full of messages
    at least as recent. *)
Theorem ListMessages_window (d : DB) (p : LP.ListMessagesParams)
    (out : res (list Msg.Message)) :
  ListMessages d p out ->
  exists rows,
    out = Ok (map (to_message d "") rows)
    /\ StronglySorted (fun a b => m_ts b <= m_ts a) rows
    /\ (List.length rows <= Z.to_nat (search_limit (LP.Limit p)))%nat
    /\ (forall r, In r rows -> In r (messages d) /\ list_filters p r = true)
    /\ (forall r, In r (messages d) -> list_filters p r = true ->
          In r rows
          \/ (List.length rows = Z.to_nat (search_limit (LP.Limit p))
              /\ forall y, In y rows -> m_ts r <= m_ts y)).
Proof.
  intros [rows [Hsel ->]]. fold (search_limit (LP.Limit p)) in Hsel.
  pose proof (search_limit_pos (LP.Limit p)) as Hpos.
  assert (Htr : forall a b c : msg_row,
             m_ts b <= m_ts a -> m_ts c <= m_ts b -> m_ts c <= m_ts a) by (intros; lia).
  exists rows. split; [reflexivity|].
  split; [exact (select_ordered_sorted _ _ _ _ _ Htr Hsel)|].
  split; [exact (select_ordered_length _ _ _ _ _ (Z.lt_le_incl _ _ Hpos) Hsel)|].
  split; [intros r Hr; exact (select_ordered_in _ _ _ _ _ r Hsel Hr)|].
  intros r Hr Hf.
  destruct (select_ordered_complete _ _ _ _ _ r Htr (Z.lt_le_incl _ _ Hpos) Hsel Hr Hf)
    as [I|[Hlen Hall]]; [left; exact I | right; split; [exact Hlen | exact Hall]].
Qed.

Lemma ListMessages_window_witness :
  exists rows,
    ex_list_out = Ok (map (to_message ex_small_db "") rows)
    /\ (List.length rows <= 50)%nat.
Proof.
  assert (H : ListMessages ex_small_db ex_list_params ex_list_out).
  { exists (run_select_desc (messages ex_small_db) (list_filters ex_list_params) m_ts 50).
    split; [apply run_select_desc_ok | reflexivity]. }
  destruct (ListMessages_window _ _ _ H) as [rows [Ho [_ [Hl _]]]].
  exists rows. split; [exact Ho | exact Hl].
Defined.

(** ** GetOldestMessageInfo *)

(** [GetOldestMessageInfo] trims the chat JID; a blank one is an error; a
    chat with no stored message gives [sql.ErrNoRows]; otherwise it
    returns a message of that chat with the smallest timestamp. *)
Theorem GetOldestMessageInfo_spec (d : DB) (chat : string) (out : res MessageInfo) :
  GetOldestMessageInfo d chat out ->
  (TrimSpace chat = "" -> out = Err "chat JID is required")
  /\ (TrimSpace chat <> "" ->
      (forall r, In r (messages d) -> m_chat_jid r <> TrimSpace chat) ->
      out = Err ErrNoRows)
  /\ (forall x, In x (messages d) -> m_chat_jid x = TrimSpace chat -> TrimSpace chat <> "" ->
      exists r, out = Ok (to_message_info r) /\ In r (messages d)
        /\ m_chat_jid r = TrimSpace chat
        /\ forall y, In y (messages d) -> m_chat_jid y = TrimSpace chat -> m_ts r <= m_ts y).
Proof.
  unfold GetOldestMessageInfo. cbv zeta.
  destruct (String.eqb (TrimSpace chat) "") eqn:E.
  - apply String.eqb_eq in E. intros H.
    split; [intros _; exact H|]. split; intros; congruence.
  - apply String.eqb_neq in E. intros [rows [Hsel ->]].
    assert (Htr : forall a b c : msg_row,
               m_ts a <= m_ts b -> m_ts b <= m_ts c -> m_ts a <= m_ts c) by (intros; lia).
    assert (Hin : forall r, In r rows -> In r (messages d) /\ m_chat_jid r = TrimSpace chat).
    { intros r Hr. destruct (select_ordered_in _ _ _ _ _ r Hsel Hr) as [H1 H2].
      apply String.eqb_eq in H2. split; assumption. }
    split; [intros H; congruence|]. split.
    + intros _ Hno. destruct rows as [|r rows]; [reflexivity|].
      destruct (Hin r (or_introl eq_refl)) as [H1 H2]. exfalso. exact (Hno r H1 H2).
    + intros x Hx Hcx _.
      assert (Hc : forall y, In y (messages d) -> m_chat_jid y = TrimSpace chat ->
                 In y rows \/ (List.length rows = 1%nat /\ forall z, In z rows -> m_ts z <= m_ts y)).
      { intros y Hy Hcy. apply (select_ordered_complete _ _ _ _ _ y Htr Z.le_0_1 Hsel Hy).
        apply String.eqb_eq. exact Hcy. }
      pose proof (select_ordered_length _ _ _ _ _ Z.le_0_1 Hsel) as Hlen.
      destruct rows as [|r rows].
      * destruct (Hc x Hx Hcx) as [[]|[Hl _]]. discriminate.
      * destruct rows as [|r2 rows]; [|simpl in Hlen; lia].
        destruct (Hin r (or_introl eq_refl)) as [H1 H2].
        exists r. split; [reflexivity|]. split; [exact H1|]. split; [exact H2|].
        intros y Hy Hcy. destruct (Hc y Hy Hcy) as [[<-|[]]|[_ Hz]]; [lia|].
        apply Hz. left. reflexivity.
Qed.

Lemma GetOldestMessageInfo_spec_witness :
  GetOldestMessageInfo ex_small_db "c"
    (Ok (to_message_info (ex_row "c" "m1" 100 "hello")))
  /\ exists r, Ok (to_message_info (ex_row "c" "m1" 100 "hello")) = Ok (to_message_info r)
       /\ In r (messages ex_small_db) /\ m_chat_jid r = "c".
Proof.
  assert (H : GetOldestMessageInfo ex_small_db "c"
                (Ok (to_message_info (ex_row "c" "m1" 100 "hello")))).
  { unfold GetOldestMessageInfo. cbv zeta.
    change (String.eqb (TrimSpace "c") "") with false. cbv iota.
    exists (run_select_asc (messages ex_small_db)
              (fun r => String.eqb (m_chat_jid r) (TrimSpace "c")) m_ts 1).
    split; [apply run_select_asc_ok | vm_compute; reflexivity]. }
  split; [exact H|].
  destruct (GetOldestMessageInfo_spec _ _ _ H) as [_ [_ H3]].
  destruct (H3 (ex_row "c" "m1" 100 "hello") ltac:(simpl; left; reflexivity)
              ltac:(reflexivity) ltac:(vm_compute; congruence))
    as [r [Ho [Hr [Hc _]]]].
  exists r. split; [exact Ho|]. split; [exact Hr | exact Hc].
Defined.

(** ** CountMessages *)

(** A successful [UpsertMessage] adds one to [CountMessages] when its
    (chat, id) key is new and leaves it unchanged when the key is stored. *)
Theorem UpsertMessage_CountMessages (d d' : DB) (p : UpsertMessageParams) :
  UpsertMessage d p = Ok d' ->
  CountMessages d' =
  CountMessages d
  + (if existsb (row_key_is (ChatJID p) (MsgID p)) (messages d) then 0 else 1).
Proof.
  intros H. apply UpsertMessage_ok in H. subst d'. unfold CountMessages, upsert_rows. simpl.
  destruct (existsb (row_key_is (ChatJID p) (MsgID p)) (messages d)).
  - rewrite length_map. lia.
  - rewrite length_app. simpl. lia.
Qed.

Lemma UpsertMessage_CountMessages_witness :
  UpsertMessage (ex_db []) (ex_params "c" "m1" 100 "hello")
    = Ok (ex_db [msg_excluded (ex_params "c" "m1" 100 "hello")])
  /\ CountMessages (ex_db [msg_excluded (ex_params "c" "m1" 100 "hello")]) = 1.
Proof.
  assert (H : UpsertMessage (ex_db []) (ex_params "c" "m1" 100 "hello")
                = Ok (ex_db [msg_excluded (ex_params "c" "m1" 100 "hello")]))
    by reflexivity.
  split; [exact H|].
  rewrite (UpsertMessage_CountMessages _ _ _ H). reflexivity.
Defined.

(** ** UpsertMessage then GetMessage *)

(** After a successful [UpsertMessage], [GetMessage] on its key returns
    the message with the trimmed sender, text and media type, the stored
    time [fromUnix(unix(ts))] and the from-me flag, whether the key was new
    or already stored; a non-blank display text is returned trimmed. *)
Theorem UpsertMessage_GetMessage (d d' : DB) (p : UpsertMessageParams) :
  UpsertMessage d p = Ok d' ->
  exists m,
    GetMessage d' (ChatJID p) (MsgID p) = Ok m
    /\ Msg.ChatJID m = ChatJID p /\ Msg.MsgID m = MsgID p
    /\ Msg.SenderJID m = TrimSpace (SenderJID p)
    /\ Msg.Timestamp m = fromUnix (unix (Timestamp p))
    /\ Msg.FromMe m = FromMe p
    /\ Msg.Text m = TrimSpace (Text p)
    /\ Msg.MediaType m = TrimSpace (MediaType p)
    /\ (TrimSpace (DisplayText p) <> "" -> Msg.DisplayText m = TrimSpace (DisplayText p)).
Proof.
  intros H. unfold GetMessage. rewrite (UpsertMessage_get_row _ _ _ H).
  eexists. split; [reflexivity|].
  destruct (get_row d (ChatJID p) (MsgID p)) as [r|] eqn:Er.
  - apply get_row_key in Er. destruct Er as [_ [Hc Hi]]. simpl.
    rewrite Hc, Hi, !opt_or_empty_nullIfEmpty, boolToInt_not_zero.
    do 7 (split; [reflexivity|]).
    intros Hd. rewrite (nullIfEmpty_some _ Hd). simpl.
    apply String.eqb_neq in Hd. rewrite Hd. reflexivity.
  - simpl. rewrite !opt_or_empty_nullIfEmpty, boolToInt_not_zero.
    do 7 (split; [reflexivity|]). intros _. reflexivity.
Qed.

Lemma UpsertMessage_GetMessage_witness :
  exists m, GetMessage (ex_db [msg_excluded (ex_params "c" "m1" 100 " hello ")]) "c" "m1" = Ok m
    /\ Msg.Text m = "hello".
Proof.
  destruct (UpsertMessage_GetMessage (ex_db []) _ (ex_params "c" "m1" 100 " hello ")
              eq_refl) as [m [Hg [_ [_ [_ [_ [_ [Ht _]]]]]]]].
  exists m. split; [exact Hg|]. rewrite Ht. reflexivity.
Defined.

(** ** Media download bookkeeping *)

Lemma MarkMediaDownloaded_get_row (d : DB) (chat id path : string) (t : time) (c i : string) :
  get_row (MarkMediaDownloaded d chat id path t) c i
  = if String.eqb c chat && String.eqb i id
    then option_map (set_downloaded path (unix t)) (get_row d c i)
    else get_row d c i.
Proof.
  unfold MarkMediaDownloaded, get_row. simpl.
  destruct (String.eqb c chat && String.eqb i id) eqn:E.
  - apply andb_prop in E. destruct E as [E1 E2]. apply String.eqb_eq in E1, E2. subst.
    rewrite find_map_option
      by (intros x; destruct (row_key_is chat id x) eqn:E; exact E).
    destruct (find (row_key_is chat id) (messages d)) as [r|] eqn:Ef; [|reflexivity].
    apply find_some in Ef. simpl. rewrite (proj2 Ef). reflexivity.
  - apply find_map_same.
    + intros x. destruct (row_key_is chat id x); reflexivity.
    + intros x Hx. destruct (row_key_is chat id x) eqn:Ex; [|reflexivity].
      apply row_key_is_true in Hx, Ex. destruct Hx as [H1 H2]. destruct Ex as [H3 H4].
      rewrite H1 in H3. rewrite H2 in H4. subst.
      rewrite !String.eqb_refl in E. discriminate.
Qed.

(** [MarkMediaDownloaded] followed by [GetMediaDownloadInfo] on the same
    message reports the given local path and the download time
    [fromUnix(unix(t))] and everything else as before; other messages are
    untouched, and marking a message that is not stored changes nothing. *)
Theorem MarkMediaDownloaded_roundtrip (d : DB) (chat id path : string) (t : time) :
  (forall info, GetMediaDownloadInfo d chat id = Ok info ->
     GetMediaDownloadInfo (MarkMediaDownloaded d chat id path t) chat id
     = Ok {| MD_ChatJID := MD_ChatJID info; MD_ChatName := MD_ChatName info;
             MD_MsgID := MD_MsgID info; MD_MediaType := MD_MediaType info;
             MD_Filename := MD_Filename info; MD_MimeType := MD_MimeType info;
             MD_DirectPath := MD_DirectPath info; MD_MediaKey := MD_MediaKey info;
             MD_FileSHA256 := MD_FileSHA256 info; MD_FileEncSHA256 := MD_FileEncSHA256 info;
             MD_FileLength := MD_FileLength info; MD_LocalPath := path;
             MD_DownloadedAt := fromUnix (unix t) |})
  /\ (forall c i, (c, i) <> (chat, id) ->
        GetMediaDownloadInfo (MarkMediaDownloaded d chat id path t) c i
        = GetMediaDownloadInfo d c i)
  /\ (get_row d chat id = None ->
        messages (MarkMediaDownloaded d chat id path t) = messages d).
Proof.
  split; [|split].
  - intros info H. unfold GetMediaDownloadInfo in H |- *.
    rewrite MarkMediaDownloaded_get_row, !String.eqb_refl. simpl andb.
    destruct (get_row d chat id) as [r|]; [|discriminate].
    injection H as <-. reflexivity.
  - intros c i Hne. unfold GetMediaDownloadInfo.
    rewrite MarkMediaDownloaded_get_row.
    destruct (String.eqb c chat && String.eqb i id) eqn:E; [|reflexivity].
    apply andb_prop in E. destruct E as [E1 E2]. apply String.eqb_eq in E1, E2.
    subst. exfalso. apply Hne. reflexivity.
  - intros Hn. unfold MarkMediaDownloaded. simpl.
    unfold get_row in Hn. pose proof (find_none _ _ Hn) as Hf.
    rewrite <- (map_id (messages d)) at 2. apply map_ext_in.
    intros x Hx. rewrite (Hf x Hx). reflexivity.
Qed.

(** An incoming file length of 0, or of [2^63] or more (negative once
    converted to [int64]), never replaces the stored one: a new message
    then reports 0; a length in [(0, 2^63)] is reported as given. *)
Theorem UpsertMessage_file_length (d d' : DB) (p : UpsertMessageParams) :
  UpsertMessage d p = Ok d' -> 0 <= FileLength p < 2 ^ 64 ->
  exists info,
    GetMediaDownloadInfo d' (ChatJID p) (MsgID p) = Ok info
    /\ (0 < FileLength p < 2 ^ 63 -> MD_FileLength info = FileLength p)
    /\ (FileLength p = 0 \/ 2 ^ 63 <= FileLength p ->
        MD_FileLength info = match GetMediaDownloadInfo d (ChatJID p) (MsgID p) with
                             | Ok old => MD_FileLength old
                             | Err _ => 0
                             end).
Proof.
  intros H Hb. unfold GetMediaDownloadInfo. rewrite (UpsertMessage_get_row _ _ _ H).
  eexists. split; [reflexivity|]. split.
  - intros Hp.
    assert (E : int64_of_uint64 (FileLength p) = FileLength p)
      by (unfold int64_of_uint64; destruct (Z.ltb_spec (FileLength p) (2 ^ 63)); lia).
    assert (G : (FileLength p >? 0) = true) by (rewrite Z.gtb_ltb; apply Z.ltb_lt; lia).
    destruct (get_row d (ChatJID p) (MsgID p)); cbn -[Z.gtb int64_of_uint64];
      rewrite E, G; cbn -[Z.gtb]; rewrite ?G; reflexivity.
  - intros Hz.
    assert (G : (int64_of_uint64 (FileLength p) >? 0) = false)
      by (unfold int64_of_uint64; rewrite Z.gtb_ltb, Z.ltb_ge;
          destruct (Z.ltb_spec (FileLength p) (2 ^ 63)); lia).
    destruct (get_row d (ChatJID p) (MsgID p)); cbn -[Z.gtb int64_of_uint64];
      rewrite G; reflexivity.
Qed.

Lemma UpsertMessage_file_length_witness :
  exists info,
    GetMediaDownloadInfo (ex_db [msg_excluded (ex_params "c" "m1" 100 "hello")]) "c" "m1"
      = Ok info /\ MD_FileLength info = 0.
Proof.
  destruct (UpsertMessage_file_length (ex_db []) _ (ex_params "c" "m1" 100 "hello")
              eq_refl ltac:(simpl; lia)) as [info [Hg [_ Hz]]].
  exists info. split; [exact Hg|]. rewrite Hz; [reflexivity | left; reflexivity].
Defined.

(** ** Selections over any table: helpers *)

Lemma select_rows_in {A} (rows : list A) (pred : A -> bool) (R : A -> A -> Prop)
    (lim : Z) (out : list A) (x : A) :
  select_rows rows pred R lim out -> In x out -> In x rows /\ pred x = true.
Proof.
  intros [l [Hp [_ ->]]] Hx. apply filter_In.
  apply (Permutation_in _ Hp).
  unfold sql_limit in Hx. destruct (lim <? 0); [exact Hx | eapply in_firstn; exact Hx].
Qed.

Lemma select_rows_length {A} (rows : list A) (pred : A -> bool) (R : A -> A -> Prop)
    (lim : Z) (out : list A) :
  0 <= lim -> select_rows rows pred R lim out -> (List.length out <= Z.to_nat lim)%nat.
Proof.
  intros Hl [l [_ [_ ->]]]. rewrite sql_limit_firstn by exact Hl.
  rewrite length_firstn. lia.
Qed.

Lemma select_rows_sorted {A} (rows : list A) (pred : A -> bool) (R : A -> A -> Prop)
    (lim : Z) (out : list A) :
  (forall a b c, R a b -> R b c -> R a c) ->
  select_rows rows pred R lim out -> StronglySorted R out.
Proof.
  intros Ht [l [_ [Hs ->]]]. apply Sorted_StronglySorted in Hs; [|exact Ht].
  unfold sql_limit. destruct (lim <? 0); [exact Hs|].
  rewrite <- (firstn_skipn (Z.to_nat lim) l) in Hs.
  apply StronglySorted_app_inv in Hs. apply Hs.
Qed.

Lemma select_rows_Sorted {A} (rows : list A) (pred : A -> bool) (R : A -> A -> Prop)
    (lim : Z) (out : list A) :
  select_rows rows pred R lim out -> Sorted R out.
Proof.
  intros [l [_ [Hs ->]]]. unfold sql_limit. destruct (lim <? 0); [exact Hs|].
  revert l Hs. induction (Z.to_nat lim) as [|n IH]; intros l Hs; [constructor|].
  destruct l as [|a l]; [constructor|]. simpl.
  apply Sorted_inv in Hs. destruct Hs as [Hs Hh].
  constructor; [apply IH; exact Hs|].
  destruct n; [constructor|]. destruct l as [|b l]; [constructor|].
  inversion Hh; subst. constructor. assumption.
Qed.

(** a selected row that is not in the result is left out by a full [LIMIT] *)
Lemma select_rows_full {A} (rows : list A) (pred : A -> bool) (R : A -> A -> Prop)
    (lim : Z) (out : list A) (x : A) :
  0 <= lim -> select_rows rows pred R lim out ->
  In x rows -> pred x = true -> In x out \/ List.length out = Z.to_nat lim.
Proof.
  intros Hl [l [Hp [_ ->]]] Hx Hpx.
  rewrite sql_limit_firstn by exact Hl.
  assert (Hxl : In x l)
    by (apply (Permutation_in _ (Permutation_sym Hp)); apply filter_In; split; assumption).
  rewrite <- (firstn_skipn (Z.to_nat lim) l) in Hxl.
  apply in_app_or in Hxl. destruct Hxl as [Hin|Hin]; [left; exact Hin|].
  right. rewrite length_firstn.
  assert (Hlen : (0 < List.length (skipn (Z.to_nat lim) l))%nat)
    by (destruct (skipn (Z.to_nat lim) l); [destruct Hin | simpl; lia]).
  rewrite length_skipn in Hlen. lia.
Qed.

Lemma select_rows_complete {A} (rows : list A) (pred : A -> bool) (R : A -> A -> Prop)
    (lim : Z) (out : list A) (x : A) :
  (forall a b c, R a b -> R b c -> R a c) -> 0 <= lim ->
  select_rows rows pred R lim out ->
  In x rows -> pred x = true ->
  In x out \/ (List.length out = Z.to_nat lim /\ forall y, In y out -> R y x).
Proof.
  intros Ht Hl [l [Hp [Hs ->]]] Hx Hpx.
  rewrite sql_limit_firstn by exact Hl.
  assert (Hxl : In x l)
    by (apply (Permutation_in _ (Permutation_sym Hp)); apply filter_In; split; assumption).
  apply Sorted_StronglySorted in Hs; [|exact Ht].
  rewrite <- (firstn_skipn (Z.to_nat lim) l) in Hxl, Hs.
  apply in_app_or in Hxl. destruct Hxl as [Hin|Hin]; [left; exact Hin|].
  right. split.
  - rewrite length_firstn. assert (Hlen : (0 < List.length (skipn (Z.to_nat lim) l))%nat)
      by (destruct (skipn (Z.to_nat lim) l); [destruct Hin | simpl; lia]).
    rewrite length_skipn in Hlen. lia.
  - intros y Hy. apply StronglySorted_app_inv in Hs. destruct Hs as [_ [_ Hc]].
    apply Hc; assumption.
Qed.

Lemma null_le_trans (a b c : option Z) : null_le a b -> null_le b c -> null_le a c.
Proof. destruct a, b, c; simpl; intuition lia. Qed.

(** ** Upserts keyed on one column: helpers *)

Lemma find_upsert {A} (k : A -> bool) (f : A -> A) (ex : A) (l : list A) :
  k ex = true -> (forall x, k x = true -> k (f x) = true) ->
  find k (if existsb k l then map (fun x => if k x then f x else x) l else l ++ [ex])
  = Some (match find k l with Some x => f x | None => ex end).
Proof.
  intros Hex Hf. destruct (existsb k l) eqn:E.
  - rewrite find_map_update by exact Hf. destruct (find k l) eqn:F; [reflexivity|].
    exfalso. apply existsb_exists in E. destruct E as [x [Hx Hkx]].
    rewrite (find_none _ _ F x Hx) in Hkx. discriminate.
  - rewrite (find_none_existsb _ _ E).
    rewrite (find_app_none _ _ _ (find_none_existsb _ _ E)). simpl. rewrite Hex. reflexivity.
Qed.


Lemma find_filter_negb {A} (q : A -> bool) (l : list A) :
  find q (filter (fun x => negb (q x)) l) = None.
Proof.
  induction l as [|a l IH]; simpl; [reflexivity|].
  destruct (q a) eqn:E; simpl; [exact IH|]. rewrite E. exact IH.
Qed.


Lemma opt_or_empty_NULLIF (o : option string) : opt_or_empty (NULLIF_empty o) = opt_or_empty o.
Proof.
  destruct o as [v|]; [|reflexivity]. simpl.
  destruct (String.eqb v "") eqn:E; [apply String.eqb_eq in E; subst|]; reflexivity.
Qed.

Lemma NULLIF_empty_some (v : string) : v <> "" -> NULLIF_empty (Some v) = Some v.
Proof. intros H. simpl. apply String.eqb_neq in H. rewrite H. reflexivity. Qed.

Lemma NULLIF_empty_nil : NULLIF_empty (Some "") = None.
Proof. reflexivity. Qed.

(** ** GetChat after UpsertChat *)


(** ** ListChats *)

(** For a query within the [LIKE] pattern length limit, [ListChats]
    returns chats passing its query filter, at most [limit] of them (50
    when [limit <= 0]), most recent last message first and chats with no
    last-message time last; a blank query selects every chat and a query
    with no NUL byte found in a chat's JID (up to ASCII case) selects it; a
    selected chat is left out only when the result is full of chats at
    least as recent. *)
Theorem ListChats_window (d : DB) (query : string) (limit : Z) (out : res (list Chat)) :
  ListChats d query limit out ->
  Z.of_nat (String.length query) + 2 <= like_pattern_limit ->
  exists rows,
    out = Ok (map to_chat rows)
    /\ (List.length rows <= Z.to_nat (search_limit limit))%nat
    /\ StronglySorted (fun a b => null_le (c_last_message_ts b) (c_last_message_ts a)) rows
    /\ (forall c, In c rows -> In c (chats d) /\ chat_filter query c = true)
    /\ (TrimSpace query = "" -> forall c, chat_filter query c = true)
    /\ (no_nul query = true ->
        forall c, contains_ci (c_jid c) query = true -> chat_filter query c = true)
    /\ (forall c, In c (chats d) -> chat_filter query c = true ->
          In c rows
          \/ (List.length rows = Z.to_nat (search_limit limit)
              /\ forall y, In y rows -> null_le (c_last_message_ts c) (c_last_message_ts y))).
Proof.
  intros H Hlen. unfold ListChats in H.
  assert (E : (like_pattern_limit <? Z.of_nat (String.length query) + 2) = false)
    by (apply Z.ltb_ge; exact Hlen).
  rewrite E, andb_false_r in H. destruct H as [rows [Hsel ->]].
  fold (search_limit limit) in Hsel.
  pose proof (Z.lt_le_incl _ _ (search_limit_pos limit)) as Hpos.
  assert (Htr : forall a b c : chat_row,
             null_le (c_last_message_ts b) (c_last_message_ts a) ->
             null_le (c_last_message_ts c) (c_last_message_ts b) ->
             null_le (c_last_message_ts c) (c_last_message_ts a))
    by (intros a b c H1 H2; exact (null_le_trans _ _ _ H2 H1)).
  exists rows. split; [reflexivity|].
  split; [exact (select_rows_length _ _ _ _ _ Hpos Hsel)|].
  split; [exact (select_rows_sorted _ _ _ _ _ Htr Hsel)|].
  split; [intros c Hc; exact (select_rows_in _ _ _ _ _ c Hsel Hc)|].
  split; [intros Hq c; unfold chat_filter; rewrite Hq; reflexivity|].
  split.
  - intros Hn c Hc. unfold chat_filter. destruct (String.eqb (TrimSpace query) ""); [reflexivity|].
    cbv zeta. rewrite (like_col_contains _ _ Hn Hc). apply orb_true_r.
  - intros c Hc Hf. exact (select_rows_complete _ _ _ _ _ c Htr Hpos Hsel Hc Hf).
Qed.

Lemma ListChats_window_witness :
  exists rows, Ok (map to_chat [ex_chat "c"]) = Ok (map to_chat rows)
    /\ (List.length rows <= 50)%nat.
Proof.
  assert (H : ListChats (ex_db []) "" 0 (Ok (map to_chat [ex_chat "c"]))).
  { unfold ListChats. vm_compute (negb _ && _). exists [ex_chat "c"]. split; [|reflexivity].
    exists [ex_chat "c"]. split; [reflexivity|]. split; [repeat constructor | reflexivity]. }
  destruct (ListChats_window _ _ _ _ H ltac:(vm_compute; congruence)) as [rows [Ho [Hl _]]].
  exists rows. split; [exact Ho | exact Hl].
Defined.

(** ** UpsertGroup *)


(** ** ListGroups *)


(** ** Contacts: helpers *)

Lemma get_contact_jid (cdb : ContactDB) (jid : string) (r : contact_row) :
  get_contact cdb jid = Some r -> ct_jid r = jid.
Proof.
  unfold get_contact. intros H. apply find_some in H. destruct H as [_ H].
  apply String.eqb_eq. exact H.
Qed.

Lemma GetContact_Ok (cdb : ContactDB) (jid : string) (c : Contact) :
  GetContact cdb jid (Ok c) ->
  exists r ts, get_contact cdb jid = Some r /\ ListTags cdb jid ts /\ c = to_contact cdb r ts.
Proof.
  unfold GetContact. destruct (get_contact cdb jid) as [r|]; [|discriminate].
  intros [ts [Hts Hc]]. injection Hc as ->. exists r, ts. auto.
Qed.

Lemma ListTags_In (cdb : ContactDB) (jid : string) (ts : list string) (t : string) :
  ListTags cdb jid ts ->
  (In t ts <-> exists x, In x (tags cdb) /\ t_jid x = jid /\ t_tag x = t).
Proof.
  intros [Hp _]. split.
  - intros H. apply (Permutation_in _ Hp) in H. apply in_map_iff in H.
    destruct H as [x [Hx Hin]]. apply filter_In in Hin. destruct Hin as [Hin Hj].
    apply String.eqb_eq in Hj. exists x. auto.
  - intros [x [Hx [Hj Ht]]]. apply (Permutation_in _ (Permutation_sym Hp)).
    apply in_map_iff. exists x. split; [exact Ht|]. apply filter_In. split; [exact Hx|].
    apply String.eqb_eq. exact Hj.
Qed.

Lemma UpsertContact_get_contact (cdb : ContactDB)
    (jid phone pushName fullName firstName businessName : string) (now : Z) :
  get_contact (UpsertContact cdb jid phone pushName fullName firstName businessName now) jid
  = Some (match get_contact cdb jid with
          | Some r => contact_merge r (contact_excluded jid phone pushName fullName firstName
                                                      businessName now)
          | None => contact_excluded jid phone pushName fullName firstName businessName now
          end).
Proof.
  unfold get_contact, UpsertContact. cbv zeta. cbn [contacts].
  exact (find_upsert (fun c => String.eqb (ct_jid c) jid)
           (fun c => contact_merge c (contact_excluded jid phone pushName fullName firstName
                                        businessName now))
           (contact_excluded jid phone pushName fullName firstName businessName now)
           (contacts cdb) (String.eqb_refl jid) (fun x Hx => Hx)).
Qed.

(** ** UpsertContact then GetContact *)

(** After [UpsertContact], [GetContact] returns the contact with the new
    update time; a non-empty phone or full name is returned as given (the
    full name wins over the other names); an empty phone, or empty names all
    round, keep what [GetContact] returned before; the alias is untouched. *)
Theorem UpsertContact_GetContact (cdb : ContactDB)
    (jid phone pushName fullName firstName businessName : string) (now : Z)
    (out : res Contact) :
  GetContact (UpsertContact cdb jid phone pushName fullName firstName businessName now) jid out ->
  exists c, out = Ok c
    /\ CT_JID c = jid
    /\ CT_UpdatedAt c = fromUnix now
    /\ CT_Alias c = contact_alias cdb jid
    /\ (phone <> "" -> CT_Phone c = phone)
    /\ (fullName <> "" -> CT_Name c = fullName)
    /\ (forall c0, GetContact cdb jid (Ok c0) ->
          (phone = "" -> CT_Phone c = CT_Phone c0)
          /\ (pushName = "" -> fullName = "" -> firstName = "" -> businessName = "" ->
              CT_Name c = CT_Name c0)).
Proof.
  unfold GetContact at 1. rewrite UpsertContact_get_contact.
  intros [ts [_ ->]]. eexists. split; [reflexivity|].
  destruct (get_contact cdb jid) as [r|] eqn:Er.
  - pose proof (get_contact_jid _ _ _ Er) as Hj. unfold to_contact. simpl.
    rewrite Hj. split; [reflexivity|]. split; [reflexivity|]. split; [reflexivity|].
    split; [intros Hp; apply String.eqb_neq in Hp; rewrite Hp; reflexivity|].
    split; [intros Hf; apply String.eqb_neq in Hf; unfold contact_name; simpl; rewrite Hf;
            simpl; rewrite ?Hf; reflexivity|].
    intros c0 H0. apply GetContact_Ok in H0. destruct H0 as [r0 [ts0 [E0 [_ ->]]]].
    rewrite Er in E0. injection E0 as <-. simpl. split.
    + intros ->. reflexivity.
    + intros -> -> -> ->. reflexivity.
  - unfold to_contact. simpl. split; [reflexivity|]. split; [reflexivity|].
    split; [reflexivity|]. split; [intros _; reflexivity|].
    split; [intros Hf; apply String.eqb_neq in Hf; unfold contact_name; simpl; rewrite Hf;
            reflexivity|].
    intros c0 H0. apply GetContact_Ok in H0. destruct H0 as [r0 [ts0 [E0 _]]].
    rewrite Er in E0. discriminate.
Qed.

Lemma UpsertContact_GetContact_witness :
  exists c, GetContact (UpsertContact ex_contact_db "a@s" "" "" "" "" "" 200) "a@s" (Ok c)
    /\ CT_Name c = "Alice Smith".
Proof.
  assert (H : GetContact (UpsertContact ex_contact_db "a@s" "" "" "" "" "" 200) "a@s"
                (Ok (to_contact ex_contact_db (contact_merge (ex_contact "a@s")
                      (contact_excluded "a@s" "" "" "" "" "" 200)) []))).
  { exists []. split; [split; constructor | reflexivity]. }
  destruct (UpsertContact_GetContact _ _ _ _ _ _ _ _ _ H) as [c [Hc [_ [_ [_ [_ [_ H0]]]]]]].
  exists c. split; [rewrite <- Hc; exact H|].
  assert (G : GetContact ex_contact_db "a@s" (Ok (to_contact ex_contact_db (ex_contact "a@s") [])))
    by (exists []; split; [split; constructor | reflexivity]).
  destruct (H0 _ G) as [_ Hn]. rewrite (Hn eq_refl eq_refl eq_refl eq_refl). reflexivity.
Defined.

(** ** Aliases *)

(** [SetAlias] refuses a blank alias; otherwise [GetContact] afterwards
    returns the trimmed alias and the contact otherwise unchanged; after
    [RemoveAlias] it returns an empty alias and the contact otherwise
    unchanged. *)
Theorem SetAlias_RemoveAlias_GetContact (cdb : ContactDB) (jid alias : string) (now : Z)
    (c : Contact) :
  GetContact cdb jid (Ok c) ->
  (TrimSpace alias = "" -> SetAlias cdb jid alias now = Err "alias is required")
  /\ (TrimSpace alias <> "" ->
      exists cdb', SetAlias cdb jid alias now = Ok cdb'
        /\ GetContact cdb' jid
             (Ok {| CT_JID := CT_JID c; CT_Phone := CT_Phone c; CT_Name := CT_Name c;
                    CT_Alias := TrimSpace alias; CT_Tags := CT_Tags c;
                    CT_UpdatedAt := CT_UpdatedAt c |}))
  /\ GetContact (RemoveAlias cdb jid) jid
       (Ok {| CT_JID := CT_JID c; CT_Phone := CT_Phone c; CT_Name := CT_Name c;
              CT_Alias := ""; CT_Tags := CT_Tags c; CT_UpdatedAt := CT_UpdatedAt c |}).
Proof.
  intros H. apply GetContact_Ok in H. destruct H as [r [ts [Er [Hts ->]]]].
  pose proof (get_contact_jid _ _ _ Er) as Hj.
  split; [|split].
  - intros Ha. unfold SetAlias. cbv zeta. rewrite Ha. reflexivity.
  - intros Ha. unfold SetAlias. cbv zeta. apply String.eqb_neq in Ha as Ha'. rewrite Ha'.
    eexists. split; [reflexivity|]. unfold GetContact, get_contact. cbn [contacts].
    unfold get_contact in Er. rewrite Er. exists ts. split; [exact Hts|].
    unfold to_contact, contact_alias, get_alias.
    cbn [aliases CT_JID CT_Phone CT_Name CT_Alias CT_Tags CT_UpdatedAt]. rewrite Hj.
    rewrite (find_upsert (fun a => String.eqb (a_jid a) jid)
               (fun a => {| a_jid := a_jid a; a_alias := TrimSpace alias;
                            a_notes := a_notes a; a_updated_at := now |})
               {| a_jid := jid; a_alias := TrimSpace alias; a_notes := None;
                  a_updated_at := now |} (aliases cdb) (String.eqb_refl jid) (fun x Hx => Hx)).
    destruct (find (fun a => String.eqb (a_jid a) jid) (aliases cdb));
      cbn; rewrite Ha'; reflexivity.
  - unfold GetContact, get_contact, RemoveAlias. cbn [contacts].
    unfold get_contact in Er. rewrite Er.
    exists ts. split; [exact Hts|].
    unfold to_contact, contact_alias, get_alias.
    cbn [aliases CT_JID CT_Phone CT_Name CT_Alias CT_Tags CT_UpdatedAt]. rewrite Hj.
    rewrite (find_filter_negb (fun a => String.eqb (a_jid a) jid)). reflexivity.
Qed.

Lemma SetAlias_RemoveAlias_GetContact_witness :
  exists cdb', SetAlias ex_contact_db "a@s" " Ali " 200 = Ok cdb'
    /\ GetContact cdb' "a@s"
         (Ok {| CT_JID := "a@s"; CT_Phone := "15550001"; CT_Name := "Alice Smith";
                CT_Alias := "Ali"; CT_Tags := []; CT_UpdatedAt := 100 |}).
Proof.
  assert (G : GetContact ex_contact_db "a@s" (Ok (to_contact ex_contact_db (ex_contact "a@s") [])))
    by (exists []; split; [split; constructor | reflexivity]).
  destruct (SetAlias_RemoveAlias_GetContact ex_contact_db "a@s" " Ali " 200 _ G)
    as [_ [H _]].
  exact (H ltac:(vm_compute; congruence)).
Defined.

(** ** Tags *)

Lemma tag_key_is_true (jid tag : string) (t : tag_row) :
  tag_key_is jid tag t = true -> t_jid t = jid /\ t_tag t = tag.
Proof.
  unfold tag_key_is. intros H. apply andb_prop in H. destruct H as [H1 H2].
  apply String.eqb_eq in H1, H2. auto.
Qed.

(** [AddTag] refuses a blank tag; otherwise [ListTags] afterwards holds the
    tags from before and the trimmed tag, and no other, and the [(jid, tag)]
    keys stay distinct. [RemoveTag] drops exactly the tag equal to its
    argument, untrimmed: [RemoveTag " vip "] does not remove the tag "vip"
    that [AddTag " vip "] stored. *)
Theorem AddTag_RemoveTag_ListTags (cdb : ContactDB) (jid tag : string) (now : Z) :
  (TrimSpace tag = "" -> AddTag cdb jid tag now = Err "tag is required")
  /\ (TrimSpace tag <> "" ->
      exists cdb', AddTag cdb jid tag now = Ok cdb'
        /\ (forall ts0 ts, ListTags cdb jid ts0 -> ListTags cdb' jid ts ->
              forall t, In t ts <-> In t ts0 \/ t = TrimSpace tag)
        /\ (NoDup (map (fun t => (t_jid t, t_tag t)) (tags cdb)) ->
            NoDup (map (fun t => (t_jid t, t_tag t)) (tags cdb'))))
  /\ (forall ts0 ts, ListTags cdb jid ts0 -> ListTags (RemoveTag cdb jid tag) jid ts ->
        forall t, In t ts <-> In t ts0 /\ t <> tag).
Proof.
  split; [|split].
  - intros Ht. unfold AddTag. cbv zeta. rewrite Ht. reflexivity.
  - intros Ht. unfold AddTag. cbv zeta. apply String.eqb_neq in Ht as Ht'. rewrite Ht'.
    set (T := TrimSpace tag).
    set (g := fun t => if tag_key_is jid T t
                       then {| t_jid := t_jid t; t_tag := t_tag t; t_updated_at := now |}
                       else t).
    assert (Hg : forall t, t_jid (g t) = t_jid t /\ t_tag (g t) = t_tag t)
      by (intros t; unfold g; destruct (tag_key_is jid T t); auto).
    eexists. split; [reflexivity|]. split.
    + intros ts0 ts H0 H1 t. rewrite (ListTags_In _ _ _ t H0).
      rewrite (ListTags_In _ _ _ t H1). cbn [tags].
      destruct (existsb (tag_key_is jid T) (tags cdb)) eqn:E.
      * apply existsb_exists in E. destruct E as [y [Hy Hky]].
        apply tag_key_is_true in Hky. destruct Hky as [Hyj Hyt].
        split.
        -- intros [x [Hx [Hxj Hxt]]]. apply in_map_iff in Hx. destruct Hx as [z [<- Hz]].
           left. exists z. destruct (Hg z) as [G1 G2]. rewrite <- G1, <- G2. auto.
        -- intros [[x [Hx [Hxj Hxt]]] | ->].
           ++ exists (g x). destruct (Hg x) as [G1 G2]. rewrite G1, G2.
              split; [apply in_map; exact Hx | auto].
           ++ exists (g y). destruct (Hg y) as [G1 G2]. rewrite G1, G2.
              split; [apply in_map; exact Hy | auto].
      * split.
        -- intros [x [Hx [Hxj Hxt]]]. apply in_app_or in Hx. destruct Hx as [Hx|[<-|[]]].
           ++ left. exists x. auto.
           ++ right. symmetry. exact Hxt.
        -- intros [[x [Hx [Hxj Hxt]]] | ->].
           ++ exists x. split; [apply in_or_app; left; exact Hx | auto].
           ++ exists {| t_jid := jid; t_tag := T; t_updated_at := now |}.
              split; [apply in_or_app; right; left; reflexivity | auto].
    + intros Hnd. cbn [tags].
      destruct (existsb (tag_key_is jid T) (tags cdb)) eqn:E.
      * rewrite map_map.
        replace (map (fun x => (t_jid (g x), t_tag (g x))) (tags cdb))
          with (map (fun t => (t_jid t, t_tag t)) (tags cdb)); [exact Hnd|].
        apply map_ext. intros t. destruct (Hg t) as [G1 G2]. rewrite G1, G2. reflexivity.
      * rewrite map_app. simpl.
        apply (Permutation_NoDup (Permutation_cons_append _ _)).
        constructor; [|exact Hnd].
        intros Hin. apply in_map_iff in Hin. destruct Hin as [x [Hx Hin]].
        injection Hx as Hxj Hxt.
        pose proof (existsb_false_forall _ _ E x Hin) as F.
        unfold tag_key_is in F. rewrite Hxj, Hxt, !String.eqb_refl in F. discriminate.
  - intros ts0 ts H0 H1 t. rewrite (ListTags_In _ _ _ t H0).
    rewrite (ListTags_In _ _ _ t H1). cbn [tags]. split.
    + intros [x [Hx [Hxj Hxt]]]. apply filter_In in Hx. destruct Hx as [Hx Hk].
      split; [exists x; auto|]. intros ->. unfold tag_key_is in Hk.
      rewrite Hxj, Hxt, !String.eqb_refl in Hk. discriminate.
    + intros [[x [Hx [Hxj Hxt]]] Hne]. exists x. split; [|auto].
      apply filter_In. split; [exact Hx|]. unfold tag_key_is.
      rewrite Hxj, String.eqb_refl. simpl. apply String.eqb_neq in Hne.
      rewrite Hxt, Hne. reflexivity.
Qed.


(** ** SearchContacts *)

(** [SearchContacts] refuses a blank query; otherwise it returns stored
    contacts, without tags, at most [limit] of them (50 when [limit <= 0]),
    ordered by alias, else full name, else push name, else JID; a contact
    whose alias, full name, push name, phone or JID contains the query (up
    to ASCII case, for a query with no NUL byte) is returned unless the result
    is full; a query longer than the [LIKE] pattern limit fails with the
    pattern error or yields no contact. *)
Theorem SearchContacts_spec (cdb : ContactDB) (query : string) (limit : Z)
    (out : res (list Contact)) :
  SearchContacts cdb query limit out ->
  (TrimSpace query = "" -> out = Err "query is required")
  /\ (TrimSpace query <> "" -> like_pattern_limit < Z.of_nat (String.length query) + 2 ->
      out = Err like_too_complex \/ out = Ok [])
  /\ (TrimSpace query <> "" -> Z.of_nat (String.length query) + 2 <= like_pattern_limit ->
      exists rows,
        out = Ok (map (fun c => to_contact cdb c []) rows)
        /\ (List.length rows <= Z.to_nat (search_limit limit))%nat
        /\ (forall r, In r rows -> In r (contacts cdb))
        /\ Sorted (fun a b => String.leb (contact_sort_key cdb a) (contact_sort_key cdb b) = true)
             rows
        /\ (no_nul query = true -> forall r, In r (contacts cdb) ->
              contains_ci (contact_alias cdb (ct_jid r)) query
              || contains_ci (opt_or_empty (ct_full_name r)) query
              || contains_ci (opt_or_empty (ct_push_name r)) query
              || contains_ci (opt_or_empty (ct_phone r)) query
              || contains_ci (ct_jid r) query = true ->
              In r rows \/ List.length rows = Z.to_nat (search_limit limit))).
Proof.
  unfold SearchContacts. destruct (String.eqb (TrimSpace query) "") eqn:E.
  - apply String.eqb_eq in E. intros H.
    split; [intros _; exact H | split; intros Hne; contradiction].
  - apply String.eqb_neq in E. cbv zeta. intros H.
    split; [intros Hq; contradiction|].
    split; [intros _ Hlen; apply Z.ltb_lt in Hlen; rewrite Hlen in H; exact H|].
    intros _ Hlen. apply Z.ltb_ge in Hlen. rewrite Hlen in H. destruct H as [rows [Hsel ->]].
    fold (search_limit limit) in Hsel.
    pose proof (Z.lt_le_incl _ _ (search_limit_pos limit)) as Hpos.
    exists rows. split; [reflexivity|].
    split; [exact (select_rows_length _ _ _ _ _ Hpos Hsel)|].
    split; [intros r Hr; exact (proj1 (select_rows_in _ _ _ _ _ r Hsel Hr))|].
    split; [exact (select_rows_Sorted _ _ _ _ _ Hsel)|].
    intros Hn r Hr H. apply (select_rows_full _ _ _ _ _ r Hpos Hsel Hr).
    unfold contact_alias in H. rewrite opt_or_empty_NULLIF in H. unfold contact_hit.
    repeat (apply orb_prop in H; destruct H as [H|H]);
      rewrite (like_col_contains _ _ Hn H); rewrite ?orb_true_l, ?orb_true_r; reflexivity.
Qed.

Lemma SearchContacts_spec_witness :
  exists rows,
    Ok [to_contact ex_contact_db (ex_contact "a@s") []]
      = Ok (map (fun c => to_contact ex_contact_db c []) rows)
    /\ In (ex_contact "a@s") rows.
Proof.
  assert (H : SearchContacts ex_contact_db "SMITH" 0
                (Ok [to_contact ex_contact_db (ex_contact "a@s") []])).
  { unfold SearchContacts. simpl.
    exists [ex_contact "a@s"]. split; [|reflexivity].
    exists [ex_contact "a@s"]. split; [vm_compute; apply Permutation_refl|].
    split; [repeat constructor | reflexivity]. }
  destruct (SearchContacts_spec _ _ _ _ H) as [_ [_ H2]].
  destruct (H2 ltac:(vm_compute; congruence) ltac:(vm_compute; congruence))
    as [rows [Ho [Hl [_ [_ Hc]]]]].
  exists rows. split; [exact Ho|].
  destruct (Hc eq_refl (ex_contact "a@s") (or_introl eq_refl) eq_refl) as [I|L]; [exact I|].
  exfalso. injection Ho as Ho.
  destruct rows as [|x [|y rows]]; [discriminate Ho | | discriminate Ho].
  vm_compute in L. discriminate L.
Defined.

(** ** ensureSchema run twice *)

Lemma tableExists_existsb (s : Schema) (t : string) :
  tableExists s t = existsb (fun e => String.eqb (fst e) t) (tables s).
Proof.
  unfold tableExists, table_cols.
  destruct (find (fun e => String.eqb (fst e) t) (tables s)) as [[n c]|] eqn:F.
  - symmetry. exact (find_some_existsb _ _ _ F).
  - symmetry. destruct (existsb _ _) eqn:X; [|reflexivity].
    apply existsb_exists in X. destruct X as [x [Hx Hp]].
    rewrite (find_none _ _ F x Hx) in Hp. discriminate.
Qed.

Lemma create_if_absent_keeps (s : Schema) (t0 t : string) (cols : list string) :
  tableExists s t0 = true -> tableExists (create_if_absent s t cols) t0 = true.
Proof.
  unfold create_if_absent. destruct (table_cols s t); [auto|].
  rewrite !tableExists_existsb. cbn [tables with_tables]. rewrite existsb_app.
  intros ->. reflexivity.
Qed.

Lemma create_if_absent_creates (s : Schema) (t : string) (cols : list string) :
  tableExists (create_if_absent s t cols) t = true.
Proof.
  unfold create_if_absent. destruct (table_cols s t) eqn:T.
  - unfold tableExists. rewrite T. reflexivity.
  - rewrite tableExists_existsb. cbn [tables with_tables]. rewrite existsb_app.
    simpl. rewrite String.eqb_refl, orb_true_r. reflexivity.
Qed.

Lemma existsb_filter_keep {A} (p q : A -> bool) (l : list A) :
  (forall x, p x = true -> q x = true) ->
  existsb p l = true -> existsb p (filter q l) = true.
Proof.
  intros Hq. induction l as [|a l IH]; simpl; [discriminate|].
  destruct (p a) eqn:Pa; simpl.
  - rewrite (Hq a Pa). simpl. rewrite Pa. reflexivity.
  - intros H. destruct (q a); simpl; [rewrite Pa; simpl|]; apply IH, H.
Qed.

Lemma add_columns_cons (fails : stmt -> bool) (s : Schema) (c : string) (cols : list string) :
  add_columns fails s (c :: cols) =
  if fails (TableInfo "messages") then (s, Some "database error")
  else if tableHasColumn s "messages" c then add_columns fails s cols
  else match Exec fails s (AddColumn "messages" c) with
       | Ok s' => add_columns fails s' cols
       | Err e => (s, Some ("add " ++ c ++ " column: " ++ e))
       end.
Proof. simpl. unfold tableHasColumnQ. destruct (fails (TableInfo "messages")); reflexivity. Qed.

(** no statement drops the [schema_migrations] table *)
Lemma Exec_keeps_ledger_table (fails : stmt -> bool) (s : Schema) (st : stmt) (s' : Schema) :
  Exec fails s st = Ok s' ->
  tableExists s "schema_migrations" = true -> tableExists s' "schema_migrations" = true.
Proof.
  unfold Exec. destruct (fails st); [discriminate|].
  destruct st; simpl; intros H Ht;
    try (injection H as <-; first [exact Ht | apply create_if_absent_keeps, Ht]).
  - destruct (table_cols s table); [|discriminate].
    destruct (existsb (String.eqb col) l); [discriminate|]. injection H as <-.
    rewrite tableExists_existsb in Ht |- *. cbn [tables with_tables].
    rewrite existsb_map_same; [exact Ht|].
    intros [n c]. simpl. destruct (String.eqb n table); reflexivity.
  - injection H as <-. rewrite tableExists_existsb in Ht |- *. cbn [tables with_tables].
    apply existsb_filter_keep; [|exact Ht].
    intros [n c]. simpl. intros E. apply String.eqb_eq in E. subst n. reflexivity.
  - destruct (existsb (fun e => Z.eqb (fst e) version0) (ledger s)); [discriminate|].
    injection H as <-. exact Ht.
Qed.

Lemma Exec_script_keeps_ledger_table (fails : stmt -> bool) (sts : list stmt) (s : Schema) :
  tableExists s "schema_migrations" = true ->
  tableExists (fst (Exec_script fails s sts)) "schema_migrations" = true.
Proof.
  revert s. induction sts as [|st sts IH]; intros s Ht; [exact Ht|].
  simpl. destruct (Exec fails s st) as [s'|e] eqn:E; [|exact Ht].
  apply IH. exact (Exec_keeps_ledger_table _ _ _ _ E Ht).
Qed.

Ltac exec_keeps :=
  repeat (cbv beta iota zeta;
          match goal with
          | |- context [match Exec ?f ?s ?st with _ => _ end] =>
              let E := fresh "E" in destruct (Exec f s st) eqn:E
          | |- context [if ?b then _ else _] => destruct b
          end);
  repeat match goal with
         | H : Exec ?f ?a ?st = Ok ?b, Ha : tableExists ?a ?t = true |- _ =>
             pose proof (Exec_keeps_ledger_table f a st b H Ha); clear H
         end;
  simpl; assumption.

Lemma up_keeps_ledger_table (fails : stmt -> bool) (cols : list string)
    (m : migration) (s : Schema) :
  In m (schemaMigrations fails cols) ->
  tableExists s "schema_migrations" = true ->
  tableExists (fst (up m s)) "schema_migrations" = true.
Proof.
  simpl. intros [<-|[<-|[<-|[<-|[]]]]]; simpl; intros Ht.
  - unfold migrateCoreSchema.
    pose proof (Exec_script_keeps_ledger_table fails core_script s Ht) as K.
    destruct (Exec_script fails s core_script) as [s' [e|]]; exact K.
  - unfold migrateMessagesDisplayText, tableHasColumnQ. exec_keeps.
  - unfold migrateMessagesFTS, tableHasColumnQ, tableExistsQ. exec_keeps.
  - unfold migrateMessagesReaction. revert s Ht. induction cols as [|c cols IH];
      intros s Ht; [exact Ht|]. rewrite add_columns_cons.
    destruct (fails (TableInfo "messages")); [exact Ht|].
    destruct (tableHasColumn s "messages" c); [apply IH, Ht|].
    destruct (Exec fails s (AddColumn "messages" c)) as [s'|e] eqn:E; [|exact Ht].
    apply IH. exact (Exec_keeps_ledger_table _ _ _ _ E Ht).
Qed.

Lemma run_migrations_keeps_ledger_table (fails : stmt -> bool) (applied : list Z)
    (ms : list migration) (s : Schema) :
  (forall m s, In m ms -> tableExists s "schema_migrations" = true ->
               tableExists (fst (up m s)) "schema_migrations" = true) ->
  tableExists s "schema_migrations" = true ->
  tableExists (fst (run_migrations fails applied ms s)) "schema_migrations" = true.
Proof.
  revert s. induction ms as [|m ms IH]; intros s Hup Ht; simpl; [exact Ht|].
  destruct (existsb (Z.eqb (version m)) applied).
  { apply IH; [intros; apply Hup; [right|]; assumption | exact Ht]. }
  pose proof (Hup m s (or_introl eq_refl) Ht) as H1.
  destruct (up m s) as [s1 [e|]]; [exact H1|]. simpl in H1.
  destruct (Exec fails s1 (InsertLedger (version m) (mname m))) as [s2|e] eqn:E; [|exact H1].
  apply IH; [intros; apply Hup; [right|]; assumption|].
  exact (Exec_keeps_ledger_table _ _ _ _ E H1).
Qed.

(** every migration already in the ledger is skipped *)
Lemma run_migrations_all_applied (fails : stmt -> bool) (applied : list Z)
    (ms : list migration) (s : Schema) :
  (forall m, In m ms -> In (version m) applied) ->
  run_migrations fails applied ms s = (s, None).
Proof.
  induction ms as [|m ms IH]; intros H; simpl; [reflexivity|].
  replace (existsb (Z.eqb (version m)) applied) with true.
  - apply IH. intros m' Hm. apply H. right. exact Hm.
  - symmetry. apply existsb_exists. exists (version m).
    split; [apply H; left; reflexivity | apply Z.eqb_refl].
Qed.

(** ** migrateMessagesReaction *)

Lemma AddColumn_table_cols (fails : stmt -> bool) (s s' : Schema) (t c : string) :
  Exec fails s (AddColumn t c) = Ok s' ->
  exists cols, table_cols s t = Some cols /\ table_cols s' t = Some ((cols ++ [c])%list).
Proof.
  unfold Exec. destruct (fails (AddColumn t c)); [discriminate|]. simpl.
  destruct (table_cols s t) as [cols|] eqn:T; [|discriminate].
  destruct (existsb (String.eqb c) cols); [discriminate|]. intros H. injection H as <-.
  exists cols. split; [reflexivity|]. unfold table_cols in T |- *. cbn [tables with_tables].
  rewrite (find_map_update (fun e => String.eqb (fst e) t)
             (fun e => (fst e, (snd e ++ [c])%list))); [|intros x Hx; exact Hx].
  destruct (find (fun e => String.eqb (fst e) t) (tables s)) as [[n l]|]; [|discriminate].
  injection T as ->. reflexivity.
Qed.

Lemma AddColumn_keeps_column (fails : stmt -> bool) (s s' : Schema) (t c c' : string) :
  Exec fails s (AddColumn t c') = Ok s' ->
  tableHasColumn s t c = true -> tableHasColumn s' t c = true.
Proof.
  intros E. destruct (AddColumn_table_cols _ _ _ _ _ E) as [cols [T T']].
  unfold tableHasColumn. rewrite T, T', existsb_app. intros ->. reflexivity.
Qed.

Lemma AddColumn_adds_column (fails : stmt -> bool) (s s' : Schema) (t c : string) :
  Exec fails s (AddColumn t c) = Ok s' -> tableHasColumn s' t c = true.
Proof.
  intros E. destruct (AddColumn_table_cols _ _ _ _ _ E) as [cols [T T']].
  unfold tableHasColumn. rewrite T', existsb_app. simpl.
  rewrite String.eqb_refl, !orb_true_r. reflexivity.
Qed.

Lemma add_columns_keeps_column (fails : stmt -> bool) (cols : list string) (s : Schema)
    (c : string) :
  tableHasColumn s "messages" c = true ->
  tableHasColumn (fst (add_columns fails s cols)) "messages" c = true.
Proof.
  revert s. induction cols as [|c' cols IH]; intros s H; [exact H|]. rewrite add_columns_cons.
  destruct (fails (TableInfo "messages")); [exact H|].
  destruct (tableHasColumn s "messages" c'); [apply IH, H|].
  destruct (Exec fails s (AddColumn "messages" c')) as [s'|e] eqn:E; [|exact H].
  apply IH. exact (AddColumn_keeps_column _ _ _ _ _ _ E H).
Qed.

(** [migrateMessagesReaction] returns no error only when every column it
    was given is in [messages] afterwards (compared case-insensitively),
    whether it was there already or it added it. *)
Theorem migrateMessagesReaction_columns (fails : stmt -> bool) (cols : list string)
    (s s' : Schema) :
  migrateMessagesReaction fails cols s = (s', None) ->
  forall c, In c cols -> tableHasColumn s' "messages" c = true.
Proof.
  unfold migrateMessagesReaction. revert s. induction cols as [|c' cols IH];
    intros s H c Hc; [destruct Hc|].
  rewrite add_columns_cons in H.
  destruct (fails (TableInfo "messages")); [discriminate H|].
  destruct Hc as [<-|Hc].
  - destruct (tableHasColumn s "messages" c') eqn:Th.
    + pose proof (add_columns_keeps_column fails cols s c' Th) as K. rewrite H in K. exact K.
    + destruct (Exec fails s (AddColumn "messages" c')) as [s1|e] eqn:E; [|discriminate H].
      pose proof (add_columns_keeps_column fails cols s1 c'
                    (AddColumn_adds_column _ _ _ _ _ E)) as K.
      rewrite H in K. exact K.
  - destruct (tableHasColumn s "messages" c'); [exact (IH s H c Hc)|].
    destruct (Exec fails s (AddColumn "messages" c')) as [s1|e]; [|discriminate H].
    exact (IH s1 H c Hc).
Qed.

Lemma migrateMessagesReaction_columns_witness :
  migrateMessagesReaction (fun _ => false) ex_reaction_cols
    (fst (migrateCoreSchema (fun _ => false) empty_schema))
  = (fst (migrateMessagesReaction (fun _ => false) ex_reaction_cols
            (fst (migrateCoreSchema (fun _ => false) empty_schema))), None)
  /\ tableHasColumn (fst (migrateMessagesReaction (fun _ => false) ex_reaction_cols
                            (fst (migrateCoreSchema (fun _ => false) empty_schema))))
       "messages" "reaction_emoji" = true.
Proof.
  assert (H : migrateMessagesReaction (fun _ => false) ex_reaction_cols
                (fst (migrateCoreSchema (fun _ => false) empty_schema))
              = (fst (migrateMessagesReaction (fun _ => false) ex_reaction_cols
                        (fst (migrateCoreSchema (fun _ => false) empty_schema))), None))
    by (vm_compute; reflexivity).
  split; [exact H|].
  apply (migrateMessagesReaction_columns _ _ _ _ H). right. left. reflexivity.
Defined.

(** Running [ensureSchema] again on the schema a successful run left
    (with the same engine behaviour) changes nothing and returns no
    error: the ledger table exists, and every migration is recorded in
    the ledger, so all are skipped. *)
Theorem ensureSchema_idempotent (fails : stmt -> bool) (cols : list string) (s s' : Schema) :
  ensureSchema fails cols s = (s', None) -> ensureSchema fails cols s' = (s', None).
Proof.
  unfold ensureSchema, ensureSchemaWith. intros H.
  destruct (Exec fails s CreateLedgerTable) as [s1|e] eqn:E; [|discriminate H].
  assert (Hf : fails CreateLedgerTable = false).
  { unfold Exec in E. destruct (fails CreateLedgerTable); [discriminate E|reflexivity]. }
  change (Exec fails s1 SelectApplied)
    with (if fails SelectApplied then @Err Schema "database error" else Ok s1) in H.
  destruct (fails SelectApplied) eqn:F1; [discriminate H|]. cbv beta iota in H.
  change (Exec fails s1 IterateApplied)
    with (if fails IterateApplied then @Err Schema "database error" else Ok s1) in H.
  destruct (fails IterateApplied) eqn:F2; [discriminate H|]. cbv beta iota in H.
  assert (Ht1 : tableExists s1 "schema_migrations" = true).
  { unfold Exec in E. rewrite Hf in E. simpl in E. injection E as <-.
    apply create_if_absent_creates. }
  assert (Ht' : tableExists s' "schema_migrations" = true).
  { pose proof (run_migrations_keeps_ledger_table fails (map fst (ledger s1))
                  (schemaMigrations fails cols) s1
                  (fun m s0 Hm => up_keeps_ledger_table fails cols m s0 Hm) Ht1) as K.
    rewrite H in K. exact K. }
  assert (HE : Exec fails s' CreateLedgerTable = Ok s').
  { unfold Exec. rewrite Hf. simpl. unfold create_if_absent. unfold tableExists in Ht'.
    destruct (table_cols s' "schema_migrations"); [reflexivity|discriminate Ht']. }
  rewrite HE.
  change (Exec fails s' SelectApplied)
    with (if fails SelectApplied then @Err Schema "database error" else Ok s').
  rewrite F1. cbv beta iota.
  change (Exec fails s' IterateApplied)
    with (if fails IterateApplied then @Err Schema "database error" else Ok s').
  rewrite F2. cbv beta iota.
  destruct (run_migrations_ledger fails (map fst (ledger s1)) (schemaMigrations fails cols) s1
              (fun m s0 Hm => schemaMigrations_ledger fails cols m s0 Hm))
    as [k [Hk [Hl [Hn _]]]].
  rewrite H in Hl, Hn. cbn [fst snd] in Hl, Hn. specialize (Hn eq_refl). subst k.
  rewrite firstn_all in Hl.
  apply run_migrations_all_applied. intros m Hm.
  rewrite Hl, map_app, in_app_iff.
  destruct (existsb (Z.eqb (version m)) (map fst (ledger s1))) eqn:X.
  - left. apply existsb_exists in X. destruct X as [v [Hv Ev]].
    apply Z.eqb_eq in Ev. rewrite Ev. exact Hv.
  - right. rewrite map_map. apply in_map_iff. exists m. split; [reflexivity|].
    unfold pending. apply filter_In. rewrite X. split; [exact Hm|reflexivity].
Qed.

Lemma ensureSchema_idempotent_witness :
  ensureSchema (fun _ => false) ex_reaction_cols empty_schema
  = (fst (ensureSchema (fun _ => false) ex_reaction_cols empty_schema), None)
  /\ ensureSchema (fun _ => false) ex_reaction_cols
       (fst (ensureSchema (fun _ => false) ex_reaction_cols empty_schema))
     = (fst (ensureSchema (fun _ => false) ex_reaction_cols empty_schema), None).
Proof.
  assert (H : ensureSchema (fun _ => false) ex_reaction_cols empty_schema
              = (fst (ensureSchema (fun _ => false) ex_reaction_cols empty_schema), None))
    by (vm_compute; reflexivity).
  split; [exact H|]. exact (ensureSchema_idempotent _ _ _ _ H).
Defined.

(** ** storeParsedMessage: the stored row *)

(** [buildDisplayText] never yields a blank text *)
Lemma buildDisplayText_nonblank (d : DB) (pm : wa.ParsedMessage) :
  TrimSpace (buildDisplayText d pm) <> "".
Proof.
  unfold buildDisplayText. cbv zeta.
  destruct (negb (String.eqb (wa.ReactionToID pm) "")
            || negb (String.eqb (TrimSpace (wa.ReactionEmoji pm)) "")).
  { destruct (negb (String.eqb (TrimSpace (wa.ReactionEmoji pm)) ""));
      apply TrimSpace_ascii_head; reflexivity. }
  destruct (negb (String.eqb (wa.ReplyToID pm) "")).
  { apply TrimSpace_ascii_head; reflexivity. }
  destruct (String.eqb (baseDisplayText pm) "") eqn:Eb.
  { apply TrimSpace_ascii_head; reflexivity. }
  apply String.eqb_neq in Eb. revert Eb. unfold baseDisplayText.
  destruct (wa.Media_ pm); [intros _; apply TrimSpace_ascii_head; reflexivity|].
  cbv zeta. destruct (String.eqb (TrimSpace (wa.Text pm)) "") eqn:Et; simpl;
    [intros H; exfalso; apply H; reflexivity|].
  intros _. rewrite TrimSpace_idem. apply String.eqb_neq. exact Et.
Qed.

(** Ingesting a message always succeeds; afterwards its chat exists and its
    row is stored with the trimmed [buildDisplayText] as display text,
    which is never blank. The reaction columns are never written: they
    keep the values of the row already stored (NULL for a new row). *)
Theorem storeParsedMessage_row (d : DB) (pm : wa.ParsedMessage)
    (chatName kind senderName : string) :
  exists d', storeParsedMessage d pm chatName kind senderName = Ok d'
    /\ chat_exists d' (wa.Chat pm) = true
    /\ TrimSpace (buildDisplayText d pm) <> ""
    /\ exists r, get_row d' (wa.Chat pm) (wa.ID pm) = Some r
       /\ m_display_text r = Some (TrimSpace (buildDisplayText d pm))
       /\ m_reaction_to_id r = match get_row d (wa.Chat pm) (wa.ID pm) with
                               | Some o => m_reaction_to_id o | None => None end
       /\ m_reaction_emoji r = match get_row d (wa.Chat pm) (wa.ID pm) with
                               | Some o => m_reaction_emoji o | None => None end.
Proof.
  pose proof (buildDisplayText_nonblank d pm) as Hnb.
  unfold storeParsedMessage. cbv zeta.
  set (d1 := UpsertChat d (wa.Chat pm) kind chatName (wa.Timestamp pm)).
  rewrite (buildDisplayText_messages d1 d pm) by apply UpsertChat_messages.
  match goal with |- exists d', UpsertMessage d1 ?p = Ok d' /\ _ => set (q := p) end.
  assert (Hok : UpsertMessage d1 q = Ok (with_messages d1 (upsert_rows (messages d1) q))).
  { unfold UpsertMessage. change (ChatJID q) with (wa.Chat pm).
    unfold d1. rewrite UpsertChat_exists. reflexivity. }
  exists (with_messages d1 (upsert_rows (messages d1) q)).
  split; [exact Hok|]. split; [exact (UpsertChat_exists d (wa.Chat pm) kind chatName _)|].
  split; [exact Hnb|].
  pose proof (UpsertMessage_get_row _ _ _ Hok) as Hg.
  change (ChatJID q) with (wa.Chat pm) in Hg. change (MsgID q) with (wa.ID pm) in Hg.
  assert (Hd1 : get_row d1 (wa.Chat pm) (wa.ID pm) = get_row d (wa.Chat pm) (wa.ID pm)).
  { unfold get_row, d1. rewrite UpsertChat_messages. reflexivity. }
  rewrite Hd1 in Hg.
  assert (Hd : m_display_text (msg_excluded q) = Some (TrimSpace (buildDisplayText d pm)))
    by exact (nullIfEmpty_some _ Hnb).
  assert (Hne : negb (String.eqb (TrimSpace (buildDisplayText d pm)) "") = true)
    by (apply negb_true_iff, String.eqb_neq; exact Hnb).
  destruct (get_row d (wa.Chat pm) (wa.ID pm)) as [o|].
  - eexists. split; [exact Hg|].
    change (m_display_text (msg_merge o (msg_excluded q)))
      with (case_nonempty (m_display_text (msg_excluded q)) (m_display_text o)).
    rewrite Hd. simpl. rewrite Hne. split; [reflexivity|]. split; reflexivity.
  - eexists. split; [exact Hg|]. split; [exact Hd|]. split; reflexivity.
Qed.

(** ** BackfillHistory: a successful run *)

Lemma backfill_loop_ok (chatStr : string) (env : nat -> round_env) (fuel i r s r' s' : nat) :
  backfill_loop chatStr env fuel i r s = (r', s', None) ->
  exists k, r' = (r + k)%nat /\ s' = (s + k)%nat /\ (k <= fuel)%nat /\ ((0 < fuel)%nat -> (0 < k)%nat).
Proof.
  revert i r s. induction fuel as [|fuel IH]; intros i r s H; simpl in H.
  - injection H as <- <-. exists 0%nat. lia.
  - destruct (backfill_round chatStr (env i) r s) as [r1 s1|r1 s1|r1 s1 err] eqn:E.
    + destruct (backfill_round_continue chatStr (env i) r s r1 s1 (or_introl E)) as [-> ->].
      destruct (IH _ _ _ H) as [k [-> [-> [Hk _]]]]. exists (S k). lia.
    + destruct (backfill_round_continue chatStr (env i) r s r1 s1 (or_intror E)) as [-> ->].
      injection H as <- <-. exists 1%nat. lia.
    + discriminate H.
Qed.

(** A backfill that returns no error reports its chat, as many responses
    as requests, and between one request and [Requests] of them
    ([Requests <= 0] counting as 1). *)
Theorem BackfillHistory_success (chatStr : string) (requests : Z) (env : nat -> round_env)
    (res : BackfillResult) :
  BackfillHistory chatStr requests env = (res, None) ->
  BR_ChatJID res = chatStr
  /\ RequestsSent res = ResponsesSeen res
  /\ (1 <= RequestsSent res)%nat
  /\ Nat.le (RequestsSent res) (Z.to_nat (if requests <=? 0 then 1 else requests)).
Proof.
  unfold BackfillHistory. cbv zeta.
  assert (Hpos : Nat.lt 0 (Z.to_nat (if requests <=? 0 then 1 else requests))).
  { destruct (requests <=? 0) eqn:R; [simpl; lia|]. apply Z.leb_gt in R. lia. }
  destruct (backfill_loop chatStr env (Z.to_nat (if requests <=? 0 then 1 else requests)) 0 0 0)
    as [[r s] [err|]] eqn:L; intros H; [discriminate H|].
  injection H as <-. simpl.
  destruct (backfill_loop_ok _ _ _ _ _ _ _ _ L) as [k [-> [-> [Hk Hk0]]]].
  specialize (Hk0 Hpos). split; [reflexivity|]. unfold Nat.lt in Hk0. lia.
Qed.

Lemma BackfillHistory_success_witness :
  BackfillHistory "c" 3 (fun _ => ex_round_env (GotResponse ex_response))
  = ({| BR_ChatJID := "c"; RequestsSent := 3; ResponsesSeen := 3 |}, None)
  /\ (1 <= 3 <= 3)%nat.
Proof.
  assert (H : BackfillHistory "c" 3 (fun _ => ex_round_env (GotResponse ex_response))
              = ({| BR_ChatJID := "c"; RequestsSent := 3; ResponsesSeen := 3 |}, None))
    by (vm_compute; reflexivity).
  split; [exact H|].
  destruct (BackfillHistory_success _ _ _ _ H) as [_ [_ [H1 H2]]]. split; [exact H1|exact H2].
Defined.

(** ** Re-ingesting a downloaded message *)

(** An upsert never touches the download bookkeeping: a stored message
    keeps its local path and download time, and a new message has no
    local path and the zero download time. *)
Theorem UpsertMessage_keeps_download (d d' : DB) (p : UpsertMessageParams) :
  UpsertMessage d p = Ok d' ->
  match GetMediaDownloadInfo d (ChatJID p) (MsgID p),
        GetMediaDownloadInfo d' (ChatJID p) (MsgID p) with
  | Ok i, Ok i' => MD_LocalPath i' = MD_LocalPath i /\ MD_DownloadedAt i' = MD_DownloadedAt i
  | Err _, Ok i' => MD_LocalPath i' = "" /\ MD_DownloadedAt i' = zero_time
  | _, Err _ => False
  end.
Proof.
  intros H. pose proof (UpsertMessage_get_row _ _ _ H) as Hg.
  unfold GetMediaDownloadInfo. rewrite Hg.
  destruct (get_row d (ChatJID p) (MsgID p)) as [r|]; cbn -[fromUnix];
    split; reflexivity.
Qed.

Lemma UpsertMessage_keeps_download_witness :
  UpsertMessage (ex_db []) (ex_params "c" "m1" 100 "hi")
  = Ok (with_messages (ex_db []) [msg_excluded (ex_params "c" "m1" 100 "hi")])
  /\ exists i,
       GetMediaDownloadInfo (with_messages (ex_db []) [msg_excluded (ex_params "c" "m1" 100 "hi")])
         "c" "m1" = Ok i
       /\ MD_LocalPath i = "" /\ MD_DownloadedAt i = zero_time.
Proof.
  assert (H : UpsertMessage (ex_db []) (ex_params "c" "m1" 100 "hi")
              = Ok (with_messages (ex_db []) [msg_excluded (ex_params "c" "m1" 100 "hi")]))
    by reflexivity.
  split; [exact H|].
  pose proof (UpsertMessage_keeps_download _ _ _ H) as K. cbn [ChatJID MsgID ex_params] in K.
  destruct (GetMediaDownloadInfo (ex_db []) "c" "m1") as [i0|e0] eqn:E0;
    [vm_compute in E0; discriminate E0|].
  destruct (GetMediaDownloadInfo (with_messages (ex_db [])
              [msg_excluded (ex_params "c" "m1" 100 "hi")]) "c" "m1") as [i|e] eqn:E1;
    [|destruct K].
  exists i. split; [reflexivity|exact K].
Defined.
